(** * Punctuation restoration: data preparation pipeline

    A shallow embedding of the corpus loader ([converters/json_converter.py],
    [parsers/parse_json2.py]), the label aligner ([parsers/tsv_parser.py],
    [parsers/parse_tsv.py]), the sequence chunker ([split_long_examples.py]),
    the dataset splitter ([converters/pandas_converter.py]) and the sentence
    filter of the trainer ([train_ner_punctuation.py]).

    Python [str] values are lists of Unicode code points, [int] values are
    [Z], the [float] stride of the chunker is a binary64 number of
    [SpecFloat], exceptions are an explicit [outcome], the log is an
    explicit list of records and the state of the [random] module is
    threaded through. *)

From Stdlib Require Import String Ascii ZArith NArith List Bool Lia.
From Stdlib Require Import DecimalString.
From Stdlib Require Import QArith Qround Lqa Permutation Sorted.
From Stdlib Require Import SpecFloat.
Import ListNotations.
Local Open Scope Z_scope.

(* ================================================================== *)
(** * Python values *)
(* ================================================================== *)

(** A character is its code point; a [str] is the list of its characters. *)
Definition char := N.
Definition pystr := list char.

(** An ASCII literal as a Python string. *)
Definition str (s : string) : pystr :=
  map N_of_ascii (list_ascii_of_string s).

(** U+2026 HORIZONTAL ELLIPSIS, the placeholder of the normaliser. *)
Definition HELLIP : char := 8230%N.

Fixpoint str_eqb (a b : pystr) : bool :=
  match a, b with
  | [], [] => true
  | x :: a', y :: b' => N.eqb x y && str_eqb a' b'
  | _, _ => false
  end.

Definition len {A : Type} (l : list A) : Z := Z.of_nat (length l).

(** Python clamps the bound of a slice: a negative bound counts from the
    end, and anything out of range is cut to the nearest end. *)
Definition slice_bound {A : Type} (l : list A) (k : Z) : nat :=
  if k <? 0 then Z.to_nat (Z.max 0 (len l + k))
  else Z.to_nat (Z.min k (len l)).

(** [l[k:]] *)
Definition slice_from {A : Type} (k : Z) (l : list A) : list A :=
  skipn (slice_bound l k) l.

(** [l[:k]] *)
Definition slice_to {A : Type} (k : Z) (l : list A) : list A :=
  firstn (slice_bound l k) l.

Inductive exn : Type :=
| IndexError
| ValueError
| OSError
| OverflowError.

Inductive outcome (A : Type) : Type :=
| Return (a : A)
| Raise (e : exn).
Arguments Return {A} a.
Arguments Raise {A} e.

(** [l[k]]: unlike a slice, an index out of range raises. *)
Definition index {A : Type} (l : list A) (k : Z) : outcome A :=
  let i := if k <? 0 then len l + k else k in
  if (i <? 0) || (len l <=? i) then Raise IndexError
  else match nth_error l (Z.to_nat i) with
       | Some x => Return x
       | None => Raise IndexError
       end.

(* ================================================================== *)
(** * Python string methods and the regular expressions of the source *)
(* ================================================================== *)

Definition chr (a : ascii) : char := N_of_ascii a.

Definition SP : char := chr " ".
Definition TAB : char := 9%N.
Definition LF : char := 10%N.
Definition DQUOTE : char := 34%N.
Definition PERCENT : char := 37%N.

Definition char_in (set : pystr) (c : char) : bool := existsb (N.eqb c) set.

(** [str.isspace] for one character: the code points Python strips. *)
Definition isspace (c : char) : bool :=
  ((9 <=? c) && (c <=? 13) || (28 <=? c) && (c <=? 32)
   || char_in [133; 160; 5760; 8232; 8233; 8239; 8287; 12288] c
   || (8192 <=? c) && (c <=? 8202))%N.

Fixpoint lstrip (s : pystr) : pystr :=
  match s with
  | c :: s' => if isspace c then lstrip s' else s
  | [] => []
  end.

(** [s.strip()] *)
Definition strip (s : pystr) : pystr := rev (lstrip (rev (lstrip s))).

(** [s.split(sep)] for a separator of one character: empty fields are
    kept, and the empty string splits to one empty field. *)
Fixpoint split (sep : char) (s : pystr) : list pystr :=
  match s with
  | [] => [[]]
  | c :: s' =>
      if N.eqb c sep then [] :: split sep s'
      else match split sep s' with
           | w :: ws => (c :: w) :: ws
           | [] => [[c]]
           end
  end.

(** [text.startswith(prefix)] *)
Fixpoint startswith (prefix text : pystr) : bool :=
  match prefix, text with
  | [], _ => true
  | c :: prefix', d :: text' => N.eqb c d && startswith prefix' text'
  | _ :: _, [] => false
  end.

(** The scan of [find]: the first position, counted from [at], where [sub]
    starts in [text]. *)
Fixpoint find_from (sub text : pystr) (at_ : Z) : Z :=
  if startswith sub text then at_
  else match text with
       | [] => -1
       | _ :: text' => find_from sub text' (at_ + 1)
       end.

(** [text.find(sub, start)]: a negative [start] counts from the end, and
    nothing is found from beyond the end, not even the empty string. *)
Definition str_find (text sub : pystr) (start : Z) : Z :=
  let start := if start <? 0 then Z.max 0 (len text + start) else start in
  if len text <? start then -1
  else find_from sub (skipn (Z.to_nat start) text) start.

(** [sub in text] for two strings. *)
Definition str_contains (text sub : pystr) : bool :=
  0 <=? str_find text sub 0.

(** [str(n)] for an [int]. *)
Definition str_of_int (n : Z) : pystr :=
  str (NilZero.string_of_int (Z.to_int n)).

(** A [dict] with [int] keys as the list of its assignments, the latest
    first: [d[k] = v], [k in d] and [d[k]]. *)
Definition dict_set (d : list (Z * Z)) (k v : Z) : list (Z * Z) := (k, v) :: d.

Fixpoint dict_get (d : list (Z * Z)) (k : Z) : option Z :=
  match d with
  | [] => None
  | (k', v) :: d' => if k =? k' then Some v else dict_get d' k
  end.

(** [range(n)] *)
Definition range (n : nat) : list Z := map Z.of_nat (seq 0 n).

(** The case and word-character tables of Unicode are not part of the
    repository: [lower] stands for [str.lower] and [is_word] for the
    class [\w] of [re]. *)
Record unicode : Type := {
  lower : pystr -> pystr;
  is_word : char -> bool
}.

Definition ascii_lower_char (c : char) : char :=
  if ((65 <=? c) && (c <=? 90))%N then (c + 32)%N else c.

Definition ascii_is_word (c : char) : bool :=
  ((48 <=? c) && (c <=? 57) || (65 <=? c) && (c <=? 90)
   || (97 <=? c) && (c <=? 122) || (c =? 95))%N.

(** The tables restricted to ASCII: they are Python's on every string whose
    letters are ASCII letters. *)
Definition ascii_tables : unicode := {|
  lower := map ascii_lower_char;
  is_word := ascii_is_word
|}.

(** [re.sub(r"[<set>]", " ", text)] *)
Definition sub_set_by_space (set : pystr) (text : pystr) : pystr :=
  map (fun c => if char_in set c then SP else c) text.

(** [re.sub(r" +", " ", text)]: of every run of spaces one is kept. *)
Fixpoint sub_spaces (text : pystr) : pystr :=
  match text with
  | [] => []
  | c :: rest =>
      if N.eqb c SP then
        match rest with
        | d :: _ =>
            if N.eqb d SP then sub_spaces rest else SP :: sub_spaces rest
        | [] => [SP]
        end
      else c :: sub_spaces rest
  end.

(** [sub_spaces (c :: u)] from [c] and the collapsed [u], for the proofs. *)
Definition collapse_cons (c : char) (w : pystr) : pystr :=
  if N.eqb c SP then
    match w with
    | d :: _ => if N.eqb d SP then w else SP :: w
    | [] => [SP]
    end
  else c :: w.

(** [re.sub(r"\.\.\.", "…", text)]: leftmost matches, not overlapping. *)
Fixpoint sub_dots (text : pystr) : pystr :=
  match text with
  | a :: ((b :: c :: rest) as tail) =>
      if N.eqb a (chr ".") && N.eqb b (chr ".") && N.eqb c (chr ".")
      then HELLIP :: sub_dots rest
      else a :: sub_dots tail
  | a :: tail => a :: sub_dots tail
  | [] => []
  end.

(** [re.sub(r"[!?.:;-]([^ ])", r" \1", text)]: a character of the class
    followed by anything but a space is replaced by a space, the follower
    is kept, and the scan goes on after the follower. *)
Fixpoint sub_glued (text : pystr) : pystr :=
  match text with
  | a :: ((b :: rest) as tail) =>
      if char_in (str "!?.:;-") a && negb (N.eqb b SP)
      then SP :: b :: sub_glued rest
      else a :: sub_glued tail
  | a :: [] => [a]
  | [] => []
  end.

(** [re.sub(r"…", "...", text)] *)
Definition sub_hellip (text : pystr) : pystr :=
  flat_map (fun c => if N.eqb c HELLIP then str "..." else [c]) text.

(** The class [[…,!?.:;-]] of the expected-text normaliser. *)
Definition normalized_away : pystr := HELLIP :: str ",!?.:;-".

(** [re.match] against the pattern [^[^\wQ%]+$], where [Q] is the double
    quote: the word is not empty and has no word character, double quote
    or percent sign ([$] also matches before a final newline, which the
    class consumes anyway). *)
Definition match_non_alphanumeric (U : unicode) (word : pystr) : bool :=
  match word with
  | [] => false
  | _ =>
      forallb (fun c => negb (is_word U c || char_in [DQUOTE; PERCENT] c))
              word
  end.

(* ================================================================== *)
(** * enums.py *)
(* ================================================================== *)

Inductive Label : Type :=
| NO_PUNCTUATION | COLON | SEMICOLON | COMMA | PERIOD
| HYPHEN | ELLIPSIS | QUESTION | EXCLAMATION.

Definition Label_value (l : Label) : pystr :=
  match l with
  | NO_PUNCTUATION => str "B"
  | COLON => str ":"
  | SEMICOLON => str ";"
  | COMMA => str ","
  | PERIOD => str "."
  | HYPHEN => str "-"
  | ELLIPSIS => str "..."
  | QUESTION => str "?"
  | EXCLAMATION => str "!"
  end.

Definition Label_eqb (a b : Label) : bool :=
  str_eqb (Label_value a) (Label_value b).

(** The members in definition order, as iterating the class yields them. *)
Definition Label_members : list Label :=
  [NO_PUNCTUATION; COLON; SEMICOLON; COMMA; PERIOD;
   HYPHEN; ELLIPSIS; QUESTION; EXCLAMATION].

Definition Label_list : list pystr := map Label_value Label_members.

Definition Label_only_punctuations : list Label :=
  filter (fun punctuation => negb (Label_eqb punctuation NO_PUNCTUATION))
         Label_members.

(** The labels of one character, as the spec singles them out. *)
Definition single_character_labels : list pystr :=
  filter (fun v => Nat.eqb (length v) 1)
         (map Label_value Label_only_punctuations).

(* ================================================================== *)
(** * The log *)
(* ================================================================== *)

Inductive log_record : Type :=
| LogError (in_token expected_token : pystr)
| LogWarning (message : pystr)
| StderrMismatch (text_in_splitted text_exp_splitted : list pystr).

(** What a run leaves behind: the strings written to the output file, the
    log, and the exception that ended it, if any. *)
Record run : Type := {
  written : list pystr;
  logged : list log_record;
  raised : option exn
}.

Definition run_then (first : run) (next : run) : run :=
  match raised first with
  | Some _ => first
  | None => {| written := written first ++ written next;
               logged := logged first ++ logged next;
               raised := raised next |}
  end.

(* ================================================================== *)
(** * parsers/tsv_parser.py and parsers/parse_tsv.py *)
(* ================================================================== *)

Module tsv_parser.

(** [TsvParser._determine_label]; the second component is what the call
    hands to [logger.error]. *)
Definition _determine_label (in_token expected_token : pystr)
  : outcome (pystr * list log_record) :=
  if str_eqb in_token expected_token then
    Return (str "B", [])
  else if str_eqb in_token (slice_to (-1) expected_token) then
    match index expected_token (-1) with
    | Return c => Return ([c], [])
    | Raise e => Raise e
    end
  else if str_eqb in_token (slice_to (-3) expected_token)
          && str_eqb (slice_from (-3) expected_token) (str "...") then
    Return (str "...", [])
  else
    Return (str "B", [LogError in_token expected_token]).

(** The forced-alignment directory, when one is given: for a text id and
    the expected tokens, the pauses that [_provide_breaks_for_expected]
    finds in the transcript [_calculate_breaks] reads, each already
    rendered in decimal. Reading and parsing the transcript may raise. *)
Definition fa_directory : Type := pystr -> list pystr -> outcome (list pystr).

(** The inner loop of [convert]: one line per token, numbered from [i]. *)
Fixpoint write_tokens (U : unicode) (matched : option (list pystr)) (i : Z)
    (tokens : list (pystr * pystr)) : run :=
  match tokens with
  | [] => {| written := []; logged := []; raised := None |}
  | (in_token, expected_token) :: rest =>
      let expected_token := lower U expected_token in
      match _determine_label in_token expected_token with
      | Raise e => {| written := []; logged := []; raised := Some e |}
      | Return (label, records) =>
          let line :=
            match matched with
            | Some matched =>
                match index matched i with
                | Return pause =>
                    Return (in_token ++ [TAB] ++ label ++ [TAB] ++ pause
                            ++ [LF])
                | Raise e => Raise e
                end
            | None => Return (in_token ++ [TAB] ++ label ++ [LF])
            end in
          match line with
          | Raise e =>
              {| written := []; logged := records; raised := Some e |}
          | Return line =>
              run_then
                {| written := [line]; logged := records; raised := None |}
                (write_tokens U matched (i + 1) rest)
          end
      end
  end.

(** The body of the outer loop of [convert] for one pair of lines; on a
    failed assertion it logs the warning and goes on to the next pair. *)
Definition convert_line (U : unicode)
    (fa_transcriptions_directory : option fa_directory)
    (in_line expected_line : pystr) : run :=
  let in_line := strip in_line in
  let expected_line := strip expected_line in
  match split TAB in_line with
  | [wikipunct_text_id; in_text] =>
      if negb (len (split SP in_text) =? len (split SP expected_line)) then
        {| written := [];
           logged :=
             [LogWarning (str "Source text and expected text differ!")];
           raised := None |}
      else
        let matched :=
          match fa_transcriptions_directory with
          | Some read =>
              match read wikipunct_text_id (split SP expected_line) with
              | Return matched => Return (Some matched)
              | Raise e => Raise e
              end
          | None => Return None
          end in
        match matched with
        | Raise e => {| written := []; logged := []; raised := Some e |}
        | Return matched =>
            run_then
              (write_tokens U matched 0
                 (combine (split SP in_text) (split SP expected_line)))
              {| written := [[LF]]; logged := []; raised := None |}
        end
  | _ => {| written := []; logged := []; raised := Some ValueError |}
  end.

(** [TsvParser.convert] over the lines of [in.tsv] and [expected.tsv]. *)
Fixpoint convert_lines (U : unicode)
    (fa_transcriptions_directory : option fa_directory)
    (lines : list (pystr * pystr)) : run :=
  match lines with
  | [] => {| written := []; logged := []; raised := None |}
  | (in_line, expected_line) :: rest =>
      run_then
        (convert_line U fa_transcriptions_directory in_line expected_line)
        (convert_lines U fa_transcriptions_directory rest)
  end.

Definition convert (U : unicode)
    (fa_transcriptions_directory : option fa_directory)
    (in_file expected_file : list pystr) : run :=
  convert_lines U fa_transcriptions_directory (combine in_file expected_file).

(** The test of [convert] on one pair of lines: the two texts split to
    different numbers of tokens. *)
Definition token_counts_differ (in_line expected_line : pystr) : bool :=
  match split TAB (strip in_line) with
  | [_; in_text] =>
      negb (len (split SP in_text) =? len (split SP (strip expected_line)))
  | _ => false
  end.

(** A transcript as [_parse_transcript] returns it: [(start, end, word)]
    records. Reading the file and parsing its numbers is left outside. *)
Definition transcript : Type := list (Z * Z * pystr).

(** The loop of [_calculate_breaks] over [enumerate(data[:-1])]. *)
Fixpoint calculate_breaks_loop (data : transcript) (i : Z)
    (items : transcript) (result : list (pystr * Z))
    : outcome (list (pystr * Z)) :=
  match items with
  | [] => Return result
  | (_start, end_, word) :: items' =>
      match index data (i + 1) with
      | Raise e => Raise e
      | Return (next_start, _, _) =>
          let break_ := next_start - end_ in
          calculate_breaks_loop data (i + 1) items'
            (result ++ [(word, break_)])
      end
  end.

(** [_calculate_breaks] on the parsed transcript. *)
Definition _calculate_breaks (data : transcript)
    : outcome (list (pystr * Z)) :=
  match calculate_breaks_loop data 0 (slice_to (-1) data) [] with
  | Raise e => Raise e
  | Return result =>
      match index data (-1) with
      | Raise e => Raise e
      | Return (_, _, word) => Return (result ++ [(word, 0)])
      end
  end.

(** The first loop of [_provide_breaks_for_expected]: the concatenated
    words and the pause at each word start. *)
Definition index_transcript (U : unicode)
    (words_and_breaks : list (pystr * Z)) : pystr * list (Z * Z) :=
  fold_left
    (fun '(times_text, times_indexes) '(word, break_) =>
       let times_indexes := dict_set times_indexes (len times_text) break_ in
       (times_text ++ lower U word, times_indexes))
    words_and_breaks ([], []).

(** One turn of its second loop, on [matched] and [index]. *)
Definition provide_break (U : unicode) (times_text : pystr)
    (times_indexes : list (Z * Z)) (state : list Z * Z) (word : pystr)
    : list Z * Z :=
  let '(matched, index) := state in
  let found_index := str_find times_text (lower U word) index in
  if found_index <? 0 then (matched ++ [-1], index)
  else
    match dict_get times_indexes found_index with
    | Some break_ => (matched ++ [break_], found_index)
    | None => (matched ++ [-1], index)
    end.

Definition _provide_breaks_for_expected (U : unicode)
    (words_and_breaks : list (pystr * Z)) (expected_text : list pystr)
    : list Z :=
  let '(times_text, times_indexes) := index_transcript U words_and_breaks in
  fst (fold_left (provide_break U times_text times_indexes)
                 expected_text ([], 0)).

(** The forced-alignment directory of [convert], from a reader of parsed
    transcripts: the two calls under [if self.fa_transcriptions_directory],
    with the pauses rendered as the f-string renders them. *)
Definition fa_of_transcripts (U : unicode)
    (read : pystr -> outcome transcript) : fa_directory :=
  fun wikipunct_text_id expected_text =>
    match read wikipunct_text_id with
    | Raise e => Raise e
    | Return data =>
        match _calculate_breaks data with
        | Raise e => Raise e
        | Return words_and_breaks =>
            let matched :=
              _provide_breaks_for_expected U words_and_breaks expected_text in
            Return (map str_of_int matched)
        end
    end.

(** The pauses of a transcript, record by record: up to the start of the
    next record, and 0 after the last. *)
Fixpoint pauses (data : transcript) : list (pystr * Z) :=
  match data with
  | [] => []
  | (_, end_, word) :: rest =>
      (word, match rest with
             | (next_start, _, _) :: _ => next_start - end_
             | [] => 0
             end) :: pauses rest
  end.

(** The test that [convert] makes before anything else on a line of
    [in.tsv]: it has an id and a text, with one tab between them. *)
Definition has_two_fields (in_line : pystr) : bool :=
  match split TAB (strip in_line) with
  | [_; _] => true
  | _ => false
  end.

(** The label of a pair of tokens, whatever is logged. *)
Definition label_of (in_token expected_token : pystr) : pystr :=
  match _determine_label in_token expected_token with
  | Return (label, _) => label
  | Raise _ => []
  end.

(** The line that [convert] writes for one pair of tokens when no
    forced-alignment directory is given. *)
Definition token_line (U : unicode) (tokens : pystr * pystr) : pystr :=
  let '(in_token, expected_token) := tokens in
  in_token ++ [TAB] ++ label_of in_token (lower U expected_token) ++ [LF].

(** The same with the pause that the transcript gives the token. *)
Definition token_line_fa (U : unicode) (tokens : pystr * pystr * pystr)
    : pystr :=
  let '(in_token, expected_token, pause) := tokens in
  in_token ++ [TAB] ++ label_of in_token (lower U expected_token)
    ++ [TAB] ++ pause ++ [LF].

(** The lines of one document in the output: a line per token and a blank
    line, and nothing at all where the numbers of tokens differ. *)
Definition document_block (U : unicode) (in_line expected_line : pystr)
    : list pystr :=
  match split TAB (strip in_line) with
  | [_; in_text] =>
      if token_counts_differ in_line expected_line then []
      else map (token_line U)
               (combine (split SP in_text) (split SP (strip expected_line)))
           ++ [[LF]]
  | _ => []
  end.

(** The transcript as [_provide_breaks_for_expected] searches it: the
    lower-case words from the [k]-th on, one after the other. *)
Definition transcript_text (U : unicode) (words_and_breaks : list (pystr * Z))
    (k : nat) : pystr :=
  concat (map (fun wb => lower U (fst wb)) (skipn k words_and_breaks)).

End tsv_parser.

Module parse_tsv.

(** The older duplicate: it returns the slice itself in the ellipsis case
    and prints the mismatch to stderr. *)
Definition _determine_label (in_token expected_token : pystr)
  : outcome (pystr * list log_record) :=
  if str_eqb in_token expected_token then
    Return (str "B", [])
  else if str_eqb in_token (slice_to (-1) expected_token) then
    match index expected_token (-1) with
    | Return c => Return ([c], [])
    | Raise e => Raise e
    end
  else if str_eqb in_token (slice_to (-3) expected_token)
          && str_eqb (slice_from (-3) expected_token) (str "...") then
    Return (slice_from (-3) expected_token, [])
  else
    Return (str "B", [LogError in_token expected_token]).

(** The loop of [_times_after_tokens] over [range(len(data))]. *)
Fixpoint times_after_tokens_loop (data : tsv_parser.transcript)
    (indices : list Z) (result : list (pystr * Z))
    : outcome (list (pystr * Z)) :=
  match indices with
  | [] => Return result
  | i :: indices' =>
      match index data i with
      | Raise e => Raise e
      | Return (start, end_, text) =>
          let przerwa :=
            if i + 1 <? len data then
              match index data (i + 1) with
              | Raise e => Raise e
              | Return (next_start, _, _) => Return (next_start - end_)
              end
            else Return 0 in
          match przerwa with
          | Raise e => Raise e
          | Return przerwa =>
              times_after_tokens_loop data indices'
                (result ++ [(text, przerwa)])
          end
      end
  end.

(** [_times_after_tokens] on the records that [_read_times_data] returns. *)
Definition _times_after_tokens (data : tsv_parser.transcript)
    : outcome (list (pystr * Z)) :=
  times_after_tokens_loop data (range (length data)) [].

(** One turn of the second loop of [_match_times]. *)
Definition match_time (U : unicode) (times_text : pystr)
    (times_indexes : list (Z * Z)) (state : list Z * Z) (token : pystr)
    : list Z * Z :=
  let '(matched, index) := state in
  let found_index := str_find times_text (lower U token) index in
  if found_index >=? 0 then
    match dict_get times_indexes found_index with
    | Some time => (matched ++ [time], found_index)
    | None => (matched ++ [-1], index)
    end
  else (matched ++ [-1], index).

Definition _match_times (U : unicode) (times : list (pystr * Z))
    (expected : list pystr) : list Z :=
  let '(times_text, times_indexes) :=
    fold_left
      (fun '(times_text, times_indexes) '(token, time) =>
         let times_indexes := dict_set times_indexes (len times_text) time in
         (times_text ++ lower U token, times_indexes))
      times ([], []) in
  fst (fold_left (match_time U times_text times_indexes) expected ([], 0)).

End parse_tsv.

(** The four cases of the label aligner, for either implementation [f]. *)
Definition determine_label_contract
    (f : pystr -> pystr -> outcome (pystr * list log_record)) : Prop :=
  forall in_token expected_token : pystr,
    (in_token = expected_token ->
       f in_token expected_token = Return (str "B", []))
    /\ (forall c, expected_token = in_token ++ [c] ->
       f in_token expected_token = Return ([c], []))
    /\ (expected_token = in_token ++ str "..." ->
       f in_token expected_token = Return (str "...", []))
    /\ (in_token <> expected_token ->
        (forall c, expected_token <> in_token ++ [c]) ->
        expected_token <> in_token ++ str "..." ->
       f in_token expected_token
         = Return (str "B", [LogError in_token expected_token])).

(* ================================================================== *)
(** * The [random] module *)
(* ================================================================== *)

(** The generator is not part of the repository. Its state is threaded
    explicitly; [seed] is [random.seed], [shuffle] is [random.shuffle]
    (the shuffled list replaces the argument) and [sample_positions g n k]
    are the positions [random.sample] draws for [k] items out of [n]. *)
Record random_module : Type := {
  rng_state : Type;
  seed : Z -> rng_state;
  shuffle : forall A : Type, rng_state -> list A -> list A * rng_state;
  sample_positions : rng_state -> nat -> nat -> list nat * rng_state
}.

(** What the proofs use of the generator: a shuffle permutes, and a sample
    draws [k] distinct positions below [n]. *)
Record random_sound (R : random_module) : Prop := {
  shuffle_permutes :
    forall (A : Type) (g : rng_state R) (l : list A),
      Permutation (fst (shuffle R A g l)) l;
  sample_length :
    forall g n k, (k <= n)%nat ->
      length (fst (sample_positions R g n k)) = k;
  sample_NoDup :
    forall g n k, NoDup (fst (sample_positions R g n k));
  sample_bound :
    forall g n k i, (k <= n)%nat ->
      In i (fst (sample_positions R g n k)) -> (i < n)%nat
}.

(** A stand-in generator for worked examples: its shuffle reverses and
    its sample draws the leading positions. *)
Definition reversing_random : random_module := {|
  rng_state := Z;
  seed := fun a => a;
  shuffle := fun A g l => (rev l, g + 1);
  sample_positions := fun g n k => (seq 0 k, g + 1)
|}.

(** [random.sample(population, k)]; it raises when [k] is negative or
    larger than the population. *)
Definition sample (R : random_module) {A : Type} (g : rng_state R)
    (population : list A) (k : Z) : outcome (list A * rng_state R) :=
  if (k <? 0) || (len population <? k) then Raise ValueError
  else
    let '(positions, g') :=
      sample_positions R g (length population) (Z.to_nat k) in
    Return (flat_map (fun i => match nth_error population i with
                               | Some x => [x]
                               | None => []
                               end) positions, g').

(* ================================================================== *)
(** * converters/json_converter.py *)
(* ================================================================== *)

Module json_converter.

Record WordData : Type := {
  punctuation : pystr;
  space_after : bool;
  word : pystr
}.

Record TextData : Type := {
  title : pystr;
  words : list WordData
}.

(** A JSON file of the corpus: the stem of its path and what
    [TextData.from_dict(json.load(...))] makes of it. *)
Record json_file : Type := {
  stem : pystr;
  content : TextData
}.

(** One turn of the loop of [_build_texts], on the three accumulators
    [text_in], [text_exp] and [text_intact]. *)
Definition _build_texts_step (U : unicode) (texts : pystr * pystr * pystr)
    (word_data : WordData) : pystr * pystr * pystr :=
  let '(text_in, text_exp, text_intact) := texts in
  let text_intact := text_intact ++ word word_data ++ punctuation word_data in
  let '(text_in, text_exp) :=
    if negb (match_non_alphanumeric U (word word_data)) then
      let text_in := text_in ++ word word_data in
      let text_exp := text_exp ++ word word_data in
      let text_exp :=
        if str_eqb (punctuation word_data) (str "-")
           && negb (space_after word_data)
        then text_exp ++ punctuation word_data
        else text_exp in
      (text_in, text_exp)
    else (text_in, text_exp) in
  let text_intact := text_intact ++ str " " in
  let '(text_in, text_exp) :=
    if space_after word_data || negb (str_eqb (punctuation word_data) [])
    then (text_in ++ str " ", text_exp ++ str " ")
    else (text_in, text_exp) in
  (text_in, text_exp, text_intact).

(** [_build_texts]: [(text_in, text_exp, text_intact)]. *)
Definition _build_texts (U : unicode) (text : TextData)
    : pystr * pystr * pystr :=
  fold_left (_build_texts_step U) (words text) ([], [], []).

Definition _normalize_text_in (U : unicode) (text : pystr) : pystr :=
  let text := lower U text in
  let text := sub_set_by_space (str ",!?.:;-") text in
  let text := sub_spaces text in
  strip text.

Definition _normalize_text_exp (U : unicode) (text : pystr) : pystr :=
  let text := lower U text in
  let text := sub_dots text in
  let text := sub_glued text in
  let text := sub_set_by_space (HELLIP :: str ",!?.:;-") text in
  let text := sub_spaces text in
  let text := sub_hellip text in
  strip text.

(** What [_normalize_text_exp] makes of a text before it restores the
    ellipses and strips, as the proofs see it: lower case, the class
    blanked, the spaces collapsed. *)
Definition blanked (U : unicode) (text : pystr) : pystr :=
  sub_spaces (sub_set_by_space normalized_away (lower U text)).

Definition _load_json (U : unicode) (path : json_file) : pystr * pystr :=
  let '(text_in, text_exp, text_intact) := _build_texts U (content path) in
  let text_in := _normalize_text_in U text_in in
  let text_exp := _normalize_text_exp U text_exp in
  (text_in, text_exp).

(** [_validate_equal_len]: what it prints to stderr. No method of the
    class calls it. *)
Definition _validate_equal_len (text_in text_exp : pystr) : list log_record :=
  let text_in_splitted := split SP text_in in
  let text_exp_splitted := split SP text_exp in
  if len text_in_splitted =? len text_exp_splitted then []
  else [StderrMismatch text_in_splitted text_exp_splitted].

(** [_write_output]: the strings written to [<name>_in.tsv] and to
    [<name>_expected.tsv], one of each for every path. *)
Definition _write_output (U : unicode) (paths : list json_file)
    : list pystr * list pystr :=
  fold_left
    (fun '(out_in, out_expected) path =>
       let '(json_in, json_expected) := _load_json U path in
       (out_in ++ [stem path ++ [TAB] ++ json_in ++ [LF]],
        out_expected ++ [json_expected ++ [LF]]))
    paths ([], []).

(** [_parse_wikipunct_text_ids] over the lines of a manifest. *)
Fixpoint _parse_wikipunct_text_ids (file : list pystr)
    : outcome (list pystr) :=
  match file with
  | [] => Return []
  | line :: rest =>
      match split TAB (strip line) with
      | [name; _] =>
          match _parse_wikipunct_text_ids rest with
          | Return names => Return (name :: names)
          | Raise e => Raise e
          end
      | _ => Raise ValueError
      end
  end.

(** [x in names] for a list of strings. *)
Definition contains (names : list pystr) (x : pystr) : bool :=
  existsb (str_eqb x) names.

(** [_sort_paths]: for every id of the manifest, in its order, the first
    path with that stem. *)
Definition _sort_paths (paths : list json_file)
    (wikipunct_text_ids : list pystr) : list json_file :=
  fold_left
    (fun sorted_paths wikipunct_text_id =>
       match find (fun path => str_eqb wikipunct_text_id (stem path)) paths
       with
       | Some path => sorted_paths ++ [path]
       | None => sorted_paths
       end)
    wikipunct_text_ids [].

(** The routing loop of [_get_json_paths] over the JSON files that the
    globs of the data directories yield, in that order. *)
Definition route (train_names test_names : list pystr)
    (json_paths : list json_file)
    : list json_file * list json_file * list json_file :=
  fold_left
    (fun '(train_paths, test_paths, rest_paths) json_path =>
       let wikipunct_text_id := stem json_path in
       if contains train_names wikipunct_text_id then
         (train_paths ++ [json_path], test_paths, rest_paths)
       else if contains test_names wikipunct_text_id then
         (train_paths, test_paths ++ [json_path], rest_paths)
       else
         (train_paths, test_paths, rest_paths ++ [json_path]))
    json_paths ([], [], []).

(** The three tests of the routing loop, for one candidate. *)
Definition in_train (train_names : list pystr) (p : json_file) : bool :=
  contains train_names (stem p).

Definition in_test (train_names test_names : list pystr) (p : json_file)
    : bool :=
  negb (contains train_names (stem p)) && contains test_names (stem p).

Definition in_rest (train_names test_names : list pystr) (p : json_file)
    : bool :=
  negb (contains train_names (stem p)) && negb (contains test_names (stem p)).

(** The inner loop of [_sort_paths] for one id. *)
Definition first_with_stem (paths : list json_file) (id : pystr)
    : list json_file :=
  match find (fun path => str_eqb id (stem path)) paths with
  | Some path => [path]
  | None => []
  end.

(** [_get_json_paths]: the manifests are given by their lines, the data
    directories by the files their globs yield; [g] is the state of the
    generator when the method is entered. *)
Definition _get_json_paths (R : random_module) (g : rng_state R)
    (train_file test_file : list pystr) (data_paths : list (list json_file))
    : outcome (list json_file * list json_file * list json_file
               * rng_state R) :=
  match _parse_wikipunct_text_ids train_file with
  | Raise e => Raise e
  | Return train_names =>
      match _parse_wikipunct_text_ids test_file with
      | Raise e => Raise e
      | Return test_names =>
          let '(train_paths, test_paths, rest_paths) :=
            route train_names test_names (concat data_paths) in
          let train_paths := _sort_paths train_paths train_names in
          let test_paths := _sort_paths test_paths test_names in
          let g := seed R 0 in
          let '(rest_paths, g) := shuffle R _ g rest_paths in
          Return (train_paths, test_paths, rest_paths, g)
      end
  end.

(** The files that [convert] leaves in [save_path]. *)
Record corpus_files : Type := {
  train_in : list pystr;
  train_expected : list pystr;
  test_in : list pystr;
  test_expected : list pystr;
  rest_in : list pystr;
  rest_expected : list pystr
}.

(** [convert] *)
Definition convert (U : unicode) (R : random_module) (g : rng_state R)
    (train_file test_file : list pystr) (data_paths : list (list json_file))
    : outcome (corpus_files * rng_state R) :=
  match _get_json_paths R g train_file test_file data_paths with
  | Raise e => Raise e
  | Return (train_paths, test_paths, rest_paths, g) =>
      let '(train_in, train_expected) := _write_output U train_paths in
      let '(test_in, test_expected) := _write_output U test_paths in
      let '(rest_in, rest_expected) := _write_output U rest_paths in
      Return ({| train_in := train_in; train_expected := train_expected;
                 test_in := test_in; test_expected := test_expected;
                 rest_in := rest_in; rest_expected := rest_expected |}, g)
  end.

(** The lines of one document in [<name>_in.tsv] and in
    [<name>_expected.tsv]. *)
Definition in_line (U : unicode) (path : json_file) : pystr :=
  stem path ++ [TAB] ++ fst (_load_json U path) ++ [LF].

Definition expected_line (U : unicode) (path : json_file) : pystr :=
  snd (_load_json U path) ++ [LF].


End json_converter.

(* ================================================================== *)
(** * parsers/parse_json2.py *)
(* ================================================================== *)

Module parse_json2.

Import json_converter.

(** One turn of the loop of [_load_json], on [text], [text_in] and
    [text_exp]; a token of [data["words"]] is read as a [WordData]. *)
Definition _load_json_step (U : unicode) (texts : pystr * pystr * pystr)
    (token : WordData) : pystr * pystr * pystr :=
  let '(text, text_in, text_exp) := texts in
  let text := text ++ word token ++ punctuation token in
  let '(text_in, text_exp) :=
    if negb (match_non_alphanumeric U (word token)) then
      let text_in := text_in ++ word token in
      let text_exp :=
        if str_eqb (punctuation token) (str "-") && negb (space_after token)
        then text_exp ++ word token
        else text_exp ++ word token ++ punctuation token in
      (text_in, text_exp)
    else (text_in, text_exp) in
  let text_in :=
    if space_after token || negb (str_eqb (punctuation token) [])
    then text_in ++ str " " else text_in in
  let text_exp :=
    if space_after token || negb (str_eqb (punctuation token) [])
    then text_exp ++ str " " else text_exp in
  let text := text ++ str " " in
  (text, text_in, text_exp).

(** [JsonToConllConverter._load_json]: the two texts and what the failed
    assertion prints to stderr. *)
Definition _load_json (U : unicode) (data : TextData)
    : pystr * pystr * list log_record :=
  let '(text, text_in, text_exp) :=
    fold_left (_load_json_step U) (words data) ([], [], []) in
  let text_in := sub_set_by_space (str ",!?.:;-") (lower U text_in) in
  let text_in := sub_spaces text_in in
  let text_exp := lower U text_exp in
  let text_exp := sub_dots text_exp in
  let text_exp := sub_glued text_exp in
  let text_exp := sub_set_by_space (HELLIP :: str ",!?.:;-") text_exp in
  let text_exp := sub_spaces text_exp in
  let text_exp := sub_hellip text_exp in
  let printed :=
    if len (split SP (strip text_in)) =? len (split SP (strip text_exp))
    then []
    else [StderrMismatch (split SP (strip text_in))
                         (split SP (strip text_exp))] in
  (strip text_in, strip text_exp, printed).

(** [JsonToConllConverter._sort_paths]: the paths are strings here, and
    a path goes with a name that occurs anywhere in it. *)
Definition _sort_paths (paths : list pystr) (names : list pystr)
    : list pystr :=
  fold_left
    (fun sorted_paths name =>
       match find (fun path => str_contains path name) paths with
       | Some path => sorted_paths ++ [path]
       | None => sorted_paths
       end)
    names [].

End parse_json2.

(* ================================================================== *)
(** * Data frames *)
(* ================================================================== *)

Module DataFrame.

(** A row of the tabular dataset; [K] is the type of the sentence ids. *)
Record row (K : Type) : Type := {
  words : pystr;
  labels : pystr;
  times : pystr;
  sentence_id : K
}.
Arguments words {K} r.
Arguments labels {K} r.
Arguments times {K} r.
Arguments sentence_id {K} r.

(** [series.unique()]: the values in order of first appearance. *)
Fixpoint unique (l : list Z) : list Z :=
  match l with
  | [] => []
  | x :: rest => x :: filter (fun y => negb (y =? x)) (unique rest)
  end.

(** [series.isin(values)] for one value. *)
Definition isin (values : list Z) (x : Z) : bool := existsb (Z.eqb x) values.

Fixpoint insert_key (k : Z) (keys : list Z) : list Z :=
  match keys with
  | [] => [k]
  | x :: rest =>
      if k <? x then k :: keys
      else if k =? x then keys
      else x :: insert_key k rest
  end.

(** [data.groupby("sentence_id")]: the groups by ascending key, each with
    its rows in their original order. *)
Definition groupby (data : list (row Z)) : list (Z * list (row Z)) :=
  map (fun k => (k, filter (fun r => sentence_id r =? k) data))
      (fold_right insert_key [] (map sentence_id data)).

End DataFrame.

Definition sum (l : list Z) : Z := fold_left Z.add l 0.

(** A loop whose body may raise: the exception ends it. *)
Fixpoint fold_outcome {A B : Type} (f : A -> B -> outcome A) (l : list B)
    (a : A) : outcome A :=
  match l with
  | [] => Return a
  | x :: l' =>
      match f a x with
      | Raise e => Raise e
      | Return a' => fold_outcome f l' a'
      end
  end.

(* ================================================================== *)
(** * Python floats *)
(* ================================================================== *)

(** A [float] is a binary64 number: 53 bits of precision, and the
    exponent of the infinities is 1024. *)
Definition prec : Z := 53.
Definition emax : Z := 1024.
Definition float : Type := spec_float.

(** The conversion of an [int] operand of a mixed product: the nearest
    float, a tie going to the even one; it raises beyond the floats. *)
Definition float_of_int (n : Z) : outcome float :=
  match binary_normalize prec emax n 0 false with
  | S754_infinity _ => Raise OverflowError
  | x => Return x
  end.

(** [x * y] on two floats, rounded to the nearest, ties to even. *)
Definition float_mul (x y : float) : float := SFmul prec emax x y.

(** [int(x)] truncates towards zero; it raises on the infinities and on
    NaN. *)
Definition int_of_float (x : float) : outcome Z :=
  match x with
  | S754_zero _ => Return 0
  | S754_finite s m e =>
      let magnitude :=
        if 0 <=? e then Zpos m * 2 ^ e else Zpos m / 2 ^ (- e) in
      Return (if s then - magnitude else magnitude)
  | S754_infinity _ => Raise OverflowError
  | S754_nan => Raise ValueError
  end.

(** The literals [1.0], [0.5], [0.0], [0.7] and [0.58]. *)
Definition float_1_0 : float := S754_finite false 4503599627370496 (-52).
Definition float_0_5 : float := S754_finite false 4503599627370496 (-53).
Definition float_0_0 : float := S754_zero false.
Definition float_0_7 : float := S754_finite false 6305039478318694 (-53).
Definition float_0_58 : float := S754_finite false 5224175567749775 (-53).

(** A float between [0.0] and [1.0], as the comparisons of Python see
    it. *)
Definition in_unit_interval (x : float) : bool :=
  valid_binary prec emax x
  && SFleb (S754_zero false) x && SFleb x float_1_0.

(** A shifted mantissa that lost no bit, for the proofs. *)
Definition shr_exact (mrs : shr_record) : Prop :=
  shr_r mrs = false /\ shr_s mrs = false.

(** [round(x)] rounds to the nearest integer, a half to the even one. *)
Definition py_round (x : Q) : Z :=
  let f := Qfloor x in
  match ((x - inject_Z f) * 2 ?= 1)%Q with
  | Lt => f
  | Gt => f + 1
  | Eq => if Z.even f then f else f + 1
  end.

(* ================================================================== *)
(** * split_long_examples.py *)
(* ================================================================== *)

Module split_long_examples.

Import DataFrame.

(** The accumulators of one sentence. *)
Record window : Type := {
  words_with_labels : list (pystr * pystr * pystr);
  words_in_example : Z;
  tokenized_len : Z;
  token_lens : list Z;
  chunk_id : Z
}.

Section DataSplitter.

(** The tokenizer is external; the stride is a float. *)
Variable tokenize : pystr -> list pystr.
Variable max_seq_len : Z.
Variable stride : float.

(** [(w, l, s, f"{sentence_id}_{chunk_id}")]: the new sentence id is kept
    as the two numbers that the f-string joins. *)
Definition tagged (sentence_id chunk_id : Z) (wls : pystr * pystr * pystr)
    : row (Z * Z) :=
  let '(w, l, s) := wls in
  {| words := w; labels := l; times := s;
     sentence_id := (sentence_id, chunk_id) |}.

(** [int(words_in_example * self.stride)]: the [int] is made a float,
    the product is the binary64 product, and [int] truncates it. *)
Definition offset_of (words_in_example : Z) : outcome Z :=
  match float_of_int words_in_example with
  | Raise e => Raise e
  | Return x => int_of_float (float_mul x stride)
  end.

(** One turn of the inner loop. *)
Definition step (sentence_id : Z) (state : list (row (Z * Z)) * window)
    (r : row Z) : outcome (list (row (Z * Z)) * window) :=
  let '(splitted_data, w) := state in
  let tokenized_word := tokenize (words r) in
  let flushed :=
    if tokenized_len w + len tokenized_word >=? max_seq_len - 1 then
      let splitted_data :=
        splitted_data
        ++ map (tagged sentence_id (chunk_id w)) (words_with_labels w) in
      let chunk_id := chunk_id w + 1 in
      match offset_of (words_in_example w) with
      | Raise e => Raise e
      | Return offset =>
          Return
            (splitted_data,
             {| words_with_labels := slice_from offset (words_with_labels w);
                tokenized_len :=
                  tokenized_len w - sum (slice_to offset (token_lens w));
                token_lens := slice_from offset (token_lens w);
                words_in_example := words_in_example w - offset;
                chunk_id := chunk_id |})
      end
    else Return (splitted_data, w) in
  match flushed with
  | Raise e => Raise e
  | Return (splitted_data, w) =>
      Return
        (splitted_data,
         {| token_lens := token_lens w ++ [len tokenized_word];
            tokenized_len := tokenized_len w + len tokenized_word;
            words_with_labels :=
              words_with_labels w ++ [(words r, labels r, times r)];
            words_in_example := words_in_example w + 1;
            chunk_id := chunk_id w |})
  end.

(** The body of the outer loop for one group. *)
Definition split_example (splitted_data : list (row (Z * Z)))
    (group : Z * list (row Z)) : outcome (list (row (Z * Z))) :=
  let '(sentence_id, example) := group in
  match
    fold_outcome (step sentence_id) example
      (splitted_data,
       {| words_with_labels := []; words_in_example := 0;
          tokenized_len := 0; token_lens := []; chunk_id := 0 |})
  with
  | Raise e => Raise e
  | Return (splitted_data, w) =>
      Return
        (if tokenized_len w >=? 0 then
           splitted_data
           ++ map (tagged sentence_id (chunk_id w)) (words_with_labels w)
         else splitted_data)
  end.

Definition _split_long_examples (data : list (row Z))
    : outcome (list (row (Z * Z))) :=
  fold_outcome split_example (groupby data) [].

(** The same loop read as a recursion on the rows still to come, for the
    proofs: the windows flushed from [current] on, the trailing one last,
    for a function [offset] that gives the offset of a window of each
    size. [split_long_examples_chunked] shows that the loop emits these
    where [offset] is [offset_of]. *)
Definition subwords (wls : pystr * pystr * pystr) : Z :=
  len (tokenize (fst (fst wls))).

Variable offset : Z -> Z.

Fixpoint windows_from (current rest : list (pystr * pystr * pystr))
    : list (list (pystr * pystr * pystr)) :=
  match rest with
  | [] => [current]
  | x :: rest' =>
      if sum (map subwords current) + subwords x >=? max_seq_len - 1 then
        current
        :: windows_from (slice_from (offset (len current)) current ++ [x])
             rest'
      else windows_from (current ++ [x]) rest'
  end.

(** The counters of the loop describe the window they go with. *)
Definition coherent (w : window) : Prop :=
  words_in_example w = len (words_with_labels w)
  /\ token_lens w = map subwords (words_with_labels w)
  /\ tokenized_len w = sum (token_lens w).

End DataSplitter.

(** The rows of the windows [ws], numbered from [chunk_id] on. *)
Fixpoint tag_windows (sentence_id chunk_id : Z)
    (ws : list (list (pystr * pystr * pystr))) : list (row (Z * Z)) :=
  match ws with
  | [] => []
  | w :: ws' =>
      map (tagged sentence_id chunk_id) w
      ++ tag_windows sentence_id (chunk_id + 1) ws'
  end.

Definition untagged {K : Type} (r : row K) : pystr * pystr * pystr :=
  (words r, labels r, times r).

(** What the loop emits where [offset] gives the offsets: the windows of
    each group in the order of the groups, tagged. *)
Definition chunked (tokenize : pystr -> list pystr) (max_seq_len : Z)
    (offset : Z -> Z) (data : list (row Z)) : list (row (Z * Z)) :=
  flat_map
    (fun group =>
       tag_windows (fst group) 0
         (windows_from tokenize max_seq_len offset []
            (map untagged (snd group))))
    (groupby data).

(** The rows of one chunk in the output, without their chunk tag. *)
Definition chunk (splitted_data : list (row (Z * Z)))
    (sentence_id chunk_id : Z) : list (pystr * pystr * pystr) :=
  map untagged
      (filter (fun r => (fst (DataFrame.sentence_id r) =? sentence_id)
                        && (snd (DataFrame.sentence_id r) =? chunk_id))
              splitted_data).

(** The rows of one sentence of the input. *)
Definition sentence (data : list (row Z)) (sentence_id : Z)
    : list (pystr * pystr * pystr) :=
  map untagged
      (filter (fun r => DataFrame.sentence_id r =? sentence_id) data).

End split_long_examples.

(* ================================================================== *)
(** * converters/pandas_converter.py *)
(* ================================================================== *)

Module pandas_converter.

Import DataFrame.

Definition SEED : Z := 1353.
Definition TRAIN_TO_TEST_DEV_RATIO : Q := 8 # 10.
Definition DEV_TO_TEST_RATIO : Q := 5 # 10.

Section DataFrameSplitter.

Variable R : random_module.

(** [_split_dataframe]; the float [train_prop] is taken as the rational it
    denotes. *)
Definition _split_dataframe (g : rng_state R) (data : list (row Z))
    (train_prop : Q)
    : outcome (list (row Z) * list (row Z) * rng_state R) :=
  let sentence_ids := unique (map sentence_id data) in
  let train_count := py_round (inject_Z (len sentence_ids) * train_prop) in
  match sample R g sentence_ids train_count with
  | Raise e => Raise e
  | Return (train_ids, g) =>
      let train_data :=
        filter (fun r => isin train_ids (sentence_id r)) data in
      let test_data :=
        filter (fun r => negb (isin train_ids (sentence_id r))) data in
      Return (train_data, test_data, g)
  end.

(** [__init__] seeds the generator, whatever its state was. *)
Definition __init__ (g : rng_state R) : rng_state R := seed R SEED.

(** [run] with [split_to_files] set, from the frame that [_process_file]
    returns: the train, dev and test frames handed to [_save_to_file].
    A file without rows gives a frame without columns, on which the first
    split fails at [data.sentence_id]; the frames here have their four
    columns, so [run] is this function on a frame of at least one row. *)
Definition run (g : rng_state R) (df : list (row Z))
    : outcome (list (row Z) * list (row Z) * list (row Z) * rng_state R) :=
  match _split_dataframe g df TRAIN_TO_TEST_DEV_RATIO with
  | Raise e => Raise e
  | Return (train_data, dev_test_data, g) =>
      match _split_dataframe g dev_test_data DEV_TO_TEST_RATIO with
      | Raise e => Raise e
      | Return (dev_data, test_data, g) =>
          Return (train_data, dev_data, test_data, g)
      end
  end.

End DataFrameSplitter.

(** The sentence ids of a frame. *)
Definition sentence_ids (data : list (row Z)) : list Z :=
  unique (map sentence_id data).

(** [l[-1].append(x)] on a list of lists. *)
Definition append_to_last {A : Type} (l : list (list A)) (x : A)
    : outcome (list (list A)) :=
  match index l (-1) with
  | Raise e => Raise e
  | Return last => Return (slice_to (-1) l ++ [last ++ [x]])
  end.

Module TsvFileData.

Record t : Type := {
  words : list (list pystr);
  tags : list (list pystr);
  spaces_after : list (list pystr)
}.

(** The default factories of the three fields. *)
Definition new : t := {| words := [[]]; tags := [[]]; spaces_after := [[]] |}.

Definition append (self : t) (word tag space : pystr) : outcome t :=
  match append_to_last (words self) word with
  | Raise e => Raise e
  | Return words' =>
      match append_to_last (tags self) tag with
      | Raise e => Raise e
      | Return tags' =>
          match append_to_last (spaces_after self) space with
          | Raise e => Raise e
          | Return spaces_after' =>
              Return {| words := words'; tags := tags';
                        spaces_after := spaces_after' |}
          end
      end
  end.

Definition append_next_lists (self : t) : t :=
  {| words := words self ++ [[]];
     tags := tags self ++ [[]];
     spaces_after := spaces_after self ++ [[]] |}.

(** The rows of [to_data_frame], sentence by sentence from [id_]. *)
Fixpoint rows_from (id_ : Z)
    (sentences : list (list pystr * (list pystr * list pystr)))
    : list (row Z) :=
  match sentences with
  | [] => []
  | (words, (tags, spaces_after)) :: rest =>
      map (fun '(word, (tag, space_after)) =>
             {| DataFrame.words := word; labels := tag;
                times := space_after; sentence_id := id_ |})
          (combine words (combine tags spaces_after))
      ++ rows_from (id_ + 1) rest
  end.

Definition to_data_frame (self : t) : list (row Z) :=
  rows_from 0
    (combine (words self) (combine (tags self) (spaces_after self))).

End TsvFileData.

Definition DOCSTART : pystr := str "-DOCSTART-".

(** [_read_line] on [self.data]. *)
Definition _read_line (data : TsvFileData.t) (line : pystr)
    : outcome TsvFileData.t :=
  if startswith DOCSTART line then Return data
  else
    let stripped_line := strip line in
    match stripped_line with
    | [] => Return (TsvFileData.append_next_lists data)
    | _ :: _ =>
        match split TAB stripped_line with
        | [word; tag; space] => TsvFileData.append data word tag space
        | [word; tag] => TsvFileData.append data word tag (str " ")
        | _ => Raise ValueError
        end
    end.

(** The loop of [_process_file] over the lines of the file. *)
Fixpoint read_lines (data : TsvFileData.t) (lines : list pystr)
    : outcome TsvFileData.t :=
  match lines with
  | [] => Return data
  | line :: rest =>
      match _read_line data line with
      | Raise e => Raise e
      | Return data => read_lines data rest
      end
  end.

(** [_process_file] from the state that [__init__] leaves in [self.data],
    on the lines of the file. *)
Definition _process_file (data : TsvFileData.t) (lines : list pystr)
    : outcome (list (row Z)) :=
  match read_lines data lines with
  | Raise e => Raise e
  | Return data =>
      match index (TsvFileData.words data) (-1) with
      | Raise e => Raise e
      | Return last =>
          let data :=
            match last with
            | [] =>
                {| TsvFileData.words := slice_to (-1) (TsvFileData.words data);
                   TsvFileData.tags := slice_to (-1) (TsvFileData.tags data);
                   TsvFileData.spaces_after :=
                     slice_to (-1) (TsvFileData.spaces_after data) |}
            | _ :: _ => data
            end in
          Return (TsvFileData.to_data_frame data)
      end
  end.

(** What a line of the file is to [_read_line]. *)
Inductive line_kind : Type :=
| Skipped
| Blank
| Token (word tag space : pystr)
| Malformed.

Definition classify (line : pystr) : line_kind :=
  if startswith DOCSTART line then Skipped
  else match strip line with
       | [] => Blank
       | _ :: _ =>
           match split TAB (strip line) with
           | [word; tag; space] => Token word tag space
           | [word; tag] => Token word tag (str " ")
           | _ => Malformed
           end
       end.

(** The rows of a file read line by line: a token line gives one row of
    the sentence numbered by the blank lines seen so far. *)
Fixpoint conll_rows (id_ : Z) (lines : list pystr)
    : outcome (list (row Z)) :=
  match lines with
  | [] => Return []
  | line :: rest =>
      match classify line with
      | Skipped => conll_rows id_ rest
      | Blank => conll_rows (id_ + 1) rest
      | Malformed => Raise ValueError
      | Token word tag space =>
          match conll_rows id_ rest with
          | Raise e => Raise e
          | Return rows =>
              Return ({| DataFrame.words := word; labels := tag;
                         times := space; sentence_id := id_ |} :: rows)
          end
      end
  end.

(** The state of [self.data] that holds the given sentences, each a list
    of [(word, tag, space)] triples. *)
Definition holding (sentences : list (list (pystr * pystr * pystr)))
    : TsvFileData.t :=
  {| TsvFileData.words := map (map (fun x => fst (fst x))) sentences;
     TsvFileData.tags := map (map (fun x => snd (fst x))) sentences;
     TsvFileData.spaces_after := map (map (fun x => snd x)) sentences |}.

(** The rows of the sentences numbered from [id_]. *)
Fixpoint sentence_rows (id_ : Z)
    (sentences : list (list (pystr * pystr * pystr))) : list (row Z) :=
  match sentences with
  | [] => []
  | sentence :: rest =>
      map (fun x => {| DataFrame.words := fst (fst x); labels := snd (fst x);
                       times := snd x; sentence_id := id_ |}) sentence
      ++ sentence_rows (id_ + 1) rest
  end.

Definition is_malformed (line : pystr) : bool :=
  match classify line with
  | Malformed => true
  | _ => false
  end.

End pandas_converter.

(* ================================================================== *)
(** * train_ner_punctuation.py *)
(* ================================================================== *)

Module train_ner_punctuation.

Import DataFrame.

Section NERTrainer.

(** The sentence ids of the training files, with their equality. *)
Variable K : Type.
Variable K_eq_dec : forall x y : K, {x = y} + {x <> y}.

Definition self_labels : list pystr := Label_list.

(** [labels.isin(self.labels)] for one row. *)
Definition label_isin (r : row K) : bool :=
  existsb (str_eqb (labels r)) self_labels.

(** [sentence_id.isin(sentences_to_delete)] for one row. *)
Definition sentence_isin (sentences_to_delete : list K) (r : row K) : bool :=
  existsb (fun k => if K_eq_dec (sentence_id r) k then true else false)
          sentences_to_delete.

(** The two statements that [load_data] applies to each of its frames. *)
Definition drop_invalid_sentences (data : list (row K)) : list (row K) :=
  let sentences_to_delete :=
    map sentence_id (filter (fun r => negb (label_isin r)) data) in
  filter (fun r => negb (sentence_isin sentences_to_delete r)) data.

Definition load_data (train_data eval_data : list (row K))
    : list (row K) * list (row K) :=
  (drop_invalid_sentences train_data, drop_invalid_sentences eval_data).

(** Every row of the sentence of [r] in [data] has a label of the
    alphabet. *)
Definition sentence_valid (data : list (row K)) (r : row K) : bool :=
  forallb (fun r' => if K_eq_dec (sentence_id r') (sentence_id r)
                     then label_isin r' else true) data.

End NERTrainer.

End train_ner_punctuation.

(* ================================================================== *)
(** * From the aligner to the splitter *)
(* ================================================================== *)

(** A field that survives a round through the file of tokens: it is not
    empty and has no white space in it, so no tab either. *)
Definition plain (field : pystr) : bool :=
  match field with
  | [] => false
  | _ :: _ => forallb (fun c => negb (isspace c)) field
  end.

(** A pair of tokens whose line reads back as it was written. *)
Definition plain_tokens (U : unicode) (tokens : pystr * pystr) : bool :=
  let '(in_token, expected_token) := tokens in
  plain in_token
  && negb (startswith pandas_converter.DOCSTART in_token)
  && plain (tsv_parser.label_of in_token (lower U expected_token)).

(** The same for every pair of tokens of a pair of lines that [convert]
    does not skip. *)
Definition plain_lines (U : unicode) (lines : pystr * pystr) : bool :=
  match split TAB (strip (fst lines)) with
  | [_; in_text] =>
      tsv_parser.token_counts_differ (fst lines) (snd lines)
      || forallb (plain_tokens U)
           (combine (split SP in_text) (split SP (strip (snd lines))))
  | _ => false
  end.

(** The rows of the documents that [TsvParser.convert] writes, numbered
    from [id_] in the order of the files, the skipped ones left out. *)
Fixpoint document_rows (U : unicode) (id_ : Z) (lines : list (pystr * pystr))
    : list (DataFrame.row Z) :=
  match lines with
  | [] => []
  | (in_line, expected_line) :: rest =>
      match split TAB (strip in_line) with
      | [_; in_text] =>
          if tsv_parser.token_counts_differ in_line expected_line
          then document_rows U id_ rest
          else
            map (fun '(in_token, expected_token) =>
                   {| DataFrame.words := in_token;
                      DataFrame.labels :=
                        tsv_parser.label_of in_token (lower U expected_token);
                      DataFrame.times := str " ";
                      DataFrame.sentence_id := id_ |})
                (combine (split SP in_text) (split SP (strip expected_line)))
            ++ document_rows U (id_ + 1) rest
      | _ => []
      end
  end.

(** A text with something other than white space at both ends, as
    [strip] leaves it unless nothing is left. *)
Definition trimmed (text : pystr) : bool :=
  match text with
  | [] => false
  | c :: _ => negb (isspace c) && negb (isspace (last text c))
  end.

(** No two spaces in a row, as after [re.sub(r" +", " ", text)]. *)
Fixpoint single_spaced (text : pystr) : bool :=
  match text with
  | c :: rest =>
      match rest with
      | d :: _ => negb (N.eqb c SP && N.eqb d SP)
      | [] => true
      end && single_spaced rest
  | [] => true
  end.

(** A document whose line in [<name>_in.tsv] reads back as one line of
    two fields: the stem is plain, and the input text is not empty and
    has no tab, line feed or carriage return in it. *)
Definition writable (U : unicode) (path : json_converter.json_file) : bool :=
  plain (json_converter.stem path)
  && match fst (json_converter._load_json U path) with
     | [] => false
     | _ :: _ =>
         forallb (fun c => negb (char_in [TAB; LF; 13%N] c))
                 (fst (json_converter._load_json U path))
     end.

(* ================================================================== *)
(** * Worked examples *)
(* ================================================================== *)

(** A document whose only word has U+2026 in its middle. *)
Definition hellip_document : json_converter.json_file :=
  {| json_converter.stem := str "wikinews1";
     json_converter.content :=
       {| json_converter.title := str "t";
          json_converter.words :=
            [ {| json_converter.punctuation := [];
                 json_converter.space_after := false;
                 json_converter.word := str "a" ++ [HELLIP] ++ str "b" |} ]
       |} |}.

(** The document of the end-to-end example of the spec. *)
Definition dog_document : json_converter.TextData :=
  {| json_converter.title := str "t";
     json_converter.words :=
       [ {| json_converter.punctuation := [];
            json_converter.space_after := true;
            json_converter.word := str "dog" |};
         {| json_converter.punctuation := str ".";
            json_converter.space_after := false;
            json_converter.word := str "runs" |};
         {| json_converter.punctuation := [];
            json_converter.space_after := false;
            json_converter.word := str "Home" |} ] |}.

(** A document whose only word is followed by a closing parenthesis. *)
Definition parenthesis_document : json_converter.TextData :=
  {| json_converter.title := str "t";
     json_converter.words :=
       [ {| json_converter.punctuation := str ")";
            json_converter.space_after := true;
            json_converter.word := str "dog" |} ] |}.

(** Ten words of sentence 7, each of one subword. *)
Definition ten_words : list (DataFrame.row Z) :=
  map (fun c : char =>
         {| DataFrame.words := [c]; DataFrame.labels := str "B";
            DataFrame.times := str "0"; DataFrame.sentence_id := 7 |})
      (str "abcdefghij").

(** A tokenizer that leaves every word whole. *)
Definition one_subword (word : pystr) : list pystr := [word].

(** A JSON file of the given stem. *)
Definition json_named (name : string) : json_converter.json_file :=
  {| json_converter.stem := str name;
     json_converter.content :=
       {| json_converter.title := str name; json_converter.words := [] |} |}.

(** A row of the given sentence. *)
Definition row_of_sentence (k : Z) : DataFrame.row Z :=
  {| DataFrame.words := str "w"; DataFrame.labels := str "B";
     DataFrame.times := str "0"; DataFrame.sentence_id := k |}.

(* ================================================================== *)
(** * Facts about Python strings *)
(* ================================================================== *)

Lemma str_eqb_spec (a b : pystr) : reflect (a = b) (str_eqb a b).
Proof.
  revert b; induction a as [|x a IH]; intros [|y b]; simpl;
    try (constructor; congruence).
  destruct (N.eqb_spec x y) as [->|Hxy]; simpl.
  - destruct (IH b) as [->|Hab]; constructor; congruence.
  - constructor; congruence.
Qed.

Lemma str_eqb_refl (a : pystr) : str_eqb a a = true.
Proof. destruct (str_eqb_spec a a); congruence. Qed.

Lemma len_app {A} (l1 l2 : list A) : len (l1 ++ l2) = len l1 + len l2.
Proof. unfold len; rewrite length_app; lia. Qed.

Lemma len_nonneg {A} (l : list A) : 0 <= len l.
Proof. unfold len; lia. Qed.

(** Dropping the last [- k] items of [t ++ s] when [s] has that many. *)
Lemma slice_to_neg_app {A} (t s : list A) (k : Z) :
  k < 0 -> len s = - k -> slice_to k (t ++ s) = t.
Proof.
  intros Hk Hs; unfold slice_to, slice_bound.
  destruct (Z.ltb_spec k 0); [|lia].
  rewrite len_app, Hs.
  replace (Z.to_nat (Z.max 0 (len t + - k + k))) with (length t)
    by (unfold len; lia).
  rewrite firstn_app, firstn_all, Nat.sub_diag; simpl.
  apply app_nil_r.
Qed.

Lemma slice_from_neg_app {A} (t s : list A) (k : Z) :
  k < 0 -> len s = - k -> slice_from k (t ++ s) = s.
Proof.
  intros Hk Hs; unfold slice_from, slice_bound.
  destruct (Z.ltb_spec k 0); [|lia].
  rewrite len_app, Hs.
  replace (Z.to_nat (Z.max 0 (len t + - k + k))) with (length t)
    by (unfold len; lia).
  rewrite skipn_app, skipn_all, Nat.sub_diag; simpl.
  reflexivity.
Qed.

(** A string is its slice [[:-k]] followed by its slice [[-k:]]. *)
Lemma slice_to_from {A} (k : Z) (l : list A) :
  slice_to k l ++ slice_from k l = l.
Proof. apply firstn_skipn. Qed.

Lemma len_slice_from_neg {A} (k : Z) (l : list A) :
  k < 0 -> len (slice_from k l) = Z.min (- k) (len l).
Proof.
  intros Hk; unfold slice_from, slice_bound.
  destruct (Z.ltb_spec k 0); [|lia].
  unfold len; rewrite length_skipn; unfold len; lia.
Qed.

Lemma index_last_app {A} (t : list A) (c : A) :
  index (t ++ [c]) (-1) = Return c.
Proof.
  unfold index.
  assert (Hl : len (t ++ [c]) + -1 = len t)
    by (rewrite len_app; change (len [c]) with 1; lia).
  change (-1 <? 0) with true; cbv iota; rewrite Hl.
  pose proof (len_nonneg t).
  destruct (Z.ltb_spec (len t) 0); [lia|].
  destruct (Z.leb_spec (len (t ++ [c])) (len t)); [lia|].
  cbv [orb]; unfold len; rewrite Nat2Z.id.
  rewrite nth_error_app2, Nat.sub_diag by lia.
  reflexivity.
Qed.

(** When [in_token] is [expected_token[:-1]] and the two differ, the
    expected token is the input token followed by one character. *)
Lemma slice_to_1_inv (t e : pystr) :
  t = slice_to (-1) e -> t <> e -> exists c, e = t ++ [c].
Proof.
  intros Ht Hne.
  pose proof (slice_to_from (-1) e) as He.
  pose proof (len_slice_from_neg (-1) e ltac:(lia)) as Hl.
  simpl in Hl. rewrite <- Ht in He.
  destruct (slice_from (-1) e) as [|c [|d r]] eqn:Hs.
  - rewrite app_nil_r in He; congruence.
  - exists c; congruence.
  - unfold len in Hl; simpl in Hl; lia.
Qed.

Lemma app_neq_self {A} (t s : list A) : s <> [] -> t <> t ++ s.
Proof.
  intros Hs Heq; apply (f_equal (@length A)) in Heq.
  rewrite length_app in Heq; destruct s; [congruence|simpl in Heq; lia].
Qed.

Lemma str_eqb_app_false (t s : pystr) : s <> [] -> str_eqb t (t ++ s) = false.
Proof.
  intros Hs; destruct (str_eqb_spec t (t ++ s)) as [Heq|]; [|reflexivity].
  exfalso; revert Heq; apply app_neq_self, Hs.
Qed.

(* ================================================================== *)
(** * Label determination *)
(* ================================================================== *)

Section DetermineLabel.

Variables in_token expected_token : pystr.

Lemma determine_label_equal :
  in_token = expected_token ->
  tsv_parser._determine_label in_token expected_token = Return (str "B", []).
Proof.
  intros ->; unfold tsv_parser._determine_label.
  now rewrite str_eqb_refl.
Qed.

Lemma determine_label_trailing (c : char) :
  expected_token = in_token ++ [c] ->
  tsv_parser._determine_label in_token expected_token = Return ([c], []).
Proof.
  intros ->; unfold tsv_parser._determine_label.
  rewrite str_eqb_app_false by discriminate.
  rewrite (slice_to_neg_app in_token [c] (-1)) by (reflexivity || lia).
  now rewrite str_eqb_refl, index_last_app.
Qed.

Lemma determine_label_ellipsis :
  expected_token = in_token ++ str "..." ->
  tsv_parser._determine_label in_token expected_token
    = Return (str "...", []).
Proof.
  intros ->; unfold tsv_parser._determine_label.
  rewrite str_eqb_app_false by discriminate.
  replace (slice_to (-1) (in_token ++ str "..."))
    with (in_token ++ str "..").
  2:{ change (in_token ++ str "...") with (in_token ++ str ".." ++ str ".").
      rewrite app_assoc.
      now rewrite (slice_to_neg_app _ (str ".") (-1)) by (reflexivity || lia). }
  rewrite str_eqb_app_false by discriminate.
  rewrite (slice_to_neg_app in_token (str "...") (-3)) by (reflexivity || lia).
  rewrite (slice_from_neg_app in_token (str "...") (-3))
    by (reflexivity || lia).
  now rewrite !str_eqb_refl.
Qed.

Lemma determine_label_mismatch :
  in_token <> expected_token ->
  (forall c, expected_token <> in_token ++ [c]) ->
  expected_token <> in_token ++ str "..." ->
  tsv_parser._determine_label in_token expected_token
    = Return (str "B", [LogError in_token expected_token]).
Proof.
  intros Hne H1 H3; unfold tsv_parser._determine_label.
  destruct (str_eqb_spec in_token expected_token) as [|_]; [contradiction|].
  destruct (str_eqb_spec in_token (slice_to (-1) expected_token)) as [E|_].
  { destruct (slice_to_1_inv _ _ E Hne) as [c Hc]; now elim (H1 c). }
  destruct (str_eqb_spec in_token (slice_to (-3) expected_token)) as [E|_];
    [|reflexivity].
  destruct (str_eqb_spec (slice_from (-3) expected_token) (str "..."))
    as [E'|_]; [|reflexivity].
  elim H3; rewrite <- (slice_to_from (-3) expected_token) at 1.
  now rewrite <- E, E'.
Qed.

(** The duplicate in [parse_tsv.py] computes the same label and reports
    the same mismatches. *)
Lemma determine_label_duplicates_agree :
  parse_tsv._determine_label in_token expected_token
  = tsv_parser._determine_label in_token expected_token.
Proof.
  unfold parse_tsv._determine_label, tsv_parser._determine_label.
  destruct (str_eqb in_token expected_token); [reflexivity|].
  destruct (str_eqb in_token (slice_to (-1) expected_token)); [reflexivity|].
  destruct (str_eqb in_token (slice_to (-3) expected_token)); [|reflexivity].
  destruct (str_eqb_spec (slice_from (-3) expected_token) (str "..."))
    as [->|_]; reflexivity.
Qed.

End DetermineLabel.

(** C1. For every pair of tokens the label aligner, in both of its copies,
    returns [B] on equal tokens, the trailing character when the expected
    token is the input token plus one character, [...] when it is the input
    token plus a literal ellipsis, and in every other case returns [B]
    with the mismatch logged; it never raises. *)
Theorem determine_label_cases :
  determine_label_contract tsv_parser._determine_label
  /\ determine_label_contract parse_tsv._determine_label.
Proof.
  assert (H : determine_label_contract tsv_parser._determine_label).
  { intros i e; repeat split.
    - apply determine_label_equal.
    - apply determine_label_trailing.
    - apply determine_label_ellipsis.
    - apply determine_label_mismatch. }
  split; [exact H|].
  intros i e; rewrite determine_label_duplicates_agree; apply H.
Qed.

(** The four worked examples of the spec. *)
Lemma determine_label_examples :
  tsv_parser._determine_label (str "dog") (str "dog") = Return (str "B", [])
  /\ tsv_parser._determine_label (str "dog") (str "dog.")
     = Return (str ".", [])
  /\ tsv_parser._determine_label (str "dog") (str "dog...")
     = Return (str "...", [])
  /\ tsv_parser._determine_label (str "dog") (str "cat")
     = Return (str "B", [LogError (str "dog") (str "cat")]).
Proof.
  pose proof (proj1 determine_label_cases) as H.
  split; [|split; [|split]].
  - apply (proj1 (H (str "dog") (str "dog"))); reflexivity.
  - apply (proj1 (proj2 (H (str "dog") (str "dog.")))); reflexivity.
  - apply (proj1 (proj2 (proj2 (H (str "dog") (str "dog..."))))); reflexivity.
  - apply (proj2 (proj2 (proj2 (H (str "dog") (str "cat"))))).
    + discriminate.
    + intros c; discriminate.
    + discriminate.
Defined.

(** The single-character labels are the one-character strings over
    [: ; , . - ? !]. *)
Lemma single_character_labels_chars (c : char) :
  In [c] single_character_labels <-> In c (str ":;,.-?!").
Proof.
  change single_character_labels
    with (map (fun x : char => [x]) (str ":;,.-?!")).
  rewrite in_map_iff; split.
  - intros (x & Hx & Hin); now inversion Hx; subst.
  - intros Hin; now exists c.
Qed.

(** C7, as stated, fails: the trailing character is returned whatever it
    is, here the letter [s], which is no punctuation label. *)
Lemma determine_label_trailing_letter :
  tsv_parser._determine_label (str "dog") (str "dogs") = Return (str "s", [])
  /\ ~ In (str "s") single_character_labels
  /\ ~ In (str "s") Label_list.
Proof.
  split; [reflexivity|].
  split; intros H; vm_compute in H; intuition discriminate.
Qed.

(** C7, amended. When the expected token is the input token plus one
    character, the label is that character, with nothing logged; it is one
    of the single-character punctuation labels exactly when the character
    is one of [: ; , . - ? !], which the aligner does not check. *)
Theorem determine_label_trailing_character (in_token : pystr) (c : char) :
  tsv_parser._determine_label in_token (in_token ++ [c]) = Return ([c], [])
  /\ parse_tsv._determine_label in_token (in_token ++ [c]) = Return ([c], [])
  /\ (In [c] single_character_labels <-> In c (str ":;,.-?!")).
Proof.
  assert (H := determine_label_trailing in_token (in_token ++ [c]) c eq_refl).
  split; [exact H|split].
  - now rewrite determine_label_duplicates_agree.
  - apply single_character_labels_chars.
Qed.

(* ================================================================== *)
(** * Token-count mismatches *)
(* ================================================================== *)

Section Convert.

Variable U : unicode.
Variable fa_transcriptions_directory : option tsv_parser.fa_directory.

Let convert_lines := tsv_parser.convert_lines U fa_transcriptions_directory.

(** A mismatched pair of lines only adds the warning to the log. *)
Lemma convert_line_mismatch (in_line expected_line : pystr) :
  tsv_parser.token_counts_differ in_line expected_line = true ->
  tsv_parser.convert_line U fa_transcriptions_directory in_line expected_line
  = {| written := [];
       logged := [LogWarning (str "Source text and expected text differ!")];
       raised := None |}.
Proof.
  unfold tsv_parser.token_counts_differ, tsv_parser.convert_line.
  destruct (split TAB (strip in_line)) as [|a [|b [|c l]]]; try discriminate.
  now intros ->.
Qed.

Lemma convert_lines_mismatch (in_line expected_line : pystr) rest :
  tsv_parser.token_counts_differ in_line expected_line = true ->
  convert_lines ((in_line, expected_line) :: rest)
  = {| written := written (convert_lines rest);
       logged := LogWarning (str "Source text and expected text differ!")
                   :: logged (convert_lines rest);
       raised := raised (convert_lines rest) |}.
Proof.
  intros H; unfold convert_lines; simpl.
  now rewrite (convert_line_mismatch _ _ H).
Qed.

(** The output file is the one the matching pairs alone would give. *)
Lemma convert_lines_skips_mismatches (lines : list (pystr * pystr)) :
  let matching :=
    filter (fun p => negb (tsv_parser.token_counts_differ (fst p) (snd p)))
           lines in
  written (convert_lines lines) = written (convert_lines matching)
  /\ raised (convert_lines lines) = raised (convert_lines matching).
Proof.
  induction lines as [|[in_line expected_line] rest [IHw IHr]]; simpl.
  - now split.
  - destruct (tsv_parser.token_counts_differ in_line expected_line) eqn:E;
      simpl.
    + fold (convert_lines ((in_line, expected_line) :: rest)).
      now rewrite (convert_lines_mismatch _ _ _ E).
    + unfold convert_lines in *; simpl; unfold run_then.
      destruct (raised (tsv_parser.convert_line _ _ _ _)); simpl;
        [now split|].
      now rewrite IHw, IHr.
Qed.

End Convert.

Section WriteOutput.

Import json_converter.
Variable U : unicode.

Lemma write_output_fold (paths : list json_file) out_in out_expected :
  fold_left
    (fun '(out_in, out_expected) path =>
       let '(json_in, json_expected) := _load_json U path in
       (out_in ++ [stem path ++ [TAB] ++ json_in ++ [LF]],
        out_expected ++ [json_expected ++ [LF]]))
    paths (out_in, out_expected)
  = (out_in ++ map (fun path => stem path ++ [TAB] ++ fst (_load_json U path)
                                  ++ [LF]) paths,
     out_expected ++ map (fun path => snd (_load_json U path) ++ [LF]) paths).
Proof.
  revert out_in out_expected; induction paths as [|p paths IH]; intros; simpl.
  - now rewrite !app_nil_r.
  - destruct (_load_json U p) as [json_in json_expected] eqn:E.
    rewrite IH, <- !app_assoc; reflexivity.
Qed.

(** Every path gets its line in both files; no token count is looked at. *)
Lemma write_output_all (paths : list json_file) :
  _write_output U paths
  = (map (fun path => stem path ++ [TAB] ++ fst (_load_json U path) ++ [LF])
         paths,
     map (fun path => snd (_load_json U path) ++ [LF]) paths).
Proof. unfold _write_output; now rewrite write_output_fold. Qed.

End WriteOutput.

(** C4, as stated, fails for the corpus loader: the two texts of this
    document split to one and to two tokens, and both of its lines are
    written all the same. *)
Lemma write_output_keeps_mismatched_document :
  let '(text_in, text_exp) :=
    json_converter._load_json ascii_tables hellip_document in
  len (split SP text_in) = 1
  /\ len (split SP text_exp) = 2
  /\ json_converter._write_output ascii_tables [hellip_document]
     = ([str "wikinews1" ++ [TAB] ++ str "a" ++ [HELLIP] ++ str "b" ++ [LF]],
        [str "a b" ++ [LF]]).
Proof. vm_compute; repeat split. Qed.

(** C4, amended. The label aligner answers a pair of lines whose token
    counts differ with a warning and nothing else: no line is written for
    it and the remaining pairs are processed, so that the output file is
    the one the matching pairs alone would give. The corpus loader does
    not skip: it writes the two lines of every document, whatever the
    token counts of its texts. *)
Theorem token_count_mismatch_handling
    (U : unicode) (fa : option tsv_parser.fa_directory)
    (in_line expected_line : pystr) (rest : list (pystr * pystr))
    (paths : list json_converter.json_file) :
  tsv_parser.token_counts_differ in_line expected_line = true ->
  tsv_parser.convert_lines U fa ((in_line, expected_line) :: rest)
  = {| written := written (tsv_parser.convert_lines U fa rest);
       logged := LogWarning (str "Source text and expected text differ!")
                   :: logged (tsv_parser.convert_lines U fa rest);
       raised := raised (tsv_parser.convert_lines U fa rest) |}
  /\ (forall lines,
        written (tsv_parser.convert_lines U fa lines)
        = written (tsv_parser.convert_lines U fa
            (filter (fun p => negb (tsv_parser.token_counts_differ
                                      (fst p) (snd p))) lines)))
  /\ json_converter._write_output U paths
     = (map (fun path => json_converter.stem path ++ [TAB]
                         ++ fst (json_converter._load_json U path) ++ [LF])
            paths,
        map (fun path => snd (json_converter._load_json U path) ++ [LF])
            paths).
Proof.
  intros H; split; [|split].
  - now apply convert_lines_mismatch.
  - intros lines; apply convert_lines_skips_mismatches.
  - apply write_output_all.
Qed.

(** The aligner on a pair with two tokens against one, followed by a
    matching pair; the loader on the document above. *)
Lemma token_count_mismatch_handling_example :
  written (tsv_parser.convert_lines ascii_tables None
             [(str "wikinews1" ++ [TAB] ++ str "a b" ++ [LF], str "a" ++ [LF]);
              (str "wikinews2" ++ [TAB] ++ str "dog" ++ [LF],
               str "Dog." ++ [LF])])
  = [str "dog" ++ [TAB] ++ str "." ++ [LF]; [LF]]
  /\ length (fst (json_converter._write_output ascii_tables [hellip_document]))
     = 1%nat.
Proof.
  pose proof (token_count_mismatch_handling ascii_tables None
    (str "wikinews1" ++ [TAB] ++ str "a b" ++ [LF]) (str "a" ++ [LF])
    [(str "wikinews2" ++ [TAB] ++ str "dog" ++ [LF], str "Dog." ++ [LF])]
    [hellip_document] eq_refl) as (H1 & _ & H3).
  split.
  - exact (f_equal written H1).
  - exact (f_equal (fun out => length (fst out)) H3).
Defined.

(* ================================================================== *)
(** * The text builder and the normalisers *)
(* ================================================================== *)

Lemma match_non_alphanumeric_word (U : unicode) (w : pystr) (c : char) :
  hd_error w = Some c -> is_word U c = true ->
  match_non_alphanumeric U w = false.
Proof.
  destruct w as [|d w]; [discriminate|].
  intros [= ->] H; simpl; now rewrite H.
Qed.

(** C6, as stated, fails in its last part: the expected text of the
    example has no period token, in either converter. *)
Lemma dog_document_expected_text :
  snd (json_converter._load_json ascii_tables
         {| json_converter.stem := str "d";
            json_converter.content := dog_document |})
    <> str "dog runs . home"
  /\ snd (fst (parse_json2._load_json ascii_tables dog_document))
    <> str "dog runs . home".
Proof. split; vm_compute; discriminate. Qed.

(** C6, amended. For the three-token document the text builder produces
    the intact text [dog runs. Home ]; after normalisation the input text
    is [dog runs home] and the expected text is [dog runs home] as well:
    the normaliser leaves no period. *)
Theorem dog_document_texts (U : unicode) (stem : pystr) :
  lower U (str "dog runs Home") = str "dog runs home" ->
  (forall c, In c (str "drH") -> is_word U c = true) ->
  snd (json_converter._build_texts U dog_document) = str "dog runs. Home "
  /\ json_converter._load_json U
       {| json_converter.stem := stem;
          json_converter.content := dog_document |}
     = (str "dog runs home", str "dog runs home").
Proof.
  intros Hlower Hword.
  assert (Hb : json_converter._build_texts U dog_document
               = (str "dog runs Home", str "dog runs Home",
                  str "dog runs. Home ")).
  { unfold json_converter._build_texts, dog_document.
    cbn [fold_left json_converter.words].
    unfold json_converter._build_texts_step.
    cbn [json_converter.word json_converter.punctuation
         json_converter.space_after].
    rewrite (match_non_alphanumeric_word U (str "dog") (chr "d") eq_refl),
            (match_non_alphanumeric_word U (str "runs") (chr "r") eq_refl),
            (match_non_alphanumeric_word U (str "Home") (chr "H") eq_refl)
      by (apply Hword; simpl; tauto).
    reflexivity. }
  split; [now rewrite Hb|].
  unfold json_converter._load_json; simpl json_converter.content.
  rewrite Hb.
  unfold json_converter._normalize_text_in, json_converter._normalize_text_exp.
  rewrite Hlower; reflexivity.
Qed.

(** The ASCII tables are such tables. *)
Lemma dog_document_texts_ascii :
  snd (json_converter._build_texts ascii_tables dog_document)
  = str "dog runs. Home "
  /\ json_converter._load_json ascii_tables
       {| json_converter.stem := str "d";
          json_converter.content := dog_document |}
     = (str "dog runs home", str "dog runs home").
Proof.
  apply (dog_document_texts ascii_tables (str "d")).
  - reflexivity.
  - intros c Hc; simpl in Hc.
    destruct Hc as [<-|[<-|[<-|[]]]]; reflexivity.
Defined.

(** C5 at that document: the two converters return different expected
    texts, since [_build_texts] leaves the punctuation out of [text_exp]
    where the older [_load_json] appends it. *)
Theorem load_json_duplicates_differ :
  json_converter._load_json ascii_tables
    {| json_converter.stem := str "d";
       json_converter.content := parenthesis_document |}
  = (str "dog", str "dog")
  /\ parse_json2._load_json ascii_tables parenthesis_document
     = (str "dog", str "dog)", []).
Proof. split; reflexivity. Qed.


(* ================================================================== *)
(** * The two corpus loaders on punctuation of the alphabet *)
(* ================================================================== *)

(** Collapsing the spaces of [c :: u] only needs the collapsed [u]. *)
Lemma sub_spaces_hd (u : pystr) : hd_error (sub_spaces u) = hd_error u.
Proof.
  induction u as [|c u IH]; [reflexivity|].
  simpl; destruct (N.eqb_spec c SP) as [->|]; [|reflexivity].
  destruct u as [|d u]; [reflexivity|].
  destruct (N.eqb_spec d SP) as [->|]; [|reflexivity].
  exact IH.
Qed.

Lemma sub_spaces_cons (c : char) (u : pystr) :
  sub_spaces (c :: u) = collapse_cons c (sub_spaces u).
Proof.
  unfold collapse_cons.
  pose proof (sub_spaces_hd u) as Hhd.
  cbn [sub_spaces]; destruct (N.eqb_spec c SP) as [->|]; [|reflexivity].
  destruct u as [|d u]; [reflexivity|].
  destruct (sub_spaces (d :: u)) as [|e w] eqn:E; [discriminate|].
  injection Hhd as ->.
  destruct (N.eqb d SP); reflexivity.
Qed.

Lemma sub_spaces_app_r (x u v : pystr) :
  sub_spaces u = sub_spaces v -> sub_spaces (x ++ u) = sub_spaces (x ++ v).
Proof.
  intros H; induction x as [|c x IH]; [exact H|].
  simpl app; now rewrite !sub_spaces_cons, IH.
Qed.

Lemma sub_spaces_collapse_cons_app (c : char) (w y : pystr) :
  sub_spaces (collapse_cons c w ++ y) = sub_spaces (c :: w ++ y).
Proof.
  unfold collapse_cons.
  destruct (N.eqb_spec c SP) as [->|]; [|reflexivity].
  destruct w as [|d w]; [reflexivity|].
  destruct (N.eqb_spec d SP) as [->|]; reflexivity.
Qed.

Lemma sub_spaces_app_idem (u y : pystr) :
  sub_spaces (sub_spaces u ++ y) = sub_spaces (u ++ y).
Proof.
  induction u as [|c u IH]; [reflexivity|].
  rewrite sub_spaces_cons, sub_spaces_collapse_cons_app.
  simpl app; now rewrite !sub_spaces_cons, IH.
Qed.

Lemma sub_spaces_app_l (u v y : pystr) :
  sub_spaces u = sub_spaces v -> sub_spaces (u ++ y) = sub_spaces (v ++ y).
Proof.
  intros H; now rewrite <- (sub_spaces_app_idem u), H, sub_spaces_app_idem.
Qed.

(** The characters that [_normalize_text_exp] turns into spaces. *)
Lemma sub_glued_set_by_space (u : pystr) :
  sub_set_by_space normalized_away (sub_glued u)
  = sub_set_by_space normalized_away u.
Proof.
  enough (H : sub_set_by_space normalized_away (sub_glued u)
              = sub_set_by_space normalized_away u
              /\ forall a, sub_set_by_space normalized_away (sub_glued (a :: u))
                           = sub_set_by_space normalized_away (a :: u))
    by apply H.
  unfold sub_set_by_space.
  induction u as [|b r [IH1 IH2]]; [split; reflexivity|].
  split; [apply IH2|].
  intros a.
  change (sub_glued (a :: b :: r))
    with (if char_in (str "!?.:;-") a && negb (N.eqb b SP)
          then SP :: b :: sub_glued r
          else a :: sub_glued (b :: r)).
  destruct (char_in (str "!?.:;-") a && negb (N.eqb b SP)) eqn:E.
  - apply andb_true_iff in E; destruct E as [Ha Hb].
    cbn [map]; rewrite IH1; f_equal.
    assert (Hin : char_in normalized_away a = true).
    { unfold char_in in *; apply existsb_exists in Ha.
      destruct Ha as (x & Hx & Hax); apply existsb_exists; exists x.
      split; [|exact Hax].
      simpl in Hx |- *; intuition. }
    now rewrite Hin.
  - cbn [map]; now rewrite (IH2 b).
Qed.

Lemma sub_spaces_two (u : pystr) :
  sub_spaces (SP :: SP :: u) = sub_spaces (SP :: u).
Proof. reflexivity. Qed.

Lemma sub_dots_set_by_space (t : pystr) :
  sub_spaces (sub_set_by_space normalized_away (sub_dots t))
  = sub_spaces (sub_set_by_space normalized_away t).
Proof.
  remember (length t) as n eqn:Hn.
  revert t Hn; induction n as [n IH] using lt_wf_ind; intros t ->.
  destruct t as [|a [|b [|c rest]]]; try reflexivity.
  change (sub_dots (a :: b :: c :: rest))
    with (if N.eqb a (chr ".") && N.eqb b (chr ".") && N.eqb c (chr ".")
          then HELLIP :: sub_dots rest
          else a :: sub_dots (b :: c :: rest)).
  destruct (N.eqb a (chr ".") && N.eqb b (chr ".") && N.eqb c (chr ".")) eqn:E.
  - apply andb_true_iff in E; destruct E as [E Hc].
    apply andb_true_iff in E; destruct E as [Ha Hb].
    apply N.eqb_eq in Ha, Hb, Hc; subst a b c.
    change (sub_set_by_space normalized_away
              (chr "." :: chr "." :: chr "." :: rest))
      with (SP :: SP :: SP :: sub_set_by_space normalized_away rest).
    change (sub_set_by_space normalized_away (HELLIP :: sub_dots rest))
      with (SP :: sub_set_by_space normalized_away (sub_dots rest)).
    rewrite !sub_spaces_two, !(sub_spaces_cons SP).
    f_equal; apply (IH (length rest)); [simpl; lia|reflexivity].
  - change (sub_set_by_space normalized_away (a :: sub_dots (b :: c :: rest)))
      with ((if char_in normalized_away a then SP else a)
            :: sub_set_by_space normalized_away (sub_dots (b :: c :: rest))).
    change (sub_set_by_space normalized_away (a :: b :: c :: rest))
      with ((if char_in normalized_away a then SP else a)
            :: sub_set_by_space normalized_away (b :: c :: rest)).
    rewrite !(sub_spaces_cons (if char_in normalized_away a then SP else a)).
    f_equal; apply (IH (length (b :: c :: rest))); [simpl; lia|reflexivity].
Qed.

Lemma sub_spaces_blank_run (p : pystr) :
  forallb (char_in normalized_away) p = true ->
  sub_spaces (sub_set_by_space normalized_away p ++ [SP]) = [SP].
Proof.
  induction p as [|c p IH]; [reflexivity|].
  change (forallb (char_in normalized_away) (c :: p))
    with (char_in normalized_away c && forallb (char_in normalized_away) p).
  intros H; apply andb_true_iff in H; destruct H as [Hc Hp].
  change (sub_set_by_space normalized_away (c :: p) ++ [SP])
    with ((if char_in normalized_away c then SP else c)
          :: (sub_set_by_space normalized_away p ++ [SP])).
  now rewrite Hc, sub_spaces_cons, IH.
Qed.

Section DuplicateLoaders.

Import json_converter.

Variable U : unicode.

(** [str.lower] works character by character and leaves the space and
    the characters of the class alone. *)
Hypothesis lower_app : forall a b, lower U (a ++ b) = lower U a ++ lower U b.
Hypothesis lower_fixes :
  forall p, forallb (char_in (SP :: normalized_away)) p = true ->
            lower U p = p.

Lemma normalize_text_exp_blanked (text : pystr) :
  _normalize_text_exp U text = strip (sub_hellip (blanked U text)).
Proof.
  unfold _normalize_text_exp, blanked.
  change (HELLIP :: str ",!?.:;-") with normalized_away.
  now rewrite sub_glued_set_by_space, sub_dots_set_by_space.
Qed.

Lemma blanked_app_l (u v y : pystr) :
  blanked U u = blanked U v -> blanked U (u ++ y) = blanked U (v ++ y).
Proof.
  unfold blanked, sub_set_by_space; intros H.
  rewrite !lower_app, !map_app; now apply sub_spaces_app_l.
Qed.

Lemma blanked_app_r (x u v : pystr) :
  blanked U u = blanked U v -> blanked U (x ++ u) = blanked U (x ++ v).
Proof.
  unfold blanked, sub_set_by_space; intros H.
  rewrite !lower_app, !map_app; now apply sub_spaces_app_r.
Qed.

Lemma forallb_weaken (p : pystr) :
  forallb (char_in normalized_away) p = true ->
  forallb (char_in (SP :: normalized_away)) (p ++ [SP]) = true.
Proof.
  intros H; rewrite forallb_app; apply andb_true_iff; split; [|reflexivity].
  rewrite forallb_forall in *; intros c Hc; specialize (H c Hc).
  change (char_in (SP :: normalized_away) c)
    with (N.eqb c SP || char_in normalized_away c).
  now rewrite H, orb_true_r.
Qed.

(** Punctuation of the class before a space is as good as the space. *)
Lemma blanked_punctuation_space (p : pystr) :
  forallb (char_in normalized_away) p = true ->
  blanked U (p ++ [SP]) = blanked U [SP].
Proof.
  intros H; unfold blanked.
  rewrite (lower_fixes (p ++ [SP])) by now apply forallb_weaken.
  rewrite (lower_fixes [SP]) by reflexivity.
  unfold sub_set_by_space at 1; rewrite map_app.
  now apply sub_spaces_blank_run.
Qed.

(** One turn of the two loops from states that agree. *)
Lemma build_steps_agree (w : WordData)
    (text_in text_exp text_intact text text_exp' : pystr) :
  forallb (char_in normalized_away) (punctuation w) = true ->
  blanked U text_exp = blanked U text_exp' ->
  let '(a, b, _) := _build_texts_step U (text_in, text_exp, text_intact) w in
  let '(_, a', b') := parse_json2._load_json_step U (text, text_in, text_exp') w
  in a = a' /\ blanked U b = blanked U b'.
Proof.
  intros Hp He.
  assert (Htail : forall x y,
            blanked U x = blanked U y ->
            blanked U (text_exp ++ word w ++ x)
            = blanked U (text_exp' ++ word w ++ y)).
  { intros x y Hxy.
    rewrite (blanked_app_l _ _ (word w ++ x) He).
    now do 2 apply blanked_app_r. }
  unfold _build_texts_step, parse_json2._load_json_step.
  destruct (match_non_alphanumeric U (word w)); cbn [negb].
  - destruct (space_after w || negb (str_eqb (punctuation w) []));
      (split; [reflexivity|]); [now apply blanked_app_l|exact He].
  - destruct (str_eqb_spec (punctuation w) (str "-")) as [Hh|Hh].
    + rewrite Hh in *; cbn [str_eqb str map list_ascii_of_string].
      destruct (space_after w); cbn [andb negb orb];
        (split; [reflexivity|]); rewrite <- ?app_assoc; apply Htail.
      * symmetry; now apply (blanked_punctuation_space (str "-")).
      * now apply (blanked_punctuation_space (str "-")).
    + destruct (space_after w); cbn [andb negb orb];
        destruct (str_eqb_spec (punctuation w) []) as [Hn|Hn]; cbn [negb];
        (split; [reflexivity|]); rewrite <- ?app_assoc.
      * rewrite Hn; now apply Htail.
      * apply Htail; symmetry; now apply blanked_punctuation_space.
      * rewrite Hn, <- (app_nil_r (word w)) at 1; now apply Htail.
      * apply Htail; symmetry; now apply blanked_punctuation_space.
Qed.

(** The two loops from states that agree. *)
Lemma build_folds_agree (ws : list WordData) :
  forall text_in text_exp text_intact text text_exp',
  (forall w, In w ws ->
     forallb (char_in normalized_away) (punctuation w) = true) ->
  blanked U text_exp = blanked U text_exp' ->
  let '(a, b, _) :=
    fold_left (_build_texts_step U) ws (text_in, text_exp, text_intact) in
  let '(_, a', b') :=
    fold_left (parse_json2._load_json_step U) ws (text, text_in, text_exp')
  in a = a' /\ blanked U b = blanked U b'.
Proof.
  induction ws as [|w ws IH]; intros text_in text_exp text_intact text
    text_exp' Hp He; cbn [fold_left].
  - now split.
  - pose proof (build_steps_agree w text_in text_exp text_intact text
                  text_exp' (Hp w (or_introl eq_refl)) He) as Hstep.
    destruct (_build_texts_step U (text_in, text_exp, text_intact) w)
      as [[a b] c].
    destruct (parse_json2._load_json_step U (text, text_in, text_exp') w)
      as [[c' a'] b'].
    destruct Hstep as [<- Hb].
    apply IH; [|exact Hb].
    intros w' Hw'; apply Hp; now right.
Qed.

(** Where every punctuation field is made of the characters
    [… , ! ? . : ; -], the two loaders return the same pair of texts. *)
Lemma load_json_duplicates_agree (path : json_file) :
  (forall w, In w (words (content path)) ->
     forallb (char_in normalized_away) (punctuation w) = true) ->
  _load_json U path = fst (parse_json2._load_json U (content path)).
Proof.
  intros Hp; unfold _load_json, parse_json2._load_json, _build_texts.
  pose proof (build_folds_agree (words (content path)) [] [] [] [] []
                Hp eq_refl) as H.
  destruct (fold_left (_build_texts_step U) _ _) as [[a b] c].
  destruct (fold_left (parse_json2._load_json_step U) _ _) as [[c' a'] b'].
  destruct H as [<- Hb]; cbn [fst].
  change (strip (sub_hellip (sub_spaces
            (sub_set_by_space (HELLIP :: str ",!?.:;-")
               (sub_glued (sub_dots (lower U b')))))))
    with (_normalize_text_exp U b').
  rewrite !normalize_text_exp_blanked, Hb; reflexivity.
Qed.

End DuplicateLoaders.

(** The ASCII tables lower character by character. *)
Lemma load_json_duplicates_agree_ascii (path : json_converter.json_file) :
  (forall w, In w (json_converter.words (json_converter.content path)) ->
     forallb (char_in normalized_away) (json_converter.punctuation w) = true) ->
  json_converter._load_json ascii_tables path
  = fst (parse_json2._load_json ascii_tables (json_converter.content path)).
Proof.
  apply load_json_duplicates_agree.
  - intros a b; apply map_app.
  - intros p Hp; simpl; rewrite <- (map_id p) at 2.
    apply map_ext_in; intros c Hc.
    rewrite forallb_forall in Hp; specialize (Hp c Hc).
    unfold char_in in Hp; apply existsb_exists in Hp.
    destruct Hp as (x & Hx & Hcx); apply N.eqb_eq in Hcx; subst x.
    simpl in Hx; decompose [or] Hx; subst; try reflexivity; contradiction.
Qed.



(* ================================================================== *)
(** * Sums, slices and rounding *)
(* ================================================================== *)

Lemma fold_left_add (l : list Z) (a : Z) : fold_left Z.add l a = a + sum l.
Proof.
  unfold sum; revert a; induction l as [|x l IH]; intros a; simpl; [lia|].
  rewrite (IH (a + x)), (IH x); lia.
Qed.

Lemma sum_app (l1 l2 : list Z) : sum (l1 ++ l2) = sum l1 + sum l2.
Proof. unfold sum at 1; now rewrite fold_left_app, fold_left_add. Qed.

Lemma sum_cons (x : Z) (l : list Z) : sum (x :: l) = x + sum l.
Proof. apply (sum_app [x] l). Qed.

Lemma sum_singleton (x : Z) : sum [x] = x.
Proof. reflexivity. Qed.

Lemma sum_map_nonneg {A} (f : A -> Z) (l : list A) :
  (forall x, 0 <= f x) -> 0 <= sum (map f l).
Proof.
  intros Hf; induction l as [|x l IH]; [reflexivity|].
  simpl map; rewrite sum_cons; specialize (Hf x); lia.
Qed.

Lemma slice_bound_map {A B} (f : A -> B) (l : list A) (k : Z) :
  slice_bound (map f l) k = slice_bound l k.
Proof. unfold slice_bound, len; now rewrite length_map. Qed.

Lemma slice_from_map {A B} (f : A -> B) (l : list A) (k : Z) :
  slice_from k (map f l) = map f (slice_from k l).
Proof. unfold slice_from; now rewrite slice_bound_map, skipn_map. Qed.

Lemma slice_to_map {A B} (f : A -> B) (l : list A) (k : Z) :
  slice_to k (map f l) = map f (slice_to k l).
Proof. unfold slice_to; now rewrite slice_bound_map, firstn_map. Qed.

Lemma len_slice_from {A} (l : list A) (k : Z) :
  0 <= k <= len l -> len (slice_from k l) = len l - k.
Proof.
  intros Hk; unfold slice_from, slice_bound.
  destruct (Z.ltb_spec k 0); [lia|].
  unfold len in *; rewrite length_skipn; lia.
Qed.

Lemma slice_from_all {A} (l : list A) : slice_from (len l) l = [].
Proof.
  unfold slice_from, slice_bound; pose proof (len_nonneg l).
  destruct (Z.ltb_spec (len l) 0); [lia|].
  apply skipn_all2; unfold len; lia.
Qed.

(* ================================================================== *)
(** * Grouping by sentence *)
(* ================================================================== *)

Lemma insert_key_In (k x : Z) (keys : list Z) :
  In x (DataFrame.insert_key k keys) <-> x = k \/ In x keys.
Proof.
  induction keys as [|y keys IH]; simpl.
  - intuition.
  - destruct (Z.ltb_spec k y); simpl; [intuition|].
    destruct (Z.eqb_spec k y); simpl; [subst; intuition|].
    rewrite IH; intuition.
Qed.

Lemma insert_key_sorted (k : Z) (keys : list Z) :
  StronglySorted Z.lt keys -> StronglySorted Z.lt (DataFrame.insert_key k keys).
Proof.
  induction 1 as [|y keys Hs IH Hall]; simpl.
  - repeat constructor.
  - destruct (Z.ltb_spec k y).
    + constructor; [now constructor|].
      constructor; [assumption|].
      eapply Forall_impl; [|exact Hall]; simpl; intros; lia.
    + destruct (Z.eqb_spec k y); [now constructor|].
      constructor; [assumption|].
      apply Forall_forall; intros x Hx.
      apply insert_key_In in Hx; destruct Hx as [->|Hx]; [lia|].
      rewrite Forall_forall in Hall; now apply Hall.
Qed.

Lemma keys_sorted (l : list Z) :
  StronglySorted Z.lt (fold_right DataFrame.insert_key [] l).
Proof.
  induction l; simpl; [constructor|now apply insert_key_sorted].
Qed.

Lemma keys_NoDup (l : list Z) :
  NoDup (fold_right DataFrame.insert_key [] l).
Proof.
  pose proof (keys_sorted l) as H.
  induction H as [|y keys Hs IH Hall]; constructor; [|assumption].
  intros Hy; rewrite Forall_forall in Hall; specialize (Hall y Hy); lia.
Qed.

Lemma keys_In (l : list Z) (k : Z) :
  In k (fold_right DataFrame.insert_key [] l) <-> In k l.
Proof.
  induction l as [|x l IH]; simpl; [tauto|].
  rewrite insert_key_In, IH; intuition.
Qed.

Lemma filter_sentence_absent (data : list (DataFrame.row Z)) (k : Z) :
  ~ In k (map DataFrame.sentence_id data) ->
  filter (fun r => DataFrame.sentence_id r =? k) data = [].
Proof.
  induction data as [|r data IH]; simpl; [reflexivity|]; intros H.
  destruct (Z.eqb_spec (DataFrame.sentence_id r) k); [tauto|].
  apply IH; tauto.
Qed.

(** When each key tags its own rows, the rows of key [k] in the whole
    are those of its group. *)
Lemma filter_flat_map_keys {A} (tag : A -> Z) (G : Z -> list A) (k : Z)
    (keys : list Z) :
  (forall x, filter (fun r => tag r =? k) (G x)
             = if x =? k then G x else []) ->
  NoDup keys ->
  filter (fun r => tag r =? k) (flat_map G keys)
  = if existsb (Z.eqb k) keys then G k else [].
Proof.
  intros HG; induction 1 as [|x keys Hx Hnd IH]; simpl; [reflexivity|].
  rewrite filter_app, HG, IH.
  destruct (Z.eqb_spec x k) as [->|Hxk].
  - rewrite Z.eqb_refl; simpl.
    destruct (existsb (Z.eqb k) keys) eqn:E; [|apply app_nil_r].
    apply existsb_exists in E; destruct E as (y & Hy & Hky).
    apply Z.eqb_eq in Hky; subst; contradiction.
  - destruct (Z.eqb_spec k x); [congruence|]; reflexivity.
Qed.

(* ================================================================== *)
(** * The product of an [int] and a float, truncated *)
(* ================================================================== *)

Lemma iter_pos_nat {A} (f : A -> A) (p : positive) (x : A) :
  iter_pos f p x = Nat.iter (Pos.to_nat p) f x.
Proof.
  revert x; induction p as [p IH|p IH|]; intros x; cbn [iter_pos].
  - rewrite !IH, Pos2Nat.inj_xI.
    replace (S (2 * Pos.to_nat p))%nat
      with (Pos.to_nat p + S (Pos.to_nat p))%nat by lia.
    rewrite Nat.iter_add, Nat.iter_succ_r; reflexivity.
  - rewrite !IH, Pos2Nat.inj_xO.
    replace (2 * Pos.to_nat p)%nat with (Pos.to_nat p + Pos.to_nat p)%nat
      by lia.
    now rewrite Nat.iter_add.
  - reflexivity.
Qed.


Lemma shr_1_spec (mrs : shr_record) :
  0 <= shr_m mrs ->
  shr_m (shr_1 mrs) = shr_m mrs / 2
  /\ (shr_exact mrs -> shr_m mrs mod 2 = 0 -> shr_exact (shr_1 mrs)).
Proof.
  destruct mrs as [m r s]; unfold shr_exact; cbn [shr_m shr_r shr_s].
  intros Hm; destruct m as [|[p|p|]|p]; cbn [shr_1 shr_m shr_r shr_s];
    try lia.
  - split; [reflexivity|]; intros [-> ->] _; now split.
  - split.
    + apply Z.div_unique with (r := 1); lia.
    + intros _ H; rewrite (Pos2Z.inj_xI p), Z.add_comm, Z.mul_comm,
        Z.mod_add in H by lia; discriminate H.
  - split.
    + apply Z.div_unique with (r := 0); lia.
    + intros [-> ->] _; now split.
  - split; [reflexivity|]; intros _ H; discriminate H.
Qed.

Lemma shr_iter_spec (j : nat) (m : Z) :
  0 <= m ->
  shr_m (Nat.iter j shr_1 {| shr_m := m; shr_r := false; shr_s := false |})
  = m / 2 ^ Z.of_nat j
  /\ (m mod 2 ^ Z.of_nat j = 0 ->
      shr_exact
        (Nat.iter j shr_1 {| shr_m := m; shr_r := false; shr_s := false |})).
Proof.
  intros Hm; induction j as [|j [IHm IHe]].
  - cbn [Nat.iter Z.of_nat shr_m]; rewrite Z.pow_0_r, Z.div_1_r.
    split; [reflexivity|]; intros _; now split.
  - rewrite !Nat.iter_succ.
    set (res := Nat.iter j shr_1 _) in *.
    assert (Hres : 0 <= shr_m res)
      by (rewrite IHm; apply Z.div_pos; [lia|apply Z.pow_pos_nonneg; lia]).
    destruct (shr_1_spec res Hres) as [H1 H2].
    assert (Hpow : 2 ^ Z.of_nat (S j) = 2 ^ Z.of_nat j * 2)
      by (rewrite Nat2Z.inj_succ, Z.pow_succ_r by lia; lia).
    assert (Hpos : 0 < 2 ^ Z.of_nat j) by (apply Z.pow_pos_nonneg; lia).
    split.
    + rewrite H1, IHm, Hpow, Z.div_div by lia; reflexivity.
    + intros Hmod; rewrite Hpow in Hmod.
      apply Z.mod_divide in Hmod; [|lia]; destruct Hmod as [q Hq].
      apply H2.
      * apply IHe; rewrite Hq.
        replace (q * (2 ^ Z.of_nat j * 2)) with (q * 2 * 2 ^ Z.of_nat j)
          by lia.
        apply Z.mod_mul; lia.
      * rewrite IHm, Hq.
        replace (q * (2 ^ Z.of_nat j * 2)) with (q * 2 * 2 ^ Z.of_nat j)
          by lia.
        rewrite Z.div_mul by lia; apply Z.mod_mul; lia.
Qed.

Lemma shr_spec (m : Z) (e k : Z) :
  0 <= m ->
  let result := shr {| shr_m := m; shr_r := false; shr_s := false |} e k in
  snd result = e + Z.max 0 k
  /\ shr_m (fst result) = m / 2 ^ Z.max 0 k
  /\ (m mod 2 ^ Z.max 0 k = 0 -> shr_exact (fst result)).
Proof.
  intros Hm; destruct k as [|p|p]; cbn [shr fst snd Z.max Z.compare].
  - rewrite Z.add_0_r, Z.pow_0_r, Z.div_1_r; cbn [shr_m].
    split; [reflexivity|split; [reflexivity|intros _; now split]].
  - rewrite iter_pos_nat.
    destruct (shr_iter_spec (Pos.to_nat p) m Hm) as [H1 H2].
    rewrite positive_nat_Z in H1, H2.
    split; [reflexivity|split; assumption].
  - rewrite Z.add_0_r, Z.pow_0_r, Z.div_1_r; cbn [shr_m].
    split; [reflexivity|split; [reflexivity|intros _; now split]].
Qed.

Lemma digits2_pos_spec (m : positive) :
  2 ^ (Zpos (digits2_pos m) - 1) <= Zpos m < 2 ^ Zpos (digits2_pos m).
Proof.
  induction m as [m IH|m IH|]; cbn [digits2_pos].
  - rewrite Pos2Z.inj_succ.
    replace (Z.succ (Zpos (digits2_pos m)) - 1)
      with (Z.succ (Zpos (digits2_pos m) - 1)) by lia.
    rewrite !Z.pow_succ_r by lia; lia.
  - rewrite Pos2Z.inj_succ.
    replace (Z.succ (Zpos (digits2_pos m)) - 1)
      with (Z.succ (Zpos (digits2_pos m) - 1)) by lia.
    rewrite !Z.pow_succ_r by lia; lia.
  - cbn; lia.
Qed.

(** A number below [2 ^ b] has at most [b] digits. *)
Lemma Zdigits2_le (m b : Z) : 0 <= m < 2 ^ b -> 0 <= b -> 0 <= Zdigits2 m <= b.
Proof.
  intros [Hm Hlt] Hb; destruct m as [|p|p]; cbn [Zdigits2]; [lia| |lia].
  destruct (digits2_pos_spec p) as [Hlo _]; split; [lia|].
  destruct (Z.le_gt_cases (Zpos (digits2_pos p)) b) as [|Hgt]; [assumption|].
  assert (2 ^ b <= 2 ^ (Zpos (digits2_pos p) - 1))
    by (apply Z.pow_le_mono_r; lia).
  lia.
Qed.

Lemma round_nearest_even_spec (mrs : shr_record) :
  shr_m mrs
    <= round_nearest_even (shr_m mrs) (loc_of_shr_record mrs)
    <= shr_m mrs + 1
  /\ (shr_exact mrs ->
      round_nearest_even (shr_m mrs) (loc_of_shr_record mrs) = shr_m mrs).
Proof.
  destruct mrs as [m [|] [|]]; unfold shr_exact;
    cbn [shr_m shr_r shr_s loc_of_shr_record round_nearest_even];
    try destruct (Z.even m); split; try lia; intros [? ?];
    try discriminate; reflexivity.
Qed.

Lemma fexp_binary64 (x : Z) : fexp prec emax x = Z.max (x - 53) (-1074).
Proof. reflexivity. Qed.

Lemma magnitude_nonpos (m e : Z) :
  e <= 0 -> (if 0 <=? e then m * 2 ^ e else m / 2 ^ (- e)) = m / 2 ^ (- e).
Proof.
  intros He; destruct (Z.leb_spec 0 e); [|reflexivity].
  assert (e = 0) as -> by lia; cbn; rewrite Z.div_1_r; lia.
Qed.

(** The last steps of a rounding: a mantissa [m] at a scale [x] that is
    not positive comes out with [m * 2 ^ x], truncated, as its integer
    part, provided it is below [2 ^ 53]. *)
Lemma round_last (m x n : Z) :
  x <= 0 -> 0 <= m <= n * 2 ^ (- x) -> n < 2 ^ 53 ->
  int_of_float
    (let '(mrs, e) := shr_fexp prec emax m x loc_Exact in
     match shr_m mrs with
     | Z0 => S754_zero false
     | Zpos m' =>
         if e <=? emax - prec then S754_finite false m' e
         else S754_infinity false
     | Zneg _ => S754_nan
     end)
  = Return (m / 2 ^ (- x)).
Proof.
  intros Hx [Hm Hmn] Hn.
  assert (Hpow : 0 < 2 ^ (- x)) by (apply Z.pow_pos_nonneg; lia).
  assert (Hdigits : 0 <= Zdigits2 m <= 53 - x).
  { apply Zdigits2_le; [|lia]; split; [exact Hm|].
    replace (53 - x) with (53 + - x) by lia.
    rewrite Z.pow_add_r by lia.
    assert (n * 2 ^ (- x) < 2 ^ 53 * 2 ^ (- x))
      by (apply Z.mul_lt_mono_pos_r; lia).
    lia. }
  unfold shr_fexp; cbn [shr_record_of_loc]; rewrite fexp_binary64.
  set (k := Z.max (Zdigits2 m + x - 53) (-1074) - x).
  destruct (shr_spec m x k Hm) as (He & Hs & _).
  destruct (shr {| shr_m := m; shr_r := false; shr_s := false |} x k)
    as [mrs e]; cbn [fst snd] in He, Hs.
  assert (Hk : Z.max 0 k <= - x) by (unfold k; lia).
  assert (He0 : e <= 0) by lia.
  assert (Hdiv : m / 2 ^ (- x) = shr_m mrs / 2 ^ (- e)).
  { rewrite Hs, Z.div_div by (try apply Z.pow_pos_nonneg; lia).
    rewrite <- Z.pow_add_r by lia; f_equal; f_equal; lia. }
  assert (Hm' : 0 <= shr_m mrs)
    by (rewrite Hs; apply Z.div_pos; [lia|apply Z.pow_pos_nonneg; lia]).
  destruct (shr_m mrs) as [|m'|m'] eqn:E; [| |lia].
  - cbn [int_of_float]; now rewrite Hdiv, Z.div_0_l
      by (apply Z.pow_nonzero; lia).
  - replace (e <=? emax - prec) with true
      by (symmetry; apply Z.leb_le; unfold emax, prec; lia).
    cbn [int_of_float]; now rewrite magnitude_nonpos, Hdiv.
Qed.
(** The rounding of [M * 2 ^ E], a number that is at most the integer
    [n] below [2 ^ 53]: its integer part is at most [n], and is [n] when
    the number is [n]. *)
Lemma round_bounded (M : positive) (E n : Z) :
  E <= 0 -> 0 <= n < 2 ^ 53 -> Zpos M <= n * 2 ^ (- E) ->
  exists z,
    int_of_float (binary_round_aux prec emax false (Zpos M) E loc_Exact)
    = Return z
    /\ 0 <= z <= n
    /\ (Zpos M = n * 2 ^ (- E) -> z = n).
Proof.
  intros HE [Hn0 Hn] HM.
  assert (HpowE : 0 < 2 ^ (- E)) by (apply Z.pow_pos_nonneg; lia).
  assert (Hdigits : Zpos (digits2_pos M) <= 53 - E).
  { apply (Zdigits2_le (Zpos M)); [|lia]; split; [lia|].
    replace (53 - E) with (53 + - E) by lia.
    rewrite Z.pow_add_r by lia.
    assert (n * 2 ^ (- E) < 2 ^ 53 * 2 ^ (- E))
      by (apply Z.mul_lt_mono_pos_r; lia).
    lia. }
  unfold binary_round_aux, shr_fexp at 1.
  cbn [shr_record_of_loc Zdigits2]; rewrite fexp_binary64.
  set (k := Z.max (Zpos (digits2_pos M) + E - 53) (-1074) - E).
  destruct (shr_spec (Zpos M) E k ltac:(lia)) as (He & Hs & Hexact).
  destruct (shr {| shr_m := Zpos M; shr_r := false; shr_s := false |} E k)
    as [mrs x]; cbn [fst snd] in He, Hs, Hexact.
  destruct (round_nearest_even_spec mrs) as [Hround Hround_exact].
  set (m2 := round_nearest_even (shr_m mrs) (loc_of_shr_record mrs)) in *.
  assert (Hk : 0 <= Z.max 0 k <= - E) by (unfold k; lia).
  assert (Hx : x <= 0) by lia.
  assert (Hpowk : 0 < 2 ^ Z.max 0 k) by (apply Z.pow_pos_nonneg; lia).
  assert (Hpowx : 0 < 2 ^ (- x)) by (apply Z.pow_pos_nonneg; lia).
  assert (Hsplit : 2 ^ (- E) = 2 ^ (- x) * 2 ^ Z.max 0 k)
    by (rewrite <- Z.pow_add_r by lia; f_equal; lia).
  assert (Hm1 : 0 <= shr_m mrs <= n * 2 ^ (- x)).
  { rewrite Hs; split; [apply Z.div_pos; lia|].
    apply Z.div_le_upper_bound; [lia|].
    rewrite Hsplit in HM; lia. }
  assert (Hm2 : 0 <= m2 <= n * 2 ^ (- x)).
  { split; [lia|].
    destruct (Z.eq_dec (shr_m mrs) (n * 2 ^ (- x))) as [Heq|Hne]; [|lia].
    assert (HMeq : Zpos M = n * 2 ^ (- x) * 2 ^ Z.max 0 k).
    { pose proof (Z.mul_div_le (Zpos M) (2 ^ Z.max 0 k) Hpowk) as Hle.
      rewrite <- Hs, Heq in Hle; rewrite Hsplit in HM; lia. }
    rewrite Hround_exact; [lia|].
    apply Hexact; rewrite HMeq; apply Z.mod_mul; lia. }
  exists (m2 / 2 ^ (- x)); split; [|split].
  - exact (round_last m2 x n Hx Hm2 Hn).
  - split; [apply Z.div_pos; lia|].
    apply Z.div_le_upper_bound; lia.
  - intros HMeq; rewrite Hsplit in HMeq.
    rewrite Hround_exact.
    + rewrite Hs, HMeq, Z.mul_assoc, Z.div_mul, Z.div_mul by lia.
      reflexivity.
    + apply Hexact; rewrite HMeq, Z.mul_assoc; apply Z.mod_mul; lia.
Qed.

Lemma iter_xO_spec (p d : positive) :
  Zpos (Pos.iter xO p d) = Zpos p * 2 ^ Zpos d
  /\ digits2_pos (Pos.iter xO p d) = (digits2_pos p + d)%positive.
Proof.
  induction d as [|d [IH1 IH2]] using Pos.peano_ind.
  - cbn [Pos.iter digits2_pos]; split; [lia|now rewrite Pos.add_1_r].
  - rewrite Pos.iter_succ; cbn [digits2_pos]; split.
    + rewrite Pos2Z.inj_succ, Z.pow_succ_r by lia.
      rewrite (Pos2Z.inj_xO (Pos.iter xO p d)), IH1; lia.
    + now rewrite IH2, Pos.add_succ_r.
Qed.

(** A mantissa of 53 digits is left as it is. *)
Lemma round_canonical (m : positive) (e : Z) :
  Zpos (digits2_pos m) = 53 -> -1074 <= e <= 971 ->
  binary_round_aux prec emax false (Zpos m) e loc_Exact
  = S754_finite false m e.
Proof.
  intros Hd He; unfold binary_round_aux, shr_fexp.
  cbn [Zdigits2 shr_record_of_loc]; rewrite fexp_binary64, Hd.
  replace (Z.max (53 + e - 53) (-1074) - e) with 0 by lia.
  cbn [shr shr_m loc_of_shr_record round_nearest_even Zdigits2].
  rewrite fexp_binary64, Hd.
  replace (Z.max (53 + e - 53) (-1074) - e) with 0 by lia.
  cbn [shr shr_m].
  now replace (e <=? emax - prec) with true
    by (symmetry; apply Z.leb_le; unfold emax, prec; lia).
Qed.

(** An [int] below [2 ^ 53] is a float. *)
Lemma float_of_int_exact (n : Z) :
  0 < n < 2 ^ 53 ->
  exists m e,
    float_of_int n = Return (S754_finite false m e)
    /\ e <= 0 /\ Zpos m = n * 2 ^ (- e).
Proof.
  intros [Hn0 Hn]; destruct n as [|p|p]; try lia.
  unfold float_of_int, binary_normalize, binary_round.
  rewrite fexp_binary64, Z.add_0_r.
  destruct (digits2_pos_spec p) as [Hlo Hhi].
  assert (Hd : 1 <= Zpos (digits2_pos p) <= 53).
  { split; [lia|].
    apply (Zdigits2_le (Zpos p)); lia. }
  replace (Z.max (Zpos (digits2_pos p) - 53) (-1074))
    with (Zpos (digits2_pos p) - 53) by lia.
  unfold shl_align; rewrite Z.sub_0_r.
  destruct (Zpos (digits2_pos p) - 53) as [|d|d] eqn:Ed; try lia.
  - rewrite round_canonical by lia.
    exists p, 0; split; [reflexivity|]; split; [lia|cbn; lia].
  - destruct (iter_xO_spec p d) as [Hval Hdig].
    rewrite round_canonical by (rewrite ?Hdig; lia).
    exists (Pos.iter xO p d), (Zneg d); split; [reflexivity|].
    split; [lia|exact Hval].
Qed.

(** A float of the unit interval: a zero, or a mantissa [m] and an
    exponent [e] with [m * 2 ^ e] at most 1. *)
Lemma in_unit_interval_spec (x : float) :
  in_unit_interval x = true ->
  (exists s, x = S754_zero s)
  \/ exists m e, x = S754_finite false m e /\ e <= 0 /\ Zpos m <= 2 ^ (- e).
Proof.
  unfold in_unit_interval; intros H.
  apply andb_true_iff in H; destruct H as [H H1].
  apply andb_true_iff in H; destruct H as [Hv H0].
  destruct x as [s|s| |s m e];
    [left; now exists s|destruct s; vm_compute in H0, H1; discriminate
    |vm_compute in H0; discriminate|].
  right; exists m, e.
  destruct s; [vm_compute in H0; discriminate|]; split; [reflexivity|].
  cbn [valid_binary] in Hv; unfold bounded, canonical_mantissa in Hv.
  apply andb_true_iff in Hv; destruct Hv as [Hc _].
  rewrite fexp_binary64 in Hc; apply Z.eqb_eq in Hc.
  destruct (digits2_pos_spec m) as [_ Hhi].
  assert (Hm : Zpos m < 2 ^ 53).
  { eapply Z.lt_le_trans; [exact Hhi|apply Z.pow_le_mono_r; lia]. }
  unfold SFleb, SFcompare, float_1_0 in H1.
  destruct (Z.compare_spec e (-52)) as [->|Hlt|Hgt]; try discriminate.
  - split; [lia|].
    change (2 ^ (- -52)) with (Zpos 4503599627370496).
    assert (Hcompare : forall a b : positive,
              Pos.compare_cont Eq a b = (Zpos a ?= Zpos b))
      by reflexivity.
    rewrite Hcompare in H1.
    destruct (Z.compare_spec (Zpos m) (Zpos 4503599627370496));
      try discriminate; lia.
  - split; [lia|].
    assert (2 ^ 53 <= 2 ^ (- e)) by (apply Z.pow_le_mono_r; lia).
    lia.
Qed.

Section Offsets.

Import split_long_examples.

(** For a stride between 0.0 and 1.0 the offset of a window of fewer
    than [2 ^ 53] words is computed without an exception and lies in the
    window. *)
Lemma offset_of_unit (stride : float) (n : Z) :
  in_unit_interval stride = true -> 0 <= n < 2 ^ 53 ->
  exists offset, offset_of stride n = Return offset /\ 0 <= offset <= n.
Proof.
  intros Hs [Hn0 Hn]; unfold offset_of.
  destruct (Z.eq_dec n 0) as [->|Hne].
  - exists 0; split; [|lia].
    destruct (in_unit_interval_spec stride Hs) as [[s ->]|(m & e & -> & _)];
      reflexivity.
  - destruct (float_of_int_exact n ltac:(lia)) as (mn & en & -> & Hen & Hmn).
    destruct (in_unit_interval_spec stride Hs)
      as [[s ->]|(ms & es & -> & Hes & Hms)].
    + exists 0; split; [reflexivity|lia].
    + unfold float_mul; cbn [SFmul xorb].
      destruct (round_bounded (mn * ms) (en + es) n) as (z & Hz & Hrange & _);
        [lia|lia| |now exists z].
      rewrite Pos2Z.inj_mul, Hmn.
      replace (- (en + es)) with (- en + - es) by lia.
      rewrite Z.pow_add_r by lia.
      assert (0 < 2 ^ (- en)) by (apply Z.pow_pos_nonneg; lia).
      nia.
Qed.

Lemma offset_of_one (n : Z) :
  0 <= n < 2 ^ 53 -> offset_of float_1_0 n = Return n.
Proof.
  intros [Hn0 Hn]; unfold offset_of.
  destruct (Z.eq_dec n 0) as [->|Hne]; [reflexivity|].
  destruct (float_of_int_exact n ltac:(lia)) as (mn & en & -> & Hen & Hmn).
  unfold float_mul, float_1_0; cbn [SFmul xorb].
  destruct (round_bounded (mn * 4503599627370496) (en + -52) n)
    as (z & Hz & _ & Hexact); [lia|lia| |].
  - rewrite Pos2Z.inj_mul, Hmn.
    replace (- (en + -52)) with (- en + 52) by lia.
    rewrite Z.pow_add_r by lia.
    change (2 ^ 52) with (Zpos 4503599627370496); lia.
  - rewrite Hz, Hexact; [reflexivity|].
    rewrite Pos2Z.inj_mul, Hmn.
    replace (- (en + -52)) with (- en + 52) by lia.
    rewrite Z.pow_add_r by lia.
    change (2 ^ 52) with (Zpos 4503599627370496); lia.
Qed.

Lemma offset_of_zero (n : Z) :
  0 <= n < 2 ^ 53 -> offset_of float_0_0 n = Return 0.
Proof.
  intros [Hn0 Hn]; unfold offset_of.
  destruct (Z.eq_dec n 0) as [->|Hne]; [reflexivity|].
  now destruct (float_of_int_exact n ltac:(lia)) as (mn & en & -> & _).
Qed.

End Offsets.

(* ================================================================== *)
(** * The sequence chunker *)
(* ================================================================== *)

Section Chunker.

Import DataFrame split_long_examples.

Variable tokenize : pystr -> list pystr.
Variable max_seq_len : Z.
Variable stride : float.

(** [offset] gives the offsets that the flushes compute on windows of
    at most [bound] rows, and they lie in the window. *)
Variable offset : Z -> Z.
Variable bound : Z.
Hypothesis offset_of_offset :
  forall n, 0 <= n <= bound ->
    offset_of stride n = Return (offset n) /\ 0 <= offset n <= n.

Lemma subwords_nonneg x : 0 <= subwords tokenize x.
Proof. apply len_nonneg. Qed.

Lemma tag_windows_app sid c ws1 ws2 :
  tag_windows sid c (ws1 ++ ws2)
  = tag_windows sid c ws1 ++ tag_windows sid (c + len ws1) ws2.
Proof.
  revert c; induction ws1 as [|w ws1 IH]; intros c; simpl.
  - now rewrite Z.add_0_r.
  - rewrite IH, <- app_assoc; do 3 f_equal.
    unfold len; simpl length; lia.
Qed.

(** A turn of the loop that flushes. *)
Lemma step_flush sid out w r :
  coherent tokenize w ->
  len (words_with_labels w) <= bound ->
  (sum (map (subwords tokenize) (words_with_labels w))
     + subwords tokenize (untagged r) >=? max_seq_len - 1) = true ->
  exists w1,
    step tokenize max_seq_len stride sid (out, w) r
      = Return
          (out ++ map (tagged sid (chunk_id w)) (words_with_labels w), w1)
    /\ words_with_labels w1
       = slice_from (offset (len (words_with_labels w)))
                    (words_with_labels w) ++ [untagged r]
    /\ chunk_id w1 = chunk_id w + 1
    /\ coherent tokenize w1.
Proof.
  destruct w as [wwl n tl tls cid]; intros (Hn & Htls & Htl) Hb E.
  cbn [tokenized_len words_with_labels words_in_example token_lens chunk_id]
    in *.
  unfold step; cbn [tokenized_len words_in_example].
  change (subwords tokenize (untagged r)) with (len (tokenize (words r))) in E.
  rewrite <- Htls, <- Htl in E; rewrite E.
  destruct (offset_of_offset n) as [-> Ho];
    [subst n; split; [apply len_nonneg|exact Hb]|].
  eexists; split; [reflexivity|].
  cbn [tokenized_len words_with_labels words_in_example token_lens chunk_id].
  split; [now rewrite Hn|]. split; [reflexivity|].
  split; [|split];
    cbn [tokenized_len words_with_labels words_in_example token_lens].
  - rewrite len_app, len_slice_from by (rewrite <- Hn; exact Ho).
    change (len [(words r, labels r, times r)]) with 1; lia.
  - rewrite map_app, <- slice_from_map, <- Htls; reflexivity.
  - rewrite Htl.
    rewrite <- (slice_to_from (offset n) tls) at 1.
    rewrite !sum_app, sum_singleton; lia.
Qed.

(** A turn of the loop that does not. *)
Lemma step_keep sid out w r :
  coherent tokenize w ->
  (sum (map (subwords tokenize) (words_with_labels w))
     + subwords tokenize (untagged r) >=? max_seq_len - 1) = false ->
  exists w1,
    step tokenize max_seq_len stride sid (out, w) r = Return (out, w1)
    /\ words_with_labels w1 = words_with_labels w ++ [untagged r]
    /\ chunk_id w1 = chunk_id w
    /\ coherent tokenize w1.
Proof.
  destruct w as [wwl n tl tls cid]; intros (Hn & Htls & Htl) E.
  cbn [tokenized_len words_with_labels words_in_example token_lens chunk_id]
    in *.
  unfold step; cbn [tokenized_len].
  change (subwords tokenize (untagged r)) with (len (tokenize (words r))) in E.
  rewrite <- Htls, <- Htl in E; rewrite E.
  eexists; split; [reflexivity|].
  cbn [tokenized_len words_with_labels words_in_example token_lens chunk_id].
  split; [reflexivity|]. split; [reflexivity|].
  split; [|split];
    cbn [tokenized_len words_with_labels words_in_example token_lens].
  - rewrite len_app; change (len [(words r, labels r, times r)]) with 1; lia.
  - rewrite map_app, <- Htls; reflexivity.
  - rewrite sum_app, sum_singleton; lia.
Qed.

(** The loop over the rows of a sentence raises nothing; it flushes the
    windows of [windows_from] but the last, which it leaves in the
    accumulators. *)
Lemma fold_step_windows (sid : Z) (example : list (row Z)) :
  forall out w, coherent tokenize w ->
  len (words_with_labels w) + len example <= bound ->
  exists ws W w',
    fold_outcome (step tokenize max_seq_len stride sid) example (out, w)
      = Return (out ++ tag_windows sid (chunk_id w) ws, w')
    /\ windows_from tokenize max_seq_len offset
         (words_with_labels w) (map untagged example) = ws ++ [W]
    /\ words_with_labels w' = W
    /\ chunk_id w' = chunk_id w + len ws
    /\ coherent tokenize w'.
Proof.
  induction example as [|r example IH]; intros out w Hw Hb.
  - exists [], (words_with_labels w), w; simpl.
    rewrite app_nil_r, Z.add_0_r; auto.
  - assert (Hlen : len (r :: example) = 1 + len example)
      by (unfold len; cbn [length]; lia).
    pose proof (len_nonneg example) as Hex.
    pose proof (len_nonneg (words_with_labels w)) as Hwn.
    cbn [fold_outcome map windows_from].
    destruct (sum (map (subwords tokenize) (words_with_labels w))
              + subwords tokenize (untagged r) >=? max_seq_len - 1) eqn:E.
    + destruct (step_flush sid out w r Hw ltac:(lia) E)
        as (w1 & Hs & Hwwl & Hcid & Hw1).
      destruct (offset_of_offset (len (words_with_labels w)) ltac:(lia))
        as [_ Ho].
      destruct (IH (out ++ map (tagged sid (chunk_id w)) (words_with_labels w))
                   w1 Hw1) as (ws & W & w' & Hf & Hws & HW & Hc & Hg).
      { rewrite Hwwl, len_app, len_slice_from by exact Ho.
        change (len [untagged r]) with 1; lia. }
      exists (words_with_labels w :: ws), W, w'.
      rewrite Hs, Hf, <- Hwwl, Hws, Hcid; simpl tag_windows.
      rewrite <- app_assoc.
      split; [reflexivity|]. split; [reflexivity|]. split; [exact HW|].
      split; [|exact Hg].
      rewrite Hc, Hcid; unfold len; simpl length; lia.
    + destruct (step_keep sid out w r Hw E) as (w1 & Hs & Hwwl & Hcid & Hw1).
      destruct (IH out w1 Hw1) as (ws & W & w' & Hf & Hws & HW & Hc & Hg).
      { rewrite Hwwl, len_app; change (len [untagged r]) with 1; lia. }
      exists ws, W, w'.
      rewrite Hs, Hf, <- Hwwl, Hws, Hcid.
      split; [reflexivity|]. split; [reflexivity|]. split; [exact HW|].
      split; [|exact Hg].
      now rewrite Hc, Hcid.
Qed.

(** What [split_example] emits for a sentence: its windows, numbered
    from zero, after what was there. *)
Lemma split_example_windows out (sid : Z) (example : list (row Z)) :
  len example <= bound ->
  split_example tokenize max_seq_len stride out (sid, example)
  = Return
      (out ++ tag_windows sid 0
                (windows_from tokenize max_seq_len offset []
                   (map untagged example))).
Proof.
  intros Hb; unfold split_example.
  match goal with |- context [fold_outcome _ _ (?o, ?w1)] =>
    destruct (fold_step_windows sid example o w1)
      as (ws & W & w' & Hf & Hws & HW & Hc & Hn & Htls & Htl)
  end.
  { split; [reflexivity|split; reflexivity]. }
  { exact Hb. }
  rewrite Hf.
  simpl in Hws, Hc. rewrite Hws, tag_windows_app.
  assert (0 <= tokenized_len w') as Hpos.
  { rewrite Htl, Htls; apply sum_map_nonneg, subwords_nonneg. }
  destruct (Z.geb_spec (tokenized_len w') 0); [|lia].
  simpl tag_windows. rewrite app_nil_r, <- app_assoc, HW, Hc.
  reflexivity.
Qed.

Lemma fold_split_example (groups : list (Z * list (row Z))) :
  Forall (fun g => len (snd g) <= bound) groups ->
  forall out,
  fold_outcome (split_example tokenize max_seq_len stride) groups out
  = Return
      (out ++ flat_map (fun g => tag_windows (fst g) 0
                          (windows_from tokenize max_seq_len offset []
                             (map untagged (snd g)))) groups).
Proof.
  induction 1 as [|[sid example] groups Hg _ IH]; intros out;
    cbn [fold_outcome flat_map fst snd].
  - now rewrite app_nil_r.
  - rewrite split_example_windows by exact Hg.
    now rewrite IH, <- app_assoc.
Qed.

Lemma len_filter_le {A} (f : A -> bool) (l : list A) :
  len (filter f l) <= len l.
Proof.
  unfold len; induction l as [|x l IH]; cbn [filter]; [lia|].
  destruct (f x); cbn [length]; lia.
Qed.

(** On a table of at most [bound] rows the chunker raises nothing and
    returns the windows of each sentence, tagged. *)
Lemma split_long_examples_chunked (data : list (row Z)) :
  len data <= bound ->
  _split_long_examples tokenize max_seq_len stride data
  = Return (chunked tokenize max_seq_len offset data).
Proof.
  intros Hb; unfold _split_long_examples, chunked.
  rewrite fold_split_example; [reflexivity|].
  unfold groupby; apply Forall_forall; intros g Hg.
  apply in_map_iff in Hg; destruct Hg as (k & <- & _); cbn [snd].
  pose proof (len_filter_le (fun r => sentence_id r =? k) data); lia.
Qed.

Lemma filter_tag_windows_sentence (k sid c : Z) ws :
  filter (fun r : row (Z * Z) => fst (sentence_id r) =? k)
         (tag_windows sid c ws)
  = if sid =? k then tag_windows sid c ws else [].
Proof.
  revert c; induction ws as [|w ws IH]; intros c; simpl.
  - now destruct (sid =? k).
  - rewrite filter_app, IH.
    assert (Hw : filter (fun r : row (Z * Z) => fst (sentence_id r) =? k)
                        (map (tagged sid c) w)
                 = if sid =? k then map (tagged sid c) w else []).
    { clear; induction w as [|[[a b] d] w IHw]; simpl.
      - now destruct (sid =? k).
      - rewrite IHw; now destruct (sid =? k). }
    rewrite Hw; now destruct (sid =? k).
Qed.

(** The rows of sentence [k] in the output are the windows of that
    sentence, in the order of their flushes. *)
Lemma chunked_sentence (data : list (row Z)) (k : Z) :
  filter (fun r : row (Z * Z) => fst (sentence_id r) =? k)
         (chunked tokenize max_seq_len offset data)
  = tag_windows k 0
      (windows_from tokenize max_seq_len offset [] (sentence data k)).
Proof.
  unfold chunked; simpl.
  unfold groupby; rewrite flat_map_concat_map, map_map; simpl.
  rewrite <- flat_map_concat_map.
  rewrite (filter_flat_map_keys (fun r : row (Z * Z) => fst (sentence_id r))
             (fun x => tag_windows x 0
                (windows_from tokenize max_seq_len offset []
                   (map untagged
                      (filter (fun r => sentence_id r =? x) data))))).
  - destruct (existsb (Z.eqb k) _) eqn:E; [reflexivity|].
    unfold sentence; rewrite filter_sentence_absent; [reflexivity|].
    intros Hk; apply keys_In in Hk.
    assert (existsb (Z.eqb k)
              (fold_right insert_key [] (map sentence_id data)) = true)
      by (apply existsb_exists; exists k; split; [exact Hk|apply Z.eqb_refl]).
    congruence.
  - intros x; apply filter_tag_windows_sentence.
  - apply keys_NoDup.
Qed.

Lemma untagged_tagged sid c x : untagged (tagged sid c x) = x.
Proof. now destruct x as [[a b] d]. Qed.

Lemma untagged_tag_windows sid c ws :
  map untagged (tag_windows sid c ws) = concat ws.
Proof.
  revert c; induction ws as [|w ws IH]; intros c; simpl; [reflexivity|].
  rewrite map_app, IH, map_map; f_equal.
  rewrite <- (map_id w) at 2; apply map_ext, untagged_tagged.
Qed.

(** Below the threshold nothing is flushed before the end. *)
Lemma windows_from_below (rest current : list (pystr * pystr * pystr)) :
  sum (map (subwords tokenize) (current ++ rest)) < max_seq_len - 1 ->
  windows_from tokenize max_seq_len offset current rest = [current ++ rest].
Proof.
  revert current; induction rest as [|x rest IH]; intros current H; simpl.
  - now rewrite app_nil_r.
  - pose proof (sum_map_nonneg (subwords tokenize) rest subwords_nonneg).
    rewrite map_app, sum_app in H; simpl map in H; rewrite sum_cons in H.
    destruct (Z.geb_spec (sum (map (subwords tokenize) current)
                          + subwords tokenize x) (max_seq_len - 1)); [lia|].
    rewrite IH, <- app_assoc; [reflexivity|].
    rewrite <- app_assoc, map_app, sum_app; simpl map; rewrite sum_cons; lia.
Qed.

(** The first window is the current one extended by rows to come. *)
Lemma windows_from_head (rest current : list (pystr * pystr * pystr)) :
  exists p q ws,
    rest = p ++ q
    /\ windows_from tokenize max_seq_len offset current rest
       = (current ++ p) :: ws.
Proof.
  revert current; induction rest as [|x rest IH]; intros current; simpl.
  - exists [], [], []; split; [reflexivity|now rewrite app_nil_r].
  - destruct (_ >=? _).
    + exists [], (x :: rest); eexists.
      split; [reflexivity|now rewrite app_nil_r].
    + destruct (IH (current ++ [x])) as (p & q & ws & -> & ->).
      exists (x :: p), q, ws; now rewrite <- app_assoc.
Qed.

(** Two windows in a row: the second is the first from the offset on,
    followed by the rows that come right after the first. *)
Lemma windows_from_consecutive (rest current pre : list (pystr * pystr * pystr))
    (i : nat) (W W' : list (pystr * pystr * pystr)) :
  nth_error (windows_from tokenize max_seq_len offset current rest) i
    = Some W ->
  nth_error (windows_from tokenize max_seq_len offset current rest) (S i)
    = Some W' ->
  exists pre' added post,
    pre ++ current ++ rest = pre' ++ W ++ added ++ post
    /\ added <> []
    /\ W' = slice_from (offset (len W)) W ++ added.
Proof.
  revert current pre i; induction rest as [|x rest IH]; intros current pre i.
  - simpl; intros _ H; destruct i; discriminate.
  - cbn [windows_from]; destruct (_ >=? _).
    + destruct i as [|i]; cbn [nth_error].
      * intros [= <-] HW'.
        destruct (windows_from_head rest
                    (slice_from (offset (len current)) current ++ [x]))
          as (p & q & ws & -> & Hws).
        rewrite Hws in HW'; injection HW' as <-.
        exists pre, (x :: p), q; split; [reflexivity|].
        split; [discriminate|now rewrite <- app_assoc].
      * intros HW HW'.
        destruct (IH _ (pre ++ slice_to (offset (len current)) current)
                     i HW HW') as (pre' & added & post & Heq & Hne & HWeq).
        exists pre', added, post; split; [|now split].
        rewrite <- Heq, <- !app_assoc.
        rewrite <- (slice_to_from (offset (len current)) current) at 1.
        now rewrite <- !app_assoc.
    + intros HW HW'.
      destruct (IH _ pre i HW HW') as (pre' & added & post & Heq & Hne & HWeq).
      exists pre', added, post; split; [|now split].
      now rewrite <- Heq, <- !app_assoc.
Qed.

Lemma filter_tag_windows_later (sid c0 c : Z) ws :
  c < c0 ->
  filter (fun r : row (Z * Z) => snd (sentence_id r) =? c)
         (tag_windows sid c0 ws) = [].
Proof.
  revert c0; induction ws as [|w ws IH]; intros c0 Hc; simpl; [reflexivity|].
  rewrite filter_app, IH, app_nil_r by lia.
  induction w as [|[[a b] d] w IHw]; simpl; [reflexivity|].
  destruct (Z.eqb_spec c0 c); [lia|exact IHw].
Qed.

Lemma filter_tag_windows_chunk (sid c0 c : Z) ws :
  c0 <= c ->
  map untagged
      (filter (fun r : row (Z * Z) => snd (sentence_id r) =? c)
              (tag_windows sid c0 ws))
  = nth (Z.to_nat (c - c0)) ws [].
Proof.
  revert c0; induction ws as [|w ws IH]; intros c0 Hc; simpl.
  - now destruct (Z.to_nat (c - c0)).
  - rewrite filter_app, map_app.
    destruct (Z.eqb_spec c0 c) as [->|Hne].
    + rewrite filter_tag_windows_later, app_nil_r, Z.sub_diag by lia; simpl.
      induction w as [|[[a b] d] w IHw]; simpl; [reflexivity|].
      rewrite Z.eqb_refl; simpl; now rewrite IHw.
    + rewrite IH by lia.
      replace (Z.to_nat (c - c0)) with (S (Z.to_nat (c - (c0 + 1)))) by lia.
      replace (filter _ (map (tagged sid c0) w)) with (@nil (row (Z * Z)));
        [reflexivity|].
      induction w as [|[[a b] d] w IHw]; simpl; [reflexivity|].
      destruct (Z.eqb_spec c0 c); [lia|exact IHw].
Qed.

Lemma filter_andb {A} (f g : A -> bool) (l : list A) :
  filter (fun x => f x && g x) l = filter g (filter f l).
Proof.
  induction l as [|x l IH]; simpl; [reflexivity|].
  destruct (f x); simpl; [destruct (g x)|]; now rewrite IH.
Qed.

(** Chunk [c] of sentence [k] is the window of that number. *)
Lemma chunk_window (data : list (row Z)) (k c : Z) :
  0 <= c ->
  chunk (chunked tokenize max_seq_len offset data) k c
  = nth (Z.to_nat c)
        (windows_from tokenize max_seq_len offset [] (sentence data k)) [].
Proof.
  intros Hc; unfold chunk.
  rewrite (filter_andb (fun r : row (Z * Z) => fst (sentence_id r) =? k)
                       (fun r : row (Z * Z) => snd (sentence_id r) =? c)).
  rewrite chunked_sentence, filter_tag_windows_chunk by lia.
  now rewrite Z.sub_0_r.
Qed.

Lemma len_sentence_le (data : list (row Z)) (k : Z) :
  len (sentence data k) <= len data.
Proof.
  unfold sentence, len; rewrite length_map.
  apply (len_filter_le (fun r => sentence_id r =? k) data).
Qed.

End Chunker.

Section Strides.

Import DataFrame split_long_examples.

Variable tokenize : pystr -> list pystr.
Variable max_seq_len : Z.

(** The offsets of a stride, as a function; 0 where the flush would
    raise. *)
Lemma offsets_unit (stride : float) :
  in_unit_interval stride = true ->
  exists offset : Z -> Z,
    forall n, 0 <= n <= 2 ^ 53 - 1 ->
      offset_of stride n = Return (offset n) /\ 0 <= offset n <= n.
Proof.
  intros Hs.
  exists (fun n => match offset_of stride n with
                   | Return o => o
                   | Raise _ => 0
                   end).
  intros n Hn.
  destruct (offset_of_unit stride n Hs ltac:(lia)) as (o & -> & Ho).
  now split.
Qed.

Lemma offsets_one (n : Z) :
  0 <= n <= 2 ^ 53 - 1 ->
  offset_of float_1_0 n = Return ((fun n => n) n) /\ 0 <= (fun n => n) n <= n.
Proof. intros Hn; split; [apply offset_of_one|]; lia. Qed.

Lemma offsets_zero (n : Z) :
  0 <= n <= 2 ^ 53 - 1 ->
  offset_of float_0_0 n = Return ((fun _ => 0) n)
  /\ 0 <= (fun _ : Z => 0) n <= n.
Proof. intros Hn; split; [apply offset_of_zero|]; lia. Qed.

(** With stride 1.0 the windows are the rows, cut. *)
Lemma windows_from_concat_stride_one
    (rest current : list (pystr * pystr * pystr)) :
  concat (windows_from tokenize max_seq_len (fun n => n) current rest)
  = current ++ rest.
Proof.
  revert current; induction rest as [|x rest IH]; intros current; simpl.
  - now rewrite !app_nil_r.
  - destruct (_ >=? _); simpl; rewrite IH.
    + now rewrite slice_from_all.
    + now rewrite <- app_assoc.
Qed.

End Strides.
(** C2. With stride 1.0 and any budget, on a table of fewer than [2 ^ 53]
    rows, the chunker returns, and what it emits for a sentence is a list
    of chunks numbered from 0 in emission order, the rows of each chunk
    carrying its number: chunk [c] of the output is the [c]-th of them.
    Concatenated in that order the chunks are the rows of the sentence:
    none is dropped, none is repeated. A sentence whose subword lengths
    add up to less than the threshold comes out as the single chunk 0. *)
Theorem split_stride_one_partition
    (tokenize : pystr -> list pystr) (max_seq_len : Z)
    (data : list (DataFrame.row Z)) (sentence_id : Z) :
  len data < 2 ^ 53 ->
  exists splitted_data chunks,
    split_long_examples._split_long_examples
      tokenize max_seq_len float_1_0 data = Return splitted_data
    /\ let emitted :=
         filter (fun r : DataFrame.row (Z * Z) =>
                   fst (DataFrame.sentence_id r) =? sentence_id)
                splitted_data in
       emitted = split_long_examples.tag_windows sentence_id 0 chunks
       /\ (forall c, 0 <= c ->
             split_long_examples.chunk splitted_data sentence_id c
             = nth (Z.to_nat c) chunks [])
       /\ concat chunks = split_long_examples.sentence data sentence_id
       /\ map split_long_examples.untagged emitted
          = split_long_examples.sentence data sentence_id
       /\ (sum (map (split_long_examples.subwords tokenize)
                    (split_long_examples.sentence data sentence_id))
             < max_seq_len - 1 ->
           chunks = [split_long_examples.sentence data sentence_id]
           /\ emitted
              = map (split_long_examples.tagged sentence_id 0)
                    (split_long_examples.sentence data sentence_id)).
Proof.
  intros Hlen.
  exists (split_long_examples.chunked tokenize max_seq_len (fun n => n) data),
         (split_long_examples.windows_from tokenize max_seq_len (fun n => n)
            [] (split_long_examples.sentence data sentence_id)).
  split.
  { apply (split_long_examples_chunked tokenize max_seq_len float_1_0
             (fun n => n) (2 ^ 53 - 1) offsets_one); lia. }
  intros emitted; subst emitted.
  rewrite chunked_sentence.
  split; [reflexivity|].
  split; [intros c Hc; now apply chunk_window|].
  split; [apply windows_from_concat_stride_one|].
  split;
    [now rewrite untagged_tag_windows, windows_from_concat_stride_one|].
  intros H; rewrite windows_from_below by exact H.
  split; [reflexivity|apply app_nil_r].
Qed.

(** Under a budget of 256 the ten words stay together in chunk 0; under
    a budget of 5 they come out whole as well, in the four disjoint chunks
    [abc], [def], [ghi] and [j]. *)
Lemma split_stride_one_ten_words :
  (exists splitted_data,
     split_long_examples._split_long_examples
       one_subword 256 float_1_0 ten_words = Return splitted_data
     /\ filter (fun r : DataFrame.row (Z * Z) =>
                  fst (DataFrame.sentence_id r) =? 7) splitted_data
        = map (split_long_examples.tagged 7 0)
              (split_long_examples.sentence ten_words 7))
  /\ (exists splitted_data chunks,
        split_long_examples._split_long_examples
          one_subword 5 float_1_0 ten_words = Return splitted_data
        /\ filter (fun r : DataFrame.row (Z * Z) =>
                     fst (DataFrame.sentence_id r) =? 7) splitted_data
           = split_long_examples.tag_windows 7 0 chunks
        /\ (forall c, 0 <= c ->
              split_long_examples.chunk splitted_data 7 c
              = nth (Z.to_nat c) chunks [])
        /\ concat chunks = split_long_examples.sentence ten_words 7)
  /\ exists splitted_data,
       split_long_examples._split_long_examples
         one_subword 5 float_1_0 ten_words = Return splitted_data
       /\ map (fun c => concat (map fst (map fst
                          (split_long_examples.chunk splitted_data 7 c))))
              [0; 1; 2; 3; 4]
          = [str "abc"; str "def"; str "ghi"; str "j"; []].
Proof.
  split; [|split].
  - destruct (split_stride_one_partition one_subword 256 ten_words 7)
      as (splitted_data & chunks & Hrun & _ & _ & _ & _ & Hbelow);
      [vm_compute; reflexivity|].
    exists splitted_data; split; [exact Hrun|].
    apply Hbelow; vm_compute; reflexivity.
  - destruct (split_stride_one_partition one_subword 5 ten_words 7)
      as (splitted_data & chunks & Hrun & Hemitted & Hchunk & Hconcat & _);
      [vm_compute; reflexivity|].
    exists splitted_data, chunks; split; [exact Hrun|].
    split; [exact Hemitted|]. split; [exact Hchunk|exact Hconcat].
  - eexists; split; vm_compute; reflexivity.
Defined.

(** C3, as stated, fails on its own instance: with budget 5 and stride 0.5
    the first two chunks of the ten words have three rows each and share
    the two rows [b] and [c], while [floor(3 * 0.5)], which is also the
    offset that the flush computes, is 1. *)
Lemma overlap_is_not_floor_of_window_times_stride :
  exists splitted_data,
    split_long_examples._split_long_examples
      one_subword 5 float_0_5 ten_words = Return splitted_data
    /\ let W := split_long_examples.chunk splitted_data 7 0 in
       let W' := split_long_examples.chunk splitted_data 7 1 in
       map fst (map fst W) = [str "a"; str "b"; str "c"]
       /\ map fst (map fst W') = [str "b"; str "c"; str "d"]
       /\ Qfloor (inject_Z (len W) * (1 # 2)) = 1
       /\ split_long_examples.offset_of float_0_5 (len W) = Return 1
       /\ W' = slice_from 1 W ++ [(str "d", str "B", str "0")]
       /\ len (slice_from 1 W) = 2.
Proof.
  eexists; split; [vm_compute; reflexivity|].
  vm_compute; split; [reflexivity|]. split; [reflexivity|].
  split; [reflexivity|]. split; [reflexivity|]. split; reflexivity.
Qed.

(** C3, amended. For a float stride between 0.0 and 1.0 and a table of
    fewer than [2 ^ 53] rows the chunker returns, and chunk [c + 1] of a
    sentence, when there is one, is chunk [c] from the offset
    [int(window_size * stride)] on, followed by the rows that come right
    after chunk [c] in the sentence, at least one: two consecutive chunks
    share the [window_size - int(window_size * stride)] trailing rows of
    the first. The offset is the truncated binary64 product: 7 for a
    window of 10 rows and stride 0.7, 28 for 50 rows and stride 0.58. For
    ten words of one subword each, budget 5 and stride 0.5, the chunks are
    the eight runs of three words, each sharing two words with the
    next. *)
Theorem consecutive_chunks_overlap :
  (forall (tokenize : pystr -> list pystr) (max_seq_len : Z) (stride : float)
          (data : list (DataFrame.row Z)) (sentence_id c : Z),
     in_unit_interval stride = true -> len data < 2 ^ 53 -> 0 <= c ->
     exists splitted_data,
       split_long_examples._split_long_examples
         tokenize max_seq_len stride data = Return splitted_data
       /\ let W := split_long_examples.chunk splitted_data sentence_id c in
          let W' :=
            split_long_examples.chunk splitted_data sentence_id (c + 1) in
          (W' <> [] ->
           exists offset before added after,
             split_long_examples.offset_of stride (len W) = Return offset
             /\ 0 <= offset <= len W
             /\ split_long_examples.sentence data sentence_id
                = before ++ W ++ added ++ after
             /\ added <> []
             /\ W' = slice_from offset W ++ added
             /\ len (slice_from offset W) = len W - offset))
  /\ (split_long_examples.offset_of float_0_7 10 = Return 7
      /\ split_long_examples.offset_of float_0_58 50 = Return 28)
  /\ (exists splitted_data,
        split_long_examples._split_long_examples
          one_subword 5 float_0_5 ten_words = Return splitted_data
        /\ map (fun c => concat (map fst (map fst
                           (split_long_examples.chunk splitted_data 7 c))))
               [0; 1; 2; 3; 4; 5; 6; 7; 8]
           = [str "abc"; str "bcd"; str "cde"; str "def"; str "efg";
              str "fgh"; str "ghi"; str "hij"; []]).
Proof.
  split; [|split; [split; vm_compute; reflexivity
                  |eexists; split; vm_compute; reflexivity]].
  intros tokenize max_seq_len stride data sentence_id c Hs Hlen Hc.
  destruct (offsets_unit stride Hs) as [offset Hoff].
  exists (split_long_examples.chunked tokenize max_seq_len offset data).
  split.
  { apply (split_long_examples_chunked tokenize max_seq_len stride offset
             (2 ^ 53 - 1) Hoff); lia. }
  intros W W' HW'; subst W W'.
  rewrite !chunk_window in * by lia.
  replace (Z.to_nat (c + 1)) with (S (Z.to_nat c)) in * by lia.
  set (ws := split_long_examples.windows_from tokenize max_seq_len offset []
               (split_long_examples.sentence data sentence_id)) in *.
  destruct (nth_error ws (S (Z.to_nat c))) as [W'|] eqn:E';
    [|rewrite nth_error_None in E';
      rewrite nth_overflow in HW' by exact E'; congruence].
  destruct (nth_error ws (Z.to_nat c)) as [W|] eqn:E;
    [|rewrite nth_error_None in E;
      assert (nth_error ws (S (Z.to_nat c)) = None)
        by (apply nth_error_None; lia); congruence].
  rewrite (nth_error_nth _ _ _ E), (nth_error_nth _ _ _ E').
  destruct (windows_from_consecutive tokenize max_seq_len offset _ [] []
              _ W W' E E') as (before & added & after & Heq & Hne & HWeq).
  simpl in Heq.
  assert (HW : 0 <= len W <= 2 ^ 53 - 1).
  { split; [apply len_nonneg|].
    pose proof (len_sentence_le data sentence_id) as Hle.
    rewrite Heq, !len_app in Hle.
    pose proof (len_nonneg before); pose proof (len_nonneg added);
      pose proof (len_nonneg after); lia. }
  destruct (Hoff (len W) HW) as [Ho Hrange].
  exists (offset (len W)), before, added, after.
  split; [exact Ho|]. split; [exact Hrange|].
  split; [exact Heq|]. split; [exact Hne|]. split; [exact HWeq|].
  now apply len_slice_from.
Qed.

(** The first two chunks of the ten words under budget 5 and stride 0.5. *)
Lemma consecutive_chunks_overlap_ten_words :
  exists splitted_data,
    split_long_examples._split_long_examples
      one_subword 5 float_0_5 ten_words = Return splitted_data
    /\ let W := split_long_examples.chunk splitted_data 7 0 in
       let W' := split_long_examples.chunk splitted_data 7 (0 + 1) in
       W' <> []
       /\ exists offset before added after,
            split_long_examples.offset_of float_0_5 (len W) = Return offset
            /\ 0 <= offset <= len W
            /\ split_long_examples.sentence ten_words 7
               = before ++ W ++ added ++ after
            /\ added <> []
            /\ W' = slice_from offset W ++ added
            /\ len (slice_from offset W) = len W - offset.
Proof.
  destruct (proj1 consecutive_chunks_overlap one_subword 5 float_0_5
              ten_words 7 0) as (splitted_data & Hrun & Hoverlap);
    [vm_compute; reflexivity|vm_compute; reflexivity|lia|].
  exists splitted_data; split; [exact Hrun|].
  pose proof Hrun as Hrows; vm_compute in Hrows.
  injection Hrows as <-.
  split; [vm_compute; discriminate|].
  apply Hoverlap; vm_compute; discriminate.
Defined.

(* ================================================================== *)
(** * The sentence filter of the trainer *)
(* ================================================================== *)

Section LoadData.

Import DataFrame train_ner_punctuation.

Variable K : Type.
Variable K_eq_dec : forall x y : K, {x = y} + {x <> y}.

Lemma label_isin_spec (r : row K) :
  label_isin K r = true <-> In (labels r) Label_list.
Proof.
  unfold label_isin, self_labels; rewrite existsb_exists; split.
  - intros (l & Hl & E); destruct (str_eqb_spec (labels r) l); congruence.
  - intros H; exists (labels r); split; [exact H|apply str_eqb_refl].
Qed.

Lemma sentence_valid_spec (data : list (row K)) (r : row K) :
  sentence_valid K K_eq_dec data r = true
  <-> forall r', In r' data -> sentence_id r' = sentence_id r ->
                 In (labels r') Label_list.
Proof.
  unfold sentence_valid; rewrite forallb_forall; split.
  - intros H r' Hin Hid; specialize (H r' Hin).
    destruct (K_eq_dec _ _); [now apply label_isin_spec|contradiction].
  - intros H r' Hin; destruct (K_eq_dec _ _) as [Hid|]; [|reflexivity].
    apply label_isin_spec; now apply H.
Qed.

Lemma sentence_isin_spec (data : list (row K)) (r : row K) :
  sentence_isin K K_eq_dec
    (map sentence_id (filter (fun r => negb (label_isin K r)) data)) r
  = negb (train_ner_punctuation.sentence_valid K K_eq_dec data r).
Proof.
  unfold sentence_isin, sentence_valid.
  induction data as [|r' data IH]; simpl; [reflexivity|].
  destruct (label_isin K r') eqn:E; simpl.
  - rewrite IH; now destruct (K_eq_dec _ _).
  - rewrite IH.
    destruct (K_eq_dec (sentence_id r) (sentence_id r')) as [Hid|Hid];
      destruct (K_eq_dec (sentence_id r') (sentence_id r)) as [Hid'|Hid'];
      simpl; try reflexivity; congruence.
Qed.

Lemma drop_invalid_sentences_filter (data : list (row K)) :
  drop_invalid_sentences K K_eq_dec data
  = filter (sentence_valid K K_eq_dec data) data.
Proof.
  unfold drop_invalid_sentences; apply filter_ext; intros r.
  now rewrite sentence_isin_spec, negb_involutive.
Qed.

End LoadData.

(** C10. [load_data] filters each of its two frames by sentence: a row is
    kept exactly when every row of the frame with its sentence id has a
    label of the alphabet, so that one bad label removes its whole
    sentence; what is kept is kept as it is and in the original order,
    the result being a [filter] of the frame. *)
Theorem load_data_filters_sentences
    (K : Type) (K_eq_dec : forall x y : K, {x = y} + {x <> y})
    (train_data eval_data : list (DataFrame.row K)) :
  train_ner_punctuation.load_data K K_eq_dec train_data eval_data
  = (filter (train_ner_punctuation.sentence_valid K K_eq_dec train_data)
            train_data,
     filter (train_ner_punctuation.sentence_valid K K_eq_dec eval_data)
            eval_data)
  /\ (forall data r,
        train_ner_punctuation.sentence_valid K K_eq_dec data r = true
        <-> forall r', In r' data ->
              DataFrame.sentence_id r' = DataFrame.sentence_id r ->
              In (DataFrame.labels r') Label_list)
  /\ (forall data r,
        In r (train_ner_punctuation.drop_invalid_sentences K K_eq_dec data)
        <-> In r data
            /\ forall r', In r' data ->
                 DataFrame.sentence_id r' = DataFrame.sentence_id r ->
                 In (DataFrame.labels r') Label_list)
  /\ Label_list
     = [str "B"; str ":"; str ";"; str ","; str "."; str "-"; str "...";
        str "?"; str "!"].
Proof.
  split; [|split; [|split]].
  - unfold train_ner_punctuation.load_data.
    now rewrite !drop_invalid_sentences_filter.
  - apply sentence_valid_spec.
  - intros data r.
    rewrite drop_invalid_sentences_filter, filter_In, sentence_valid_spec.
    reflexivity.
  - reflexivity.
Qed.

(** Two sentences of two rows; the label [x] takes sentence 1 with it. *)
Lemma load_data_example :
  let row_of (word label : string) (k : Z) : DataFrame.row Z :=
    {| DataFrame.words := str word; DataFrame.labels := str label;
       DataFrame.times := str "0"; DataFrame.sentence_id := k |} in
  let data := [row_of "to" "B" 0; row_of "be" "x" 1;
               row_of "or" "," 0; row_of "not" "." 1]%string in
  train_ner_punctuation.load_data Z Z.eq_dec data []
  = ([row_of "to" "B" 0; row_of "or" "," 0]%string, []).
Proof.
  intros row_of data.
  rewrite (proj1 (load_data_filters_sentences Z Z.eq_dec data [])).
  reflexivity.
Defined.



(* ================================================================== *)
(** * Document routing *)
(* ================================================================== *)

Section Routing.

Import json_converter.

Lemma contains_spec (names : list pystr) (x : pystr) :
  contains names x = true <-> In x names.
Proof.
  unfold contains; rewrite existsb_exists; split.
  - intros (y & Hy & E); destruct (str_eqb_spec x y); congruence.
  - intros H; exists x; split; [exact H|apply str_eqb_refl].
Qed.

Lemma route_fold train_names test_names (json_paths : list json_file) :
  forall a b c,
  fold_left
    (fun '(train_paths, test_paths, rest_paths) json_path =>
       let wikipunct_text_id := stem json_path in
       if contains train_names wikipunct_text_id then
         (train_paths ++ [json_path], test_paths, rest_paths)
       else if contains test_names wikipunct_text_id then
         (train_paths, test_paths ++ [json_path], rest_paths)
       else
         (train_paths, test_paths, rest_paths ++ [json_path]))
    json_paths (a, b, c)
  = (a ++ filter (in_train train_names) json_paths,
     b ++ filter (in_test train_names test_names) json_paths,
     c ++ filter (in_rest train_names test_names) json_paths).
Proof.
  unfold in_train, in_test, in_rest.
  induction json_paths as [|p ps IH]; intros a b c; simpl.
  - now rewrite !app_nil_r.
  - destruct (contains train_names (stem p)); simpl;
      [|destruct (contains test_names (stem p)); simpl];
      rewrite IH, <- ?app_assoc; reflexivity.
Qed.

(** The routing loop is three filters of the candidates. *)
Lemma route_filters train_names test_names (json_paths : list json_file) :
  route train_names test_names json_paths
  = (filter (in_train train_names) json_paths,
     filter (in_test train_names test_names) json_paths,
     filter (in_rest train_names test_names) json_paths).
Proof. unfold route; now rewrite route_fold. Qed.

(** Three filters that exclude one another and miss nothing split a list
    up to order. *)
Lemma route_Permutation train_names test_names (l : list json_file) :
  Permutation (filter (in_train train_names) l
               ++ filter (in_test train_names test_names) l
               ++ filter (in_rest train_names test_names) l) l.
Proof.
  unfold in_train, in_test, in_rest.
  induction l as [|p l IH]; simpl; [constructor|].
  destruct (contains train_names (stem p)); simpl.
  - now constructor.
  - destruct (contains test_names (stem p)); simpl.
    + apply Permutation_sym, Permutation_cons_app, Permutation_sym, IH.
    + apply Permutation_sym.
      rewrite app_assoc; apply Permutation_cons_app.
      rewrite <- app_assoc; apply Permutation_sym, IH.
Qed.

Lemma sort_paths_flat_map (paths : list json_file) (ids : list pystr) :
  _sort_paths paths ids = flat_map (first_with_stem paths) ids.
Proof.
  unfold _sort_paths.
  assert (H : forall acc,
    fold_left
      (fun sorted_paths wikipunct_text_id =>
         match find (fun path => str_eqb wikipunct_text_id (stem path)) paths
         with
         | Some path => sorted_paths ++ [path]
         | None => sorted_paths
         end) ids acc
    = acc ++ flat_map (first_with_stem paths) ids).
  { induction ids as [|id ids IH]; intros acc; simpl.
    - now rewrite app_nil_r.
    - rewrite IH; unfold first_with_stem.
      destruct (find _ paths); simpl; [now rewrite <- app_assoc|reflexivity]. }
  apply (H []).
Qed.

(** The sorted bucket follows the manifest: its stems are the ids of the
    manifest that some path of the bucket carries, in manifest order. *)
Lemma sort_paths_stems (paths : list json_file) (ids : list pystr) :
  map stem (_sort_paths paths ids)
  = filter (fun id => existsb (fun path => str_eqb id (stem path)) paths) ids.
Proof.
  rewrite sort_paths_flat_map.
  induction ids as [|id ids IH]; simpl; [reflexivity|].
  rewrite map_app, IH; unfold first_with_stem.
  destruct (find _ paths) as [p|] eqn:E.
  - pose proof (find_some _ _ E) as [Hin Hp].
    assert (Hex : existsb (fun path => str_eqb id (stem path)) paths = true)
      by (apply existsb_exists; now exists p).
    rewrite Hex; simpl; f_equal.
    destruct (str_eqb_spec id (stem p)); congruence.
  - replace (existsb _ paths) with false; [reflexivity|].
    symmetry; apply not_true_is_false; intros Hex.
    apply existsb_exists in Hex; destruct Hex as (p & Hin & Hp).
    now rewrite (find_none _ _ E p Hin) in Hp.
Qed.

Lemma sort_paths_In (paths : list json_file) (ids : list pystr) p :
  NoDup (map stem paths) ->
  In p (_sort_paths paths ids) <-> In p paths /\ In (stem p) ids.
Proof.
  intros Hnd; rewrite sort_paths_flat_map, in_flat_map; split.
  - intros (id & Hid & Hp); unfold first_with_stem in Hp.
    destruct (find _ paths) as [q|] eqn:E; [|contradiction].
    destruct Hp as [->|[]]; apply find_some in E; destruct E as [Hin Hq].
    destruct (str_eqb_spec id (stem p)); [subst; auto|discriminate].
  - intros [Hin Hid]; exists (stem p); split; [exact Hid|].
    unfold first_with_stem.
    destruct (find _ paths) as [q|] eqn:E.
    + apply find_some in E; destruct E as [Hq Hs].
      destruct (str_eqb_spec (stem p) (stem q)) as [Hpq|]; [|discriminate].
      left; clear - Hnd Hin Hq Hpq.
      induction paths as [|x paths IH]; [contradiction|].
      inversion Hnd as [|? ? Hx Hnd']; subst.
      destruct Hin as [->|Hin], Hq as [->|Hq]; auto.
      * elim Hx; rewrite Hpq; now apply in_map.
      * elim Hx; rewrite <- Hpq; now apply in_map.
    + pose proof (find_none _ _ E p Hin) as Hp; cbv beta in Hp.
      now rewrite str_eqb_refl in Hp.
Qed.

(** Under unique ids the sorted bucket is the bucket in another order. *)
Lemma sort_paths_Permutation (paths : list json_file) (ids : list pystr) :
  NoDup ids -> NoDup (map stem paths) ->
  (forall p, In p paths -> In (stem p) ids) ->
  Permutation (_sort_paths paths ids) paths.
Proof.
  intros Hids Hnd Hall; apply NoDup_Permutation.
  - apply (NoDup_map_inv stem); rewrite sort_paths_stems.
    now apply NoDup_filter.
  - now apply NoDup_map_inv in Hnd.
  - intros p; rewrite sort_paths_In by exact Hnd; split; [tauto|].
    intros Hp; split; [exact Hp|now apply Hall].
Qed.

(** Looking for an id among the paths of a bucket. *)
Lemma existsb_stem_filter (keep : pystr -> bool) (l : list json_file)
    (id : pystr) :
  existsb (fun path => str_eqb id (stem path))
          (filter (fun p => keep (stem p)) l)
  = keep id && existsb (fun path => str_eqb id (stem path)) l.
Proof.
  induction l as [|p l IH]; simpl; [now rewrite andb_false_r|].
  destruct (str_eqb_spec id (stem p)) as [->|Hne]; simpl.
  - destruct (keep (stem p)) eqn:E; simpl; [now rewrite str_eqb_refl|].
    exact IH.
  - destruct (keep (stem p)); simpl; [|exact IH].
    destruct (str_eqb_spec id (stem p)); [contradiction|exact IH].
Qed.

Lemma NoDup_map_filter {A B} (f : A -> B) (g : A -> bool) (l : list A) :
  NoDup (map f l) -> NoDup (map f (filter g l)).
Proof.
  induction l as [|x l IH]; simpl; [auto|].
  intros H; inversion H as [|? ? Hx Hnd]; subst.
  destruct (g x); simpl; [|now apply IH].
  constructor; [|now apply IH].
  intros Hin; apply Hx; apply in_map_iff in Hin.
  destruct Hin as (y & Hy & Hin); apply filter_In in Hin.
  apply in_map_iff; exists y; tauto.
Qed.

Variable R : random_module.
Hypothesis R_sound : random_sound R.

(** What [_get_json_paths] returns, bucket by bucket. *)
Lemma get_json_paths_buckets (g : rng_state R)
    (train_file test_file train_names test_names : list pystr)
    (data_paths : list (list json_file)) :
  _parse_wikipunct_text_ids train_file = Return train_names ->
  _parse_wikipunct_text_ids test_file = Return test_names ->
  let candidates := concat data_paths in
  let shuffled :=
    shuffle R _ (seed R 0)
      (filter (in_rest train_names test_names) candidates) in
  _get_json_paths R g train_file test_file data_paths
  = Return (_sort_paths (filter (in_train train_names) candidates) train_names,
            _sort_paths (filter (in_test train_names test_names) candidates)
                        test_names,
            fst shuffled, snd shuffled).
Proof.
  intros Htrain Htest candidates shuffled; subst candidates shuffled.
  unfold _get_json_paths; rewrite Htrain, Htest, route_filters.
  now destruct (shuffle R _ _ _).
Qed.

End Routing.

(** C8. When each manifest lists an id once and the candidate documents
    have distinct ids, the three buckets hold every candidate exactly
    once: the train bucket those whose id is in the train manifest, the
    test bucket those whose id is in the test manifest only, the rest
    bucket the others. The train and test buckets follow the order of
    their manifests. The rest bucket is the shuffle of its members from
    the state that [seed(0)] sets, whatever the state of the generator
    was before, so that every run returns the same buckets. *)
Theorem document_routing_partition
    (R : random_module) (g : rng_state R)
    (train_file test_file train_names test_names : list pystr)
    (data_paths : list (list json_converter.json_file)) :
  random_sound R ->
  json_converter._parse_wikipunct_text_ids train_file = Return train_names ->
  json_converter._parse_wikipunct_text_ids test_file = Return test_names ->
  NoDup train_names -> NoDup test_names ->
  NoDup (map json_converter.stem (concat data_paths)) ->
  let candidates := concat data_paths in
  exists train_paths test_paths rest_paths g',
    json_converter._get_json_paths R g train_file test_file data_paths
    = Return (train_paths, test_paths, rest_paths, g')
    /\ Permutation (train_paths ++ test_paths ++ rest_paths) candidates
    /\ Permutation train_paths
         (filter (json_converter.in_train train_names) candidates)
    /\ Permutation test_paths
         (filter (json_converter.in_test train_names test_names) candidates)
    /\ Permutation rest_paths
         (filter (json_converter.in_rest train_names test_names) candidates)
    /\ map json_converter.stem train_paths
       = filter (fun id =>
                   existsb (fun p => str_eqb id (json_converter.stem p))
                           candidates) train_names
    /\ map json_converter.stem test_paths
       = filter (fun id =>
                   negb (json_converter.contains train_names id)
                   && existsb (fun p => str_eqb id (json_converter.stem p))
                              candidates) test_names
    /\ rest_paths
       = fst (shuffle R _ (seed R 0)
                (filter (json_converter.in_rest train_names test_names)
                        candidates))
    /\ forall g2,
         json_converter._get_json_paths R g2 train_file test_file data_paths
         = Return (train_paths, test_paths, rest_paths, g').
Proof.
  intros HR Htrain Htest Hnd1 Hnd2 Hnd candidates.
  do 4 eexists; split;
    [apply (get_json_paths_buckets R g _ _ _ _ _ Htrain Htest)|].
  fold candidates.
  assert (Ptrain : Permutation
            (json_converter._sort_paths
               (filter (json_converter.in_train train_names) candidates)
               train_names)
            (filter (json_converter.in_train train_names) candidates)).
  { apply sort_paths_Permutation; [exact Hnd1|now apply NoDup_map_filter|].
    intros p Hp; apply filter_In in Hp; now apply contains_spec. }
  assert (Ptest : Permutation
            (json_converter._sort_paths
               (filter (json_converter.in_test train_names test_names)
                       candidates)
               test_names)
            (filter (json_converter.in_test train_names test_names)
                    candidates)).
  { apply sort_paths_Permutation; [exact Hnd2|now apply NoDup_map_filter|].
    intros p Hp; apply filter_In in Hp; destruct Hp as [_ Hp].
    unfold json_converter.in_test in Hp; apply andb_true_iff in Hp.
    now apply contains_spec. }
  pose proof (shuffle_permutes R HR _ (seed R 0)
                (filter (json_converter.in_rest train_names test_names)
                        candidates)) as Prest.
  split.
  { rewrite Ptrain, Ptest, Prest; apply route_Permutation. }
  split; [exact Ptrain|]. split; [exact Ptest|]. split; [exact Prest|].
  split.
  { rewrite sort_paths_stems; apply filter_ext_in; intros id Hid.
    change (filter (json_converter.in_train train_names) candidates)
      with (filter (fun p => json_converter.contains train_names
                               (json_converter.stem p)) candidates).
    rewrite existsb_stem_filter.
    apply contains_spec in Hid; now rewrite Hid. }
  split.
  { rewrite sort_paths_stems; apply filter_ext_in; intros id Hid.
    change (filter (json_converter.in_test train_names test_names) candidates)
      with (filter (fun p =>
                      (fun x => negb (json_converter.contains train_names x)
                                && json_converter.contains test_names x)
                        (json_converter.stem p)) candidates).
    rewrite (existsb_stem_filter
               (fun x => negb (json_converter.contains train_names x)
                         && json_converter.contains test_names x)).
    apply contains_spec in Hid; rewrite Hid.
    now rewrite andb_true_r. }
  split; [reflexivity|].
  intros g2; apply (get_json_paths_buckets R g2 _ _ _ _ _ Htrain Htest).
Qed.

Lemma reversing_random_sound : random_sound reversing_random.
Proof.
  split; simpl.
  - intros A g l; apply Permutation_sym, Permutation_rev.
  - intros g n k _; apply length_seq.
  - intros g n k; apply seq_NoDup.
  - intros g n k i Hk Hi; apply in_seq in Hi; lia.
Qed.

(** Five candidates in two directories, two of them in the train manifest
    and one in the test manifest. *)
Lemma document_routing_example :
  let train_file := [str "b" ++ [TAB] ++ str "x" ++ [LF];
                     str "a" ++ [TAB] ++ str "y" ++ [LF]] in
  let test_file := [str "c" ++ [TAB] ++ str "z" ++ [LF]] in
  let data_paths := [[json_named "a"; json_named "c"];
                     [json_named "d"; json_named "b"; json_named "e"]] in
  exists g',
    json_converter._get_json_paths reversing_random 5
      train_file test_file data_paths
    = Return ([json_named "b"; json_named "a"], [json_named "c"],
              [json_named "e"; json_named "d"], g')
    /\ Permutation ([json_named "b"; json_named "a"] ++ [json_named "c"]
                    ++ [json_named "e"; json_named "d"])
                   (concat data_paths).
Proof.
  intros train_file test_file data_paths.
  destruct (document_routing_partition reversing_random 5
              train_file test_file [str "b"; str "a"] [str "c"] data_paths)
    as (train_paths & test_paths & rest_paths & g' & Hrun & Hperm & _).
  - exact reversing_random_sound.
  - reflexivity.
  - reflexivity.
  - repeat constructor; simpl; intuition discriminate.
  - repeat constructor; simpl; intuition discriminate.
  - repeat constructor; simpl; intuition discriminate.
  - vm_compute in Hrun; injection Hrun as <- <- <- <-.
    eexists; split; [reflexivity|exact Hperm].
Defined.



(* ================================================================== *)
(** * The dataset splitter *)
(* ================================================================== *)

Lemma py_round_range (n : Z) (p : Q) :
  (0 <= p)%Q -> (p <= 1)%Q -> 0 <= n ->
  0 <= py_round (inject_Z n * p) <= n.
Proof.
  intros H0 H1 Hn.
  assert (Hn' : (inject_Z 0 <= inject_Z n)%Q) by (now rewrite <- Zle_Qle).
  change (inject_Z 0) with 0%Q in Hn'.
  set (x := (inject_Z n * p)%Q).
  assert (Hlo : (0 <= x)%Q) by (now apply Qmult_le_0_compat).
  assert (Hhi : (x <= inject_Z n)%Q).
  { unfold x; rewrite <- (Qmult_1_r (inject_Z n)) at 2.
    rewrite !(Qmult_comm (inject_Z n)); now apply Qmult_le_compat_r. }
  assert (Hf0 : 0 <= Qfloor x)
    by (change 0 with (Qfloor 0); now apply Qfloor_resp_le).
  assert (Hfn : Qfloor x <= n)
    by (rewrite <- (Qfloor_Z n); now apply Qfloor_resp_le).
  pose proof (Qfloor_le x) as Hfx.
  assert (Hhalf : (1 <= (x - inject_Z (Qfloor x)) * 2)%Q -> Qfloor x + 1 <= n).
  { intros Hge.
    assert (Hlt : (inject_Z (Qfloor x) < inject_Z n)%Q) by lra.
    rewrite <- Zlt_Qlt in Hlt; lia. }
  unfold py_round; fold x.
  destruct (Qcompare_spec ((x - inject_Z (Qfloor x)) * 2) 1) as [E|E|E].
  - destruct (Z.even (Qfloor x)); [lia|].
    assert (Qfloor x + 1 <= n) by (apply Hhalf; rewrite E; lra); lia.
  - lia.
  - assert (Qfloor x + 1 <= n) by (apply Hhalf; lra); lia.
Qed.

Section Unique.

Import DataFrame.

Lemma unique_In (l : list Z) (x : Z) : In x (unique l) <-> In x l.
Proof.
  induction l as [|y l IH]; simpl; [tauto|].
  rewrite filter_In, IH, negb_true_iff, Z.eqb_neq.
  destruct (Z.eq_dec y x); [subst; tauto|intuition].
Qed.

Lemma unique_NoDup (l : list Z) : NoDup (unique l).
Proof.
  induction l as [|y l IH]; simpl; constructor.
  - rewrite filter_In, negb_true_iff, Z.eqb_neq; tauto.
  - now apply NoDup_filter.
Qed.

Lemma isin_spec (values : list Z) (x : Z) :
  isin values x = true <-> In x values.
Proof.
  unfold isin; rewrite existsb_exists; split.
  - intros (y & Hy & E); apply Z.eqb_eq in E; now subst.
  - intros H; exists x; split; [exact H|apply Z.eqb_refl].
Qed.

End Unique.

Section Sample.

Variable R : random_module.
Hypothesis R_sound : random_sound R.

Lemma picked_length {A} (population : list A) (positions : list nat) :
  (forall i, In i positions -> (i < length population)%nat) ->
  length (flat_map (fun i => match nth_error population i with
                             | Some x => [x]
                             | None => []
                             end) positions) = length positions.
Proof.
  induction positions as [|i positions IH]; intros H; simpl; [reflexivity|].
  rewrite length_app, IH by (intros; apply H; now right).
  destruct (nth_error population i) eqn:E; [reflexivity|].
  apply nth_error_None in E; specialize (H i (or_introl eq_refl)); lia.
Qed.

Lemma picked_In {A} (population : list A) (positions : list nat) x :
  In x (flat_map (fun i => match nth_error population i with
                           | Some x => [x]
                           | None => []
                           end) positions)
  <-> exists i, In i positions /\ nth_error population i = Some x.
Proof.
  rewrite in_flat_map; split; intros (i & Hi & Hx); exists i; split; auto.
  - destruct (nth_error population i); [|contradiction].
    destruct Hx as [->|[]]; reflexivity.
  - rewrite Hx; now left.
Qed.

Lemma picked_NoDup {A} (population : list A) (positions : list nat) :
  NoDup population -> NoDup positions ->
  NoDup (flat_map (fun i => match nth_error population i with
                            | Some x => [x]
                            | None => []
                            end) positions).
Proof.
  intros Hpop; induction 1 as [|i positions Hi Hnd IH]; simpl; [constructor|].
  destruct (nth_error population i) as [x|] eqn:E; simpl; [|exact IH].
  constructor; [|exact IH].
  rewrite picked_In; intros (j & Hj & Ej).
  assert (i = j); [|congruence].
  rewrite NoDup_nth_error in Hpop; apply Hpop; [|congruence].
  apply nth_error_Some; congruence.
Qed.

(** A sample within the population: the requested number of members of
    the population, each taken once. *)
Lemma sample_spec (g : rng_state R) (population : list Z) (k : Z) :
  NoDup population -> 0 <= k <= len population ->
  exists picked g',
    sample R g population k = Return (picked, g')
    /\ NoDup picked
    /\ (forall x, In x picked -> In x population)
    /\ len picked = k.
Proof.
  intros Hnd Hk; unfold sample.
  destruct (Z.ltb_spec k 0); [lia|].
  destruct (Z.ltb_spec (len population) k); [lia|]; simpl.
  destruct (sample_positions R g (length population) (Z.to_nat k))
    as [positions g'] eqn:E.
  assert (Hp : positions
               = fst (sample_positions R g (length population) (Z.to_nat k)))
    by now rewrite E.
  do 2 eexists; split; [reflexivity|].
  split; [|split].
  - apply picked_NoDup; [exact Hnd|].
    rewrite Hp; apply (sample_NoDup R R_sound).
  - intros x Hx; apply picked_In in Hx; destruct Hx as (i & _ & Hx).
    now apply nth_error_In in Hx.
  - unfold len; rewrite picked_length.
    + rewrite Hp, (sample_length R R_sound) by (unfold len in Hk; lia); lia.
    + intros i Hi; rewrite Hp in Hi.
      apply (sample_bound R R_sound) in Hi; [exact Hi|unfold len in Hk; lia].
Qed.

End Sample.

Section SplitDataframe.

Import DataFrame pandas_converter.

Variable R : random_module.
Hypothesis R_sound : random_sound R.

Lemma sentence_ids_filter_In (keep : Z -> bool) (data : list (row Z)) (k : Z) :
  In k (sentence_ids (filter (fun r => keep (sentence_id r)) data))
  <-> In k (sentence_ids data) /\ keep k = true.
Proof.
  unfold sentence_ids; rewrite !unique_In, !in_map_iff; split.
  - intros (r & <- & Hr); apply filter_In in Hr; destruct Hr as [Hr Hk].
    split; [now exists r|exact Hk].
  - intros [(r & <- & Hr) Hk]; exists r; split; [reflexivity|].
    apply filter_In; now split.
Qed.

(** The sentence ids of the two parts of a split. *)
Lemma sentence_ids_split (train_ids : list Z) (data : list (row Z)) :
  NoDup train_ids ->
  (forall x, In x train_ids -> In x (sentence_ids data)) ->
  Permutation
    (sentence_ids (filter (fun r => isin train_ids (sentence_id r)) data))
    train_ids
  /\ Permutation
       (train_ids
        ++ sentence_ids
             (filter (fun r => negb (isin train_ids (sentence_id r))) data))
       (sentence_ids data).
Proof.
  intros Hnd Hsub; split.
  - apply NoDup_Permutation; [apply unique_NoDup|exact Hnd|].
    intros k; rewrite (sentence_ids_filter_In (isin train_ids)), isin_spec.
    split; [tauto|auto].
  - apply NoDup_Permutation; [|apply unique_NoDup|].
    + apply NoDup_app; [exact Hnd|apply unique_NoDup|].
      intros k Hk Hk'.
      apply (sentence_ids_filter_In (fun x => negb (isin train_ids x))) in Hk'.
      destruct Hk' as [_ Hk']; apply negb_true_iff in Hk'.
      apply isin_spec in Hk; congruence.
    + intros k; rewrite in_app_iff.
      rewrite (sentence_ids_filter_In (fun x => negb (isin train_ids x))).
      rewrite negb_true_iff.
      destruct (isin train_ids k) eqn:E.
      * apply isin_spec in E; split.
        -- intros [H|[_ H]]; [now apply Hsub|discriminate].
        -- intros _; now left.
      * split.
        -- intros [H|[H _]]; [|exact H].
           apply isin_spec in H; congruence.
        -- intros H; right; now split.
Qed.

Lemma filter_split_Permutation {A} (f : A -> bool) (l : list A) :
  Permutation (filter f l ++ filter (fun x => negb (f x)) l) l.
Proof.
  induction l as [|x l IH]; simpl; [constructor|].
  destruct (f x); simpl; [now constructor|].
  apply Permutation_sym, Permutation_cons_app, Permutation_sym, IH.
Qed.

(** One split with a proportion between 0 and 1: it does not raise, it
    keeps every row on one side, and the train side has the rounded
    share of the sentence ids. *)
Lemma split_dataframe_spec (g : rng_state R) (data : list (row Z)) (p : Q) :
  (0 <= p)%Q -> (p <= 1)%Q ->
  exists train_data test_data g',
    _split_dataframe R g data p = Return (train_data, test_data, g')
    /\ Permutation (train_data ++ test_data) data
    /\ len (sentence_ids train_data)
       = py_round (inject_Z (len (sentence_ids data)) * p)
    /\ Permutation (sentence_ids train_data ++ sentence_ids test_data)
                   (sentence_ids data).
Proof.
  intros H0 H1; unfold _split_dataframe.
  fold (sentence_ids data).
  destruct (sample_spec R R_sound g (sentence_ids data)
              (py_round (inject_Z (len (sentence_ids data)) * p)))
    as (train_ids & g' & Hs & Hnd & Hsub & Hlen).
  { apply unique_NoDup. }
  { apply py_round_range; auto; apply len_nonneg. }
  rewrite Hs.
  destruct (sentence_ids_split train_ids data Hnd Hsub) as [P1 P2].
  do 3 eexists; split; [reflexivity|].
  split; [apply filter_split_Permutation|].
  split.
  - rewrite <- Hlen; unfold len; now rewrite (Permutation_length P1).
  - now rewrite P1.
Qed.

End SplitDataframe.

Lemma Permutation_disjoint {A} (l1 l2 l : list A) :
  NoDup l -> Permutation (l1 ++ l2) l ->
  forall x, In x l1 -> ~ In x l2.
Proof.
  intros Hnd HP x H1 H2.
  apply Permutation_sym in HP.
  pose proof (Permutation_NoDup HP Hnd) as Hnd'.
  apply NoDup_app_remove_l in Hnd' as Hnd2.
  clear - Hnd' H1 H2.
  induction l1 as [|y l1 IH]; [contradiction|].
  simpl in Hnd'; inversion Hnd' as [|? ? Hy Hnd'']; subst.
  destruct H1 as [->|H1]; [|now apply IH].
  apply Hy, in_or_app; now right.
Qed.

(** C9. On a frame with at least one row, the two splits of [run] put
    every row, and so every sentence id, on exactly one of the three
    sides; the train side has
    [round(n * 0.8)] of the [n] sentence ids and the dev side
    [round(m * 0.5)] of the [m] others; the generator is seeded when the
    splitter is built, so that the result does not depend on its earlier
    state. *)
Theorem dataset_split_partition
    (R : random_module) (g : rng_state R) (df : list (DataFrame.row Z)) :
  random_sound R -> df <> [] ->
  exists train_data dev_data test_data g',
    pandas_converter.run R (pandas_converter.__init__ R g) df
    = Return (train_data, dev_data, test_data, g')
    /\ Permutation (train_data ++ dev_data ++ test_data) df
    /\ Permutation (pandas_converter.sentence_ids train_data
                    ++ pandas_converter.sentence_ids dev_data
                    ++ pandas_converter.sentence_ids test_data)
                   (pandas_converter.sentence_ids df)
    /\ (forall k,
          (In k (pandas_converter.sentence_ids train_data) ->
           ~ In k (pandas_converter.sentence_ids dev_data)
           /\ ~ In k (pandas_converter.sentence_ids test_data))
          /\ (In k (pandas_converter.sentence_ids dev_data) ->
              ~ In k (pandas_converter.sentence_ids test_data)))
    /\ len (pandas_converter.sentence_ids train_data)
       = py_round (inject_Z (len (pandas_converter.sentence_ids df))
                   * (8 # 10))
    /\ len (pandas_converter.sentence_ids dev_data)
       = py_round (inject_Z (len (pandas_converter.sentence_ids df)
                             - len (pandas_converter.sentence_ids train_data))
                   * (5 # 10))
    /\ forall g2,
         pandas_converter.run R (pandas_converter.__init__ R g2) df
         = Return (train_data, dev_data, test_data, g').
Proof.
  intros HR _; unfold pandas_converter.run, pandas_converter.__init__.
  destruct (split_dataframe_spec R HR (seed R pandas_converter.SEED) df
              pandas_converter.TRAIN_TO_TEST_DEV_RATIO)
    as (train & dev_test & g1 & Hs1 & P1 & L1 & I1);
    [unfold Qle; simpl; lia|unfold Qle; simpl; lia|].
  destruct (split_dataframe_spec R HR g1 dev_test
              pandas_converter.DEV_TO_TEST_RATIO)
    as (dev & test & g2 & Hs2 & P2 & L2 & I2);
    [unfold Qle; simpl; lia|unfold Qle; simpl; lia|].
  rewrite Hs1, Hs2.
  exists train, dev, test, g2.
  assert (Hids : Permutation
            (pandas_converter.sentence_ids train
             ++ pandas_converter.sentence_ids dev
             ++ pandas_converter.sentence_ids test)
            (pandas_converter.sentence_ids df))
    by (now rewrite I2).
  split; [reflexivity|].
  split; [now rewrite P2|].
  split; [exact Hids|].
  split.
  { intros k; split.
    - intros Hk.
      pose proof (Permutation_disjoint _ _ _ (unique_NoDup _) Hids k Hk) as H.
      rewrite in_app_iff in H; tauto.
    - apply (Permutation_disjoint _ _ (pandas_converter.sentence_ids dev_test));
        [apply unique_NoDup|exact I2]. }
  split; [exact L1|].
  split; [|reflexivity].
  rewrite L2.
  replace (len (pandas_converter.sentence_ids dev_test))
    with (len (pandas_converter.sentence_ids df)
          - len (pandas_converter.sentence_ids train)); [reflexivity|].
  apply Permutation_length in I1; rewrite length_app in I1.
  unfold len; lia.
Qed.

(** Ten sentences: eight go to train, one to dev, one to test. *)
Lemma dataset_split_example :
  let df := map row_of_sentence [0; 0; 1; 2; 2; 3; 4; 5; 6; 7; 8; 9] in
  exists train_data dev_data test_data g',
    pandas_converter.run reversing_random
      (pandas_converter.__init__ reversing_random 5) df
    = Return (train_data, dev_data, test_data, g')
    /\ Permutation (train_data ++ dev_data ++ test_data) df
    /\ pandas_converter.sentence_ids train_data = [0; 1; 2; 3; 4; 5; 6; 7]
    /\ pandas_converter.sentence_ids dev_data = [8]
    /\ pandas_converter.sentence_ids test_data = [9].
Proof.
  intros df.
  destruct (dataset_split_partition reversing_random 5 df
              reversing_random_sound)
    as (train_data & dev_data & test_data & g' & Hrun & Hperm & _);
    [discriminate|].
  exists train_data, dev_data, test_data, g'.
  split; [exact Hrun|]. split; [exact Hperm|].
  vm_compute in Hrun; injection Hrun as <- <- <- <-.
  repeat split.
Defined.

(* ================================================================== *)
(** * The aligner without forced alignment *)
(* ================================================================== *)

Lemma determine_label_returns (in_token expected_token : pystr) :
  exists label records,
    tsv_parser._determine_label in_token expected_token
    = Return (label, records).
Proof.
  unfold tsv_parser._determine_label.
  destruct (str_eqb_spec in_token expected_token) as [|Hne]; [now eauto|].
  destruct (str_eqb_spec in_token (slice_to (-1) expected_token)) as [E|_].
  - destruct (slice_to_1_inv _ _ E Hne) as [c ->].
    rewrite index_last_app; now eauto.
  - destruct (_ && _); now eauto.
Qed.

Lemma determine_label_label_of (in_token expected_token : pystr) :
  exists records,
    tsv_parser._determine_label in_token expected_token
    = Return (tsv_parser.label_of in_token expected_token, records).
Proof.
  unfold tsv_parser.label_of.
  destruct (determine_label_returns in_token expected_token)
    as (label & records & ->); now eauto.
Qed.

Section ConvertPlain.

Variable U : unicode.

Lemma write_tokens_plain (tokens : list (pystr * pystr)) (i : Z) :
  written (tsv_parser.write_tokens U None i tokens)
  = map (tsv_parser.token_line U) tokens
  /\ raised (tsv_parser.write_tokens U None i tokens) = None.
Proof.
  revert i; induction tokens as [|[in_token expected_token] rest IH];
    intros i; [now split|].
  cbn [tsv_parser.write_tokens map tsv_parser.token_line].
  destruct (determine_label_label_of in_token (lower U expected_token))
    as (records & ->).
  destruct (IH (i + 1)) as [IHw IHr].
  unfold run_then; cbn [raised written]; now rewrite IHw, IHr.
Qed.

Lemma convert_line_plain (in_line expected_line : pystr) :
  written (tsv_parser.convert_line U None in_line expected_line)
  = tsv_parser.document_block U in_line expected_line
  /\ raised (tsv_parser.convert_line U None in_line expected_line)
     = if tsv_parser.has_two_fields in_line then None else Some ValueError.
Proof.
  unfold tsv_parser.convert_line, tsv_parser.document_block,
    tsv_parser.has_two_fields, tsv_parser.token_counts_differ.
  destruct (split TAB (strip in_line)) as [|a [|b [|c l]]];
    try (now split).
  destruct (negb _); [now split|].
  destruct (write_tokens_plain
              (combine (split SP b) (split SP (strip expected_line))) 0)
    as [Hw Hr].
  unfold run_then; rewrite Hr; cbn [written raised]; now rewrite Hw.
Qed.

End ConvertPlain.

(** X1. Without a forced-alignment directory, [TsvParser.convert] fails
    in one way only: it raises [ValueError] at the first line of [in.tsv]
    that, stripped, does not consist of exactly two tab-separated fields.
    Whatever the expected file holds, nothing else makes it raise. *)
Theorem convert_raises_on_fields_only (U : unicode)
    (in_file expected_file : list pystr) :
  raised (tsv_parser.convert U None in_file expected_file)
  = if forallb tsv_parser.has_two_fields
         (firstn (length expected_file) in_file)
    then None else Some ValueError.
Proof.
  unfold tsv_parser.convert.
  revert expected_file; induction in_file as [|in_line in_file IH];
    intros [|expected_line expected_file]; try reflexivity.
  cbn [combine tsv_parser.convert_lines length firstn forallb].
  destruct (convert_line_plain U in_line expected_line) as [_ Hr].
  unfold run_then; rewrite Hr.
  destruct (tsv_parser.has_two_fields in_line); cbn [andb raised];
    [apply IH|exact Hr].
Qed.

(** X2. When every line of [in.tsv] has its two fields, the output of
    [TsvParser.convert] is the concatenation of the blocks of the
    documents in order: one line [token TAB label] per token followed by
    one blank line, and no line at all for a document whose texts differ
    in their number of tokens. *)
Theorem convert_writes_document_blocks (U : unicode)
    (in_file expected_file : list pystr) :
  forallb tsv_parser.has_two_fields (firstn (length expected_file) in_file)
    = true ->
  written (tsv_parser.convert U None in_file expected_file)
  = flat_map (fun lines => tsv_parser.document_block U (fst lines) (snd lines))
             (combine in_file expected_file).
Proof.
  unfold tsv_parser.convert.
  revert expected_file; induction in_file as [|in_line in_file IH];
    intros [|expected_line expected_file]; try reflexivity.
  cbn [combine tsv_parser.convert_lines length firstn forallb flat_map fst snd].
  intros H; apply andb_true_iff in H; destruct H as [H1 H2].
  destruct (convert_line_plain U in_line expected_line) as [Hw Hr].
  unfold run_then; rewrite Hr, H1; cbn [written].
  now rewrite Hw, (IH _ H2).
Qed.

Lemma convert_writes_document_blocks_example :
  written (tsv_parser.convert ascii_tables None
             [str "doc1" ++ [TAB] ++ str "the dog barks" ++ [LF];
              str "doc2" ++ [TAB] ++ str "one two" ++ [LF]]
             [str "The dog, barks..." ++ [LF]; str "One." ++ [LF]])
  = [str "the" ++ [TAB] ++ str "B" ++ [LF];
     str "dog" ++ [TAB] ++ str "," ++ [LF];
     str "barks" ++ [TAB] ++ str "..." ++ [LF];
     [LF]].
Proof.
  rewrite (convert_writes_document_blocks ascii_tables); reflexivity.
Defined.

(* ================================================================== *)
(** * Pauses from the forced-alignment transcripts *)
(* ================================================================== *)

Lemma index_app_at {A} (pre : list A) (x : A) (rest : list A) :
  index (pre ++ x :: rest) (len pre) = Return x.
Proof.
  assert (E : (len pre <? 0) = false) by (apply Z.ltb_ge, len_nonneg).
  assert (E' : (len (pre ++ x :: rest) <=? len pre) = false).
  { apply Z.leb_gt; rewrite len_app; unfold len; cbn [length]; lia. }
  unfold index; cbv zeta; rewrite E, E, E'; cbn [orb].
  unfold len; rewrite Nat2Z.id, nth_error_app2 by lia.
  now rewrite Nat.sub_diag.
Qed.

Lemma pauses_app_last (items : tsv_parser.transcript)
    (last : Z * Z * pystr) :
  exists body,
    tsv_parser.pauses (items ++ [last]) = body ++ [(snd last, 0)]
    /\ forall pre result,
         tsv_parser.calculate_breaks_loop (pre ++ items ++ [last]) (len pre)
           items result
         = Return (result ++ body).
Proof.
  induction items as [|[[s e] w] items (body & Hb & IH)].
  - exists []; destruct last as [[s e] w]; split; [reflexivity|].
    intros pre result; cbn [tsv_parser.calculate_breaks_loop].
    now rewrite app_nil_r.
  - assert (Hhd : exists s' e' w' tail,
                    items ++ [last] = (s', e', w') :: tail).
    { destruct items as [|[[s' e'] w'] tail].
      - destruct last as [[s' e'] w']; now exists s', e', w', [].
      - now exists s', e', w', (tail ++ [last]). }
    destruct Hhd as (s' & e' & w' & tail & E).
    exists ((w, s' - e) :: body); split.
    + cbn [app tsv_parser.pauses]; rewrite Hb, E; reflexivity.
    + intros pre result; cbn [tsv_parser.calculate_breaks_loop].
      assert (Hpos : len (pre ++ [(s, e, w)]) = len pre + 1)
        by (rewrite len_app; reflexivity).
      assert (Hdata : pre ++ ((s, e, w) :: items) ++ [last]
                      = (pre ++ [(s, e, w)]) ++ items ++ [last])
        by now rewrite <- app_assoc.
      assert (Hidx : index (pre ++ ((s, e, w) :: items) ++ [last])
                       (len pre + 1) = Return (s', e', w')).
      { rewrite Hdata, E, <- Hpos; apply index_app_at. }
      rewrite Hidx, Hdata, <- Hpos, IH, <- app_assoc; reflexivity.
Qed.

Lemma slice_to_last {A} (items : list A) (last : A) :
  slice_to (-1) (items ++ [last]) = items.
Proof. apply slice_to_neg_app; [lia|reflexivity]. Qed.

Lemma calculate_breaks_nonempty (data : tsv_parser.transcript) :
  data <> [] ->
  tsv_parser._calculate_breaks data = Return (tsv_parser.pauses data).
Proof.
  intros Hne.
  destruct (exists_last Hne) as (items & last & E).
  rewrite E; unfold tsv_parser._calculate_breaks.
  destruct (pauses_app_last items last) as (body & Hb & Hloop).
  rewrite slice_to_last.
  assert (H0 : tsv_parser.calculate_breaks_loop (items ++ [last]) 0 items []
               = Return body) by exact (Hloop [] []).
  rewrite H0, index_last_app, Hb; now destruct last as [[s e] w].
Qed.

(** X3. [_calculate_breaks] pairs every word of a transcript with the
    pause up to the start of the next record, and the last word with 0;
    on a transcript without records it raises [IndexError] at
    [data[-1]]. *)
Theorem calculate_breaks_pauses (data : tsv_parser.transcript) :
  tsv_parser._calculate_breaks data
  = match data with
    | [] => Raise IndexError
    | _ :: _ => Return (tsv_parser.pauses data)
    end.
Proof.
  destruct data as [|r data]; [reflexivity|].
  now apply calculate_breaks_nonempty.
Qed.

Lemma times_after_tokens_loop_pauses (items : tsv_parser.transcript) :
  forall pre result,
    parse_tsv.times_after_tokens_loop (pre ++ items)
      (map Z.of_nat (seq (length pre) (length items))) result
    = Return (result ++ tsv_parser.pauses items).
Proof.
  induction items as [|[[s e] w] items IH]; intros pre result.
  - cbn; now rewrite app_nil_r.
  - cbn [length seq map parse_tsv.times_after_tokens_loop].
    change (Z.of_nat (length pre)) with (len pre).
    rewrite index_app_at.
    assert (Hlen : len (pre ++ (s, e, w) :: items)
                   = len pre + 1 + len items).
    { rewrite len_app; unfold len; cbn [length]; lia. }
    assert (Hnext : pre ++ (s, e, w) :: items = (pre ++ [(s, e, w)]) ++ items)
      by now rewrite <- app_assoc.
    assert (Hpos : len (pre ++ [(s, e, w)]) = len pre + 1)
      by (rewrite len_app; reflexivity).
    destruct items as [|[[s' e'] w'] tail].
    + rewrite Hlen; unfold len at 3; cbn [length].
      destruct (Z.ltb_spec (len pre + 1) (len pre + 1 + Z.of_nat 0)); [lia|].
      reflexivity.
    + rewrite Hlen.
      destruct (Z.ltb_spec (len pre + 1)
                  (len pre + 1 + len ((s', e', w') :: tail))) as [_|H].
      2:{ unfold len in H; cbn [length] in H; lia. }
      rewrite Hnext at 1; rewrite <- Hpos, index_app_at.
      rewrite Hnext.
      replace (S (length pre)) with (length (pre ++ [(s, e, w)]))
        by (rewrite length_app; cbn [length]; lia).
      rewrite IH, <- app_assoc; reflexivity.
Qed.

(** X4. [_times_after_tokens] of [parse_tsv.py] computes the same pauses
    on every transcript, the empty list on one without records; it is
    [_calculate_breaks] on every transcript with a record, and returns
    where [_calculate_breaks] raises. *)
Theorem times_after_tokens_pauses (data : tsv_parser.transcript) :
  parse_tsv._times_after_tokens data = Return (tsv_parser.pauses data)
  /\ tsv_parser._calculate_breaks data
     = match data with
       | [] => Raise IndexError
       | _ :: _ => parse_tsv._times_after_tokens data
       end.
Proof.
  assert (H : parse_tsv._times_after_tokens data
              = Return (tsv_parser.pauses data)).
  { unfold parse_tsv._times_after_tokens, range.
    exact (times_after_tokens_loop_pauses data [] []). }
  split; [exact H|].
  destruct data as [|r data]; [reflexivity|].
  rewrite H; now apply calculate_breaks_nonempty.
Qed.

(* ================================================================== *)
(** * Matching the expected words to the transcript *)
(* ================================================================== *)

Lemma find_from_spec (sub text : pystr) (at_ : Z) :
  find_from sub text at_ = -1
  \/ (at_ <= find_from sub text at_ <= at_ + len text
      /\ startswith sub
           (skipn (Z.to_nat (find_from sub text at_ - at_)) text) = true).
Proof.
  revert at_; induction text as [|c text IH]; intros at_; cbn [find_from].
  - destruct (startswith sub []) eqn:E; [right|now left].
    rewrite Z.sub_diag; split; [unfold len; cbn; lia|exact E].
  - destruct (startswith sub (c :: text)) eqn:E.
    + right; rewrite Z.sub_diag; split; [|exact E].
      pose proof (len_nonneg (c :: text)); lia.
    + destruct (IH (at_ + 1)) as [H|[H1 H2]]; [now left|right].
      split; [unfold len in *; cbn [length]; lia|].
      replace (Z.to_nat (find_from sub text (at_ + 1) - at_))
        with (S (Z.to_nat (find_from sub text (at_ + 1) - (at_ + 1))))
        by lia.
      exact H2.
Qed.

Lemma str_find_from (text sub : pystr) (start : Z) :
  0 <= start ->
  str_find text sub start
  = if len text <? start then -1
    else find_from sub (skipn (Z.to_nat start) text) start.
Proof.
  intros Hs; unfold str_find.
  destruct (Z.ltb_spec start 0) as [|_]; [lia|reflexivity].
Qed.

(** A hit of [find] is found again when the search starts at it. *)
Lemma str_find_again (text sub : pystr) (start : Z) :
  0 <= start -> 0 <= str_find text sub start ->
  start <= str_find text sub start
  /\ str_find text sub (str_find text sub start) = str_find text sub start.
Proof.
  intros Hs Hr.
  remember (str_find text sub start) as r eqn:E.
  rewrite (str_find_from text sub r Hr).
  rewrite str_find_from in E by exact Hs.
  destruct (Z.ltb_spec (len text) start) as [|Hlen]; [lia|].
  destruct (find_from_spec sub (skipn (Z.to_nat start) text) start)
    as [H|[[H1 H2] H3]]; [lia|].
  rewrite <- E in H1, H2, H3.
  assert (Hskip : len (skipn (Z.to_nat start) text) = len text - start).
  { unfold len in *; rewrite length_skipn; lia. }
  split; [exact H1|].
  destruct (Z.ltb_spec (len text) r) as [|_]; [lia|].
  rewrite skipn_skipn in H3.
  replace (Z.to_nat (r - start) + Z.to_nat start)%nat with (Z.to_nat r)
    in H3 by lia.
  revert H3; generalize (skipn (Z.to_nat r) text) as tail.
  intros [|c tail] H3; cbn [find_from]; now rewrite H3.
Qed.

Section Matching.

Variable U : unicode.

Lemma match_time_provide_break (times_text : pystr)
    (times_indexes : list (Z * Z)) (state : list Z * Z) (token : pystr) :
  parse_tsv.match_time U times_text times_indexes state token
  = tsv_parser.provide_break U times_text times_indexes state token.
Proof.
  unfold parse_tsv.match_time, tsv_parser.provide_break.
  destruct state as [matched index].
  destruct (Z.ltb_spec (str_find times_text (lower U token) index) 0),
    (Z.geb_spec (str_find times_text (lower U token) index) 0);
    try lia; reflexivity.
Qed.

Lemma fold_left_ext_eq {A B} (f g : A -> B -> A) (l : list B) (a : A) :
  (forall a b, f a b = g a b) -> fold_left f l a = fold_left g l a.
Proof.
  intros H; revert a; induction l as [|b l IH]; intros a; [reflexivity|].
  cbn [fold_left]; now rewrite H, IH.
Qed.

(** The pauses in the dictionary are pauses of the transcript. *)
Lemma index_transcript_values (words_and_breaks : list (pystr * Z)) :
  forall times_text times_indexes k v,
    dict_get
      (snd (fold_left
              (fun '(times_text, times_indexes) '(word, break_) =>
                 let times_indexes :=
                   dict_set times_indexes (len times_text) break_ in
                 (times_text ++ lower U word, times_indexes))
              words_and_breaks (times_text, times_indexes))) k = Some v ->
    In v (map snd words_and_breaks) \/ dict_get times_indexes k = Some v.
Proof.
  induction words_and_breaks as [|[word break_] rest IH];
    intros times_text times_indexes k v; cbn [fold_left snd map].
  - now right.
  - intros H; destruct (IH _ _ _ _ H) as [Hin|Hget]; [left; now right|].
    unfold dict_set in Hget; cbn [dict_get] in Hget.
    destruct (k =? len times_text); [|now right].
    left; left; now injection Hget.
Qed.

(** One turn of the loop appends one entry and keeps the index where it
    is or moves it to a hit. *)
Lemma provide_break_step (times_text : pystr) (times_indexes : list (Z * Z))
    (matched : list Z) (index : Z) (word : pystr) :
  0 <= index ->
  exists b index',
    tsv_parser.provide_break U times_text times_indexes (matched, index) word
    = (matched ++ [b], index')
    /\ 0 <= index'
    /\ (b = -1 \/ exists k, dict_get times_indexes k = Some b)
    /\ tsv_parser.provide_break U times_text times_indexes
         (matched ++ [b], index') word
       = (matched ++ [b; b], index').
Proof.
  intros Hi; unfold tsv_parser.provide_break.
  destruct (Z.ltb_spec (str_find times_text (lower U word) index) 0)
    as [Hneg|Hpos].
  - exists (-1), index; repeat split; [lia|now left|].
    destruct (Z.ltb_spec (str_find times_text (lower U word) index) 0);
      [|lia].
    now rewrite <- app_assoc.
  - destruct (str_find_again times_text (lower U word) index Hi Hpos)
      as [Hle Hagain].
    set (f := str_find times_text (lower U word) index) in *.
    destruct (dict_get times_indexes f) as [b|] eqn:E.
    + exists b, f; repeat split; [lia|right; now exists f|].
      rewrite Hagain.
      destruct (Z.ltb_spec f 0); [lia|].
      now rewrite E, <- app_assoc.
    + exists (-1), index; repeat split; [lia|now left|].
      fold f; destruct (Z.ltb_spec f 0); [lia|].
      now rewrite E, <- app_assoc.
Qed.

Lemma provide_breaks_fold (times_text : pystr) (times_indexes : list (Z * Z))
    (expected_text : list pystr) :
  forall matched index,
    0 <= index ->
    exists entries index',
      fold_left (tsv_parser.provide_break U times_text times_indexes)
        expected_text (matched, index)
      = (matched ++ entries, index')
      /\ 0 <= index'
      /\ length entries = length expected_text
      /\ Forall (fun b => b = -1 \/ exists k, dict_get times_indexes k = Some b)
           entries.
Proof.
  induction expected_text as [|word rest IH]; intros matched index Hi.
  - exists [], index; cbn [fold_left]; rewrite app_nil_r.
    repeat split; [exact Hi|constructor].
  - cbn [fold_left].
    destruct (provide_break_step times_text times_indexes matched index word
                Hi) as (b & index' & -> & Hi' & Hb & _).
    destruct (IH (matched ++ [b]) index' Hi')
      as (entries & index'' & -> & Hi'' & Hlen & Hall).
    exists (b :: entries), index''; rewrite <- app_assoc.
    repeat split; [exact Hi''|cbn [length]; now rewrite Hlen|].
    now constructor.
Qed.

End Matching.

(** X5. [_provide_breaks_for_expected] returns one entry for every
    expected word, so that [matched[i]] in [convert] is always in range,
    and every entry is -1 or one of the pauses of the transcript. *)
Theorem provide_breaks_entries (U : unicode)
    (words_and_breaks : list (pystr * Z)) (expected_text : list pystr) :
  length (tsv_parser._provide_breaks_for_expected U words_and_breaks
            expected_text)
  = length expected_text
  /\ Forall (fun b => b = -1 \/ In b (map snd words_and_breaks))
       (tsv_parser._provide_breaks_for_expected U words_and_breaks
          expected_text).
Proof.
  unfold tsv_parser._provide_breaks_for_expected, tsv_parser.index_transcript.
  pose proof (index_transcript_values U words_and_breaks [] []) as Hval.
  destruct (fold_left _ words_and_breaks ([], []))
    as [times_text times_indexes].
  cbn [snd] in Hval.
  destruct (provide_breaks_fold U times_text times_indexes expected_text
              [] 0 (Z.le_refl 0)) as (entries & index' & -> & _ & Hlen & Hall).
  cbn [fst app]; split; [exact Hlen|].
  apply Forall_impl with (2 := Hall).
  intros b [->|[k Hk]]; [now left|right].
  destruct (Hval k b Hk) as [H|H]; [exact H|discriminate].
Qed.

(** X6. The search for an expected word starts at the last hit and not
    behind it: a word that is expected twice in a row gets the same entry
    twice, whatever the transcript holds. *)
Theorem provide_breaks_repeated_word (U : unicode)
    (words_and_breaks : list (pystr * Z)) (expected_text : list pystr)
    (word : pystr) :
  exists b,
    tsv_parser._provide_breaks_for_expected U words_and_breaks
      (expected_text ++ [word; word])
    = tsv_parser._provide_breaks_for_expected U words_and_breaks expected_text
      ++ [b; b].
Proof.
  unfold tsv_parser._provide_breaks_for_expected.
  destruct (tsv_parser.index_transcript U words_and_breaks)
    as [times_text times_indexes].
  rewrite fold_left_app.
  destruct (provide_breaks_fold U times_text times_indexes expected_text
              [] 0 (Z.le_refl 0)) as (entries & index' & -> & Hi & _).
  cbn [fst app fold_left].
  destruct (provide_break_step U times_text times_indexes entries index' word
              Hi) as (b & index'' & -> & _ & _ & ->).
  now exists b.
Qed.

(** X7. [_match_times] of [parse_tsv.py] returns what
    [_provide_breaks_for_expected] returns, on every transcript and every
    expected text. *)
Theorem match_times_duplicates_agree (U : unicode)
    (times : list (pystr * Z)) (expected : list pystr) :
  parse_tsv._match_times U times expected
  = tsv_parser._provide_breaks_for_expected U times expected.
Proof.
  unfold parse_tsv._match_times, tsv_parser._provide_breaks_for_expected,
    tsv_parser.index_transcript.
  destruct (fold_left _ times ([], [])) as [times_text times_indexes].
  f_equal; apply fold_left_ext_eq.
  intros state token; apply match_time_provide_break.
Qed.

(* ================================================================== *)
(** * The aligner with forced alignment *)
(* ================================================================== *)

Lemma write_tokens_fa (U : unicode) (tokens : list (pystr * pystr)) :
  forall pre pauses,
    length pauses = length tokens ->
    written (tsv_parser.write_tokens U (Some (pre ++ pauses)) (len pre) tokens)
    = map (tsv_parser.token_line_fa U) (combine tokens pauses)
    /\ raised (tsv_parser.write_tokens U (Some (pre ++ pauses)) (len pre)
                 tokens) = None.
Proof.
  induction tokens as [|[in_token expected_token] rest IH];
    intros pre [|pause pauses] Hlen; try discriminate; [now split|].
  cbn [tsv_parser.write_tokens combine map tsv_parser.token_line_fa].
  destruct (determine_label_label_of in_token (lower U expected_token))
    as (records & ->).
  rewrite index_app_at.
  replace (pre ++ pause :: pauses) with ((pre ++ [pause]) ++ pauses)
    by now rewrite <- app_assoc.
  replace (len pre + 1) with (len (pre ++ [pause]))
    by (rewrite len_app; reflexivity).
  destruct (IH (pre ++ [pause]) pauses) as [IHw IHr];
    [now injection Hlen|].
  unfold run_then; cbn [raised written]; now rewrite IHw, IHr.
Qed.

(** X8. With a forced-alignment directory, a pair of lines with as many
    input as expected tokens is written with a third column: the pause
    that [_provide_breaks_for_expected] finds for the expected token,
    in decimal, so [matched[i]] never fails. A transcript without
    records makes [convert] raise [IndexError] before it writes anything
    of the document. *)
Theorem convert_line_forced_alignment (U : unicode)
    (read : pystr -> outcome tsv_parser.transcript)
    (in_line expected_line wikipunct_text_id in_text : pystr)
    (data : tsv_parser.transcript) :
  split TAB (strip in_line) = [wikipunct_text_id; in_text] ->
  tsv_parser.token_counts_differ in_line expected_line = false ->
  read wikipunct_text_id = Return data ->
  let result :=
    tsv_parser.convert_line U (Some (tsv_parser.fa_of_transcripts U read))
      in_line expected_line in
  match data with
  | [] => raised result = Some IndexError /\ written result = []
  | _ :: _ =>
      raised result = None
      /\ written result
         = map (tsv_parser.token_line_fa U)
             (combine
                (combine (split SP in_text) (split SP (strip expected_line)))
                (map str_of_int
                   (tsv_parser._provide_breaks_for_expected U
                      (tsv_parser.pauses data)
                      (split SP (strip expected_line)))))
           ++ [[LF]]
  end.
Proof.
  intros Hfields Hcount Hread.
  unfold tsv_parser.token_counts_differ in Hcount.
  unfold tsv_parser.convert_line, tsv_parser.fa_of_transcripts.
  rewrite Hfields in *; rewrite Hcount, Hread.
  destruct data as [|r data]; [now split|].
  rewrite calculate_breaks_nonempty by discriminate.
  apply negb_false_iff, Z.eqb_eq in Hcount.
  set (expected := split SP (strip expected_line)) in *.
  set (matched := map str_of_int _).
  assert (Hlen : length matched
                 = length (combine (split SP in_text) expected)).
  { unfold matched; rewrite length_map, length_combine.
    destruct (provide_breaks_fold U
                (fst (tsv_parser.index_transcript U
                        (tsv_parser.pauses (r :: data))))
                (snd (tsv_parser.index_transcript U
                        (tsv_parser.pauses (r :: data))))
                expected [] 0 (Z.le_refl 0))
      as (entries & index' & Hfold & _ & Hentries & _).
    unfold tsv_parser._provide_breaks_for_expected.
    destruct (tsv_parser.index_transcript U _) as [times_text times_indexes].
    cbn [fst snd] in Hfold; rewrite Hfold; cbn [fst app].
    unfold len in Hcount; lia. }
  destruct (write_tokens_fa U _ [] matched Hlen) as [Hw Hr].
  cbn [app] in Hw, Hr; change (len []) with 0 in Hw, Hr.
  unfold run_then; rewrite Hr; cbn [written raised].
  now rewrite Hw.
Qed.

Lemma convert_line_forced_alignment_example :
  let read (_ : pystr) : outcome tsv_parser.transcript :=
    Return [(690, 750, str "we"); (840, 1350, str "zoo"); (1650, 1920, str "now")] in
  let result :=
    tsv_parser.convert_line ascii_tables
      (Some (tsv_parser.fa_of_transcripts ascii_tables read))
      (str "doc7" ++ [TAB] ++ str "we are now" ++ [LF])
      (str "We are, now." ++ [LF]) in
  raised result = None
  /\ written result
     = [str "we" ++ [TAB] ++ str "B" ++ [TAB] ++ str "90" ++ [LF];
        str "are" ++ [TAB] ++ str "," ++ [TAB] ++ str "-1" ++ [LF];
        str "now" ++ [TAB] ++ str "." ++ [TAB] ++ str "-1" ++ [LF];
        [LF]].
Proof.
  exact (convert_line_forced_alignment ascii_tables
           (fun _ => Return [(690, 750, str "we"); (840, 1350, str "zoo");
                             (1650, 1920, str "now")])
           (str "doc7" ++ [TAB] ++ str "we are now" ++ [LF])
           (str "We are, now." ++ [LF])
           (str "doc7") (str "we are now") _ eq_refl eq_refl eq_refl).
Defined.

(* ================================================================== *)
(** * Reading the CoNLL file back *)
(* ================================================================== *)

Section ProcessFile.

Import DataFrame pandas_converter.

Lemma append_to_last_map {A B} (f : A -> list B) (closed : list A)
    (current : A) (x : B) :
  append_to_last (map f (closed ++ [current])) x
  = Return (map f closed ++ [f current ++ [x]]).
Proof.
  unfold append_to_last; rewrite map_app; cbn [map].
  now rewrite index_last_app, slice_to_last.
Qed.

Lemma append_holding (closed : list (list (pystr * pystr * pystr)))
    (current : list (pystr * pystr * pystr)) (word tag space : pystr) :
  TsvFileData.append (holding (closed ++ [current])) word tag space
  = Return (holding (closed ++ [current ++ [(word, tag, space)]])).
Proof.
  unfold TsvFileData.append, holding; cbn [TsvFileData.words TsvFileData.tags
    TsvFileData.spaces_after].
  rewrite !append_to_last_map.
  rewrite !(map_app _ closed); cbn [map]; now rewrite !map_app.
Qed.

Lemma rows_from_holding (sentences : list (list (pystr * pystr * pystr))) :
  forall id_,
    TsvFileData.rows_from id_
      (combine (map (map (fun x => fst (fst x))) sentences)
         (combine (map (map (fun x => snd (fst x))) sentences)
                  (map (map (fun x => snd x)) sentences)))
    = sentence_rows id_ sentences.
Proof.
  induction sentences as [|sentence rest IH]; intros id_; [reflexivity|].
  cbn [map combine TsvFileData.rows_from sentence_rows]; rewrite IH; f_equal.
  clear; induction sentence as [|[[w t] s] sentence IH]; [reflexivity|].
  cbn [map combine fst snd]; now rewrite IH.
Qed.

Lemma sentence_rows_app (s1 s2 : list (list (pystr * pystr * pystr))) :
  forall id_,
    sentence_rows id_ (s1 ++ s2)
    = sentence_rows id_ s1 ++ sentence_rows (id_ + len s1) s2.
Proof.
  induction s1 as [|s s1 IH]; intros id_.
  - cbn; now rewrite Z.add_0_r.
  - cbn [app sentence_rows]; rewrite IH, <- app_assoc.
    do 3 f_equal; unfold len; cbn [length]; lia.
Qed.

Lemma read_line_classify (data : TsvFileData.t) (line : pystr) :
  _read_line data line
  = match classify line with
    | Skipped => Return data
    | Blank => Return (TsvFileData.append_next_lists data)
    | Token word tag space => TsvFileData.append data word tag space
    | Malformed => Raise ValueError
    end.
Proof.
  unfold _read_line, classify.
  destruct (startswith DOCSTART line); [reflexivity|].
  destruct (strip line) as [|c s]; [reflexivity|].
  destruct (split TAB (c :: s)) as [|a [|b [|d [|e l]]]]; reflexivity.
Qed.

Lemma append_next_lists_holding
    (sentences : list (list (pystr * pystr * pystr))) :
  TsvFileData.append_next_lists (holding sentences)
  = holding (sentences ++ [[]]).
Proof.
  unfold TsvFileData.append_next_lists, holding;
    cbn [TsvFileData.words TsvFileData.tags TsvFileData.spaces_after].
  now rewrite !map_app.
Qed.

Lemma read_lines_conll_rows (lines : list pystr) :
  forall closed current,
    match conll_rows (len closed) lines with
    | Raise e => read_lines (holding (closed ++ [current])) lines = Raise e
    | Return rows =>
        exists closed' current',
          read_lines (holding (closed ++ [current])) lines
          = Return (holding (closed' ++ [current']))
          /\ sentence_rows 0 (closed' ++ [current'])
             = sentence_rows 0 (closed ++ [current]) ++ rows
    end.
Proof.
  induction lines as [|line lines IH]; intros closed current.
  - cbn [conll_rows read_lines]; exists closed, current.
    now rewrite app_nil_r.
  - cbn [conll_rows read_lines]; rewrite read_line_classify.
    destruct (classify line) as [| |word tag space|].
    + apply IH.
    + rewrite append_next_lists_holding.
      specialize (IH (closed ++ [current]) []).
      replace (len (closed ++ [current])) with (len closed + 1) in IH
        by (rewrite len_app; reflexivity).
      destruct (conll_rows (len closed + 1) lines) as [rows|e]; [|exact IH].
      destruct IH as (closed' & current' & Hread & Hrows).
      exists closed', current'; split; [exact Hread|].
      rewrite Hrows, (sentence_rows_app (closed ++ [current]) [[]]).
      cbn [sentence_rows map app]; now rewrite app_nil_r.
    + rewrite append_holding.
      specialize (IH closed (current ++ [(word, tag, space)])).
      destruct (conll_rows (len closed) lines) as [rows|e]; [|exact IH].
      destruct IH as (closed' & current' & Hread & Hrows).
      exists closed', current'; split; [exact Hread|].
      rewrite Hrows, !sentence_rows_app; cbn [sentence_rows].
      rewrite map_app, !app_nil_r, <- !app_assoc, Z.add_0_l; reflexivity.
    + reflexivity.
Qed.

Lemma process_file_conll_rows (lines : list pystr) :
  _process_file TsvFileData.new lines = conll_rows 0 lines.
Proof.
  unfold _process_file.
  pose proof (read_lines_conll_rows lines [] []) as H.
  change (holding ([] ++ [[]])) with TsvFileData.new in H.
  change (len []) with 0 in H.
  destruct (conll_rows 0 lines) as [rows|e]; [|now rewrite H].
  destruct H as (closed & current & -> & Hrows).
  cbn [app sentence_rows map] in Hrows.
  unfold holding at 1; cbn [TsvFileData.words].
  rewrite map_app; cbn [map]; rewrite index_last_app.
  destruct current as [|x current].
  - cbn [map]; unfold TsvFileData.to_data_frame;
      cbn [TsvFileData.words TsvFileData.tags TsvFileData.spaces_after holding].
    rewrite !map_app; cbn [map]; rewrite !slice_to_last.
    rewrite rows_from_holding, <- Hrows, sentence_rows_app.
    cbn [sentence_rows map]; now rewrite !app_nil_r.
  - cbn [map]; unfold TsvFileData.to_data_frame, holding;
      cbn [TsvFileData.words TsvFileData.tags TsvFileData.spaces_after].
    now rewrite rows_from_holding, <- Hrows.
Qed.

Lemma conll_rows_malformed (lines : list pystr) :
  forall id_,
    if existsb is_malformed lines
    then conll_rows id_ lines = Raise ValueError
    else exists rows, conll_rows id_ lines = Return rows.
Proof.
  induction lines as [|line lines IH]; intros id_;
    cbn [existsb conll_rows]; [now eauto|].
  unfold is_malformed at 1.
  destruct (classify line) as [| |word tag space|]; cbn [orb];
    try apply IH; [|reflexivity].
  specialize (IH id_); destruct (existsb is_malformed lines).
  - now rewrite IH.
  - destruct IH as [rows ->]; now eauto.
Qed.

End ProcessFile.

(** X9. [_process_file] on a fresh [TsvFileData] reads the file as a
    stream: a line that starts with [-DOCSTART-] is ignored, a line of
    white space closes a sentence, and any other line gives one row whose
    sentence id is the number of blank lines before it, with a space in
    the third column when the line has only two. Consecutive blank lines
    leave gaps in the ids, and dropping the last, empty sentence changes
    nothing in the frame. *)
Theorem process_file_streams (lines : list pystr) :
  pandas_converter._process_file pandas_converter.TsvFileData.new lines
  = pandas_converter.conll_rows 0 lines.
Proof. apply process_file_conll_rows. Qed.

(** X10. [_process_file] raises exactly when some line of the file that
    is neither skipped nor blank has a number of tab-separated fields
    other than two or three, and then it raises [ValueError]. *)
Theorem process_file_raises_on_fields (lines : list pystr) :
  if existsb pandas_converter.is_malformed lines
  then pandas_converter._process_file pandas_converter.TsvFileData.new lines
       = Raise ValueError
  else exists rows,
         pandas_converter._process_file pandas_converter.TsvFileData.new lines
         = Return rows.
Proof.
  rewrite process_file_conll_rows; apply conll_rows_malformed.
Qed.

(* ================================================================== *)
(** * The output of the aligner read back by the splitter *)
(* ================================================================== *)

Lemma plain_cons (field : pystr) :
  plain field = true ->
  exists c rest, field = c :: rest /\ isspace c = false
                 /\ forallb (fun c => negb (isspace c)) field = true.
Proof.
  destruct field as [|c rest]; [discriminate|]; intros H.
  exists c, rest; split; [reflexivity|]; split; [|exact H].
  cbn [plain forallb] in H; apply andb_true_iff in H.
  now apply negb_true_iff.
Qed.

Lemma plain_rev (field : pystr) : plain field = true -> plain (rev field) = true.
Proof.
  intros H; destruct (plain_cons field H) as (c & rest & -> & _ & Hall).
  assert (Hrev : forallb (fun c => negb (isspace c)) (rev (c :: rest)) = true).
  { rewrite forallb_forall in *; intros x Hx; apply Hall.
    now apply in_rev. }
  unfold plain; destruct (rev (c :: rest)) eqn:E; [|exact Hrev].
  apply (f_equal (@length _)) in E; rewrite length_rev in E; discriminate.
Qed.

Lemma lstrip_plain_app (field rest : pystr) :
  plain field = true -> lstrip (field ++ rest) = field ++ rest.
Proof.
  intros H; destruct (plain_cons field H) as (c & tail & -> & Hc & _).
  cbn [app lstrip]; now rewrite Hc.
Qed.

Lemma strip_token_line (word tag : pystr) :
  plain word = true -> plain tag = true ->
  strip (word ++ [TAB] ++ tag ++ [LF]) = word ++ [TAB] ++ tag.
Proof.
  intros Hw Ht; unfold strip.
  rewrite lstrip_plain_app by exact Hw.
  replace (word ++ [TAB] ++ tag ++ [LF]) with ((word ++ [TAB] ++ tag) ++ [LF])
    by now rewrite <- !app_assoc.
  rewrite rev_app_distr.
  change (rev [LF] ++ rev (word ++ [TAB] ++ tag))
    with (LF :: rev (word ++ [TAB] ++ tag)).
  cbn [lstrip]; change (isspace LF) with true; cbv iota.
  rewrite (app_assoc word), rev_app_distr.
  rewrite lstrip_plain_app by now apply plain_rev.
  now rewrite <- rev_app_distr, rev_involutive, <- app_assoc.
Qed.

Lemma no_space_no_tab (field : pystr) :
  forallb (fun c => negb (isspace c)) field = true ->
  forallb (fun c => negb (N.eqb c TAB)) field = true.
Proof.
  intros H; rewrite forallb_forall in *; intros c Hc; specialize (H c Hc).
  destruct (N.eqb_spec c TAB) as [->|]; [discriminate H|reflexivity].
Qed.

Lemma split_no_sep (sep : char) (field : pystr) :
  forallb (fun c => negb (N.eqb c sep)) field = true ->
  split sep field = [field].
Proof.
  induction field as [|c field IH]; [reflexivity|].
  cbn [forallb split]; intros H; apply andb_true_iff in H.
  destruct H as [Hc H]; apply negb_true_iff in Hc.
  now rewrite Hc, IH.
Qed.

Lemma split_app_sep (sep : char) (field rest : pystr) :
  forallb (fun c => negb (N.eqb c sep)) field = true ->
  split sep (field ++ sep :: rest) = field :: split sep rest.
Proof.
  induction field as [|c field IH].
  - intros _; cbn [app split]; now rewrite N.eqb_refl.
  - cbn [forallb split app]; intros H; apply andb_true_iff in H.
    destruct H as [Hc H]; apply negb_true_iff in Hc.
    now rewrite Hc, IH.
Qed.

Lemma startswith_app_sep (sep : char) (prefix text rest : pystr) :
  forallb (fun c => negb (N.eqb c sep)) prefix = true ->
  startswith prefix (text ++ sep :: rest) = startswith prefix text.
Proof.
  revert text; induction prefix as [|c prefix IH]; intros text H;
    [now destruct text|].
  cbn [forallb] in H; apply andb_true_iff in H; destruct H as [Hc H].
  destruct text as [|d text]; cbn [app startswith].
  - apply negb_true_iff in Hc; now rewrite Hc.
  - now rewrite IH.
Qed.

Section ReadBack.

Import DataFrame pandas_converter.

Variable U : unicode.

Lemma classify_token_line (tokens : pystr * pystr) :
  plain_tokens U tokens = true ->
  classify (tsv_parser.token_line U tokens)
  = Token (fst tokens)
      (tsv_parser.label_of (fst tokens) (lower U (snd tokens))) (str " ").
Proof.
  destruct tokens as [in_token expected_token]; cbn [fst snd].
  unfold plain_tokens, tsv_parser.token_line; intros H.
  apply andb_true_iff in H; destruct H as [H Hl].
  apply andb_true_iff in H; destruct H as [Hw Hd].
  apply negb_true_iff in Hd.
  set (label := tsv_parser.label_of in_token (lower U expected_token)) in *.
  destruct (plain_cons _ Hw) as (c & rest & Ew & Hc & Hwall).
  destruct (plain_cons _ Hl) as (_ & _ & _ & _ & Hlall).
  unfold classify.
  change (in_token ++ [TAB] ++ label ++ [LF])
    with (in_token ++ TAB :: label ++ [LF]) at 1.
  rewrite startswith_app_sep, Hd by reflexivity.
  rewrite strip_token_line by assumption.
  cbn [app]; rewrite split_app_sep by now apply no_space_no_tab.
  rewrite split_no_sep by now apply no_space_no_tab.
  now rewrite Ew.
Qed.

Lemma conll_rows_tokens (tokens : list (pystr * pystr)) (id_ : Z)
    (rest : list pystr) :
  forallb (plain_tokens U) tokens = true ->
  conll_rows id_ (map (tsv_parser.token_line U) tokens ++ rest)
  = match conll_rows id_ rest with
    | Raise e => Raise e
    | Return rows =>
        Return (map (fun '(in_token, expected_token) =>
                       {| words := in_token;
                          labels := tsv_parser.label_of in_token
                                      (lower U expected_token);
                          times := str " ";
                          sentence_id := id_ |}) tokens ++ rows)
    end.
Proof.
  induction tokens as [|[in_token expected_token] tokens IH].
  - intros _; cbn [map app]; now destruct (conll_rows id_ rest).
  - cbn [forallb map app conll_rows]; intros H; apply andb_true_iff in H.
    destruct H as [H1 H2].
    rewrite (classify_token_line _ H1), (IH H2); cbn [fst snd].
    now destruct (conll_rows id_ rest).
Qed.

Lemma conll_rows_documents (lines : list (pystr * pystr)) :
  forall id_,
    forallb (plain_lines U) lines = true ->
    conll_rows id_ (written (tsv_parser.convert_lines U None lines))
    = Return (document_rows U id_ lines).
Proof.
  induction lines as [|[in_line expected_line] lines IH]; intros id_;
    [reflexivity|].
  cbn [forallb tsv_parser.convert_lines document_rows].
  intros H; apply andb_true_iff in H; destruct H as [H1 H2].
  destruct (convert_line_plain U in_line expected_line) as [Hw Hr].
  unfold plain_lines in H1; cbn [fst snd] in H1.
  unfold tsv_parser.has_two_fields in Hr.
  unfold tsv_parser.document_block in Hw.
  destruct (split TAB (strip in_line)) as [|a [|b [|c l]]];
    try discriminate H1.
  unfold run_then; rewrite Hr; cbn [written]; rewrite Hw.
  destruct (tsv_parser.token_counts_differ in_line expected_line);
    cbn [orb] in H1.
  - cbn [app]; now apply IH.
  - rewrite <- app_assoc, (conll_rows_tokens _ _ _ H1).
    cbn [app conll_rows]; change (classify [LF]) with Blank; cbv iota.
    now rewrite (IH (id_ + 1) H2).
Qed.

End ReadBack.

(** X11. What [TsvParser.convert] writes without forced alignment,
    [DataFrameSplitter._process_file] reads back: one row per token with
    its label and a space for the pause, and as sentence id the position
    of the document among those that were not skipped. This holds when
    every token and label is plain, that is not empty and free of white
    space, and no token starts with [-DOCSTART-]. *)
Theorem convert_then_process_file (U : unicode)
    (in_file expected_file : list pystr) :
  forallb (plain_lines U) (combine in_file expected_file) = true ->
  pandas_converter._process_file pandas_converter.TsvFileData.new
    (written (tsv_parser.convert U None in_file expected_file))
  = Return (document_rows U 0 (combine in_file expected_file)).
Proof.
  intros H; rewrite process_file_conll_rows.
  now apply conll_rows_documents.
Qed.

Lemma convert_then_process_file_example :
  pandas_converter._process_file pandas_converter.TsvFileData.new
    (written (tsv_parser.convert ascii_tables None
                [str "doc1" ++ [TAB] ++ str "the dog" ++ [LF];
                 str "doc2" ++ [TAB] ++ str "one two" ++ [LF];
                 str "doc3" ++ [TAB] ++ str "barks" ++ [LF]]
                [str "The dog," ++ [LF]; str "One." ++ [LF];
                 str "Barks..." ++ [LF]]))
  = Return
      [ {| DataFrame.words := str "the"; DataFrame.labels := str "B";
           DataFrame.times := str " "; DataFrame.sentence_id := 0 |};
        {| DataFrame.words := str "dog"; DataFrame.labels := str ",";
           DataFrame.times := str " "; DataFrame.sentence_id := 0 |};
        {| DataFrame.words := str "barks"; DataFrame.labels := str "...";
           DataFrame.times := str " "; DataFrame.sentence_id := 1 |} ].
Proof.
  exact (convert_then_process_file ascii_tables
           [str "doc1" ++ [TAB] ++ str "the dog" ++ [LF];
            str "doc2" ++ [TAB] ++ str "one two" ++ [LF];
            str "doc3" ++ [TAB] ++ str "barks" ++ [LF]]
           [str "The dog," ++ [LF]; str "One." ++ [LF];
            str "Barks..." ++ [LF]] eq_refl).
Defined.

(** X12. An empty input token, as two spaces in a row in [in.tsv] give
    one, is written as a line that begins with the tab; stripped, it has
    one field only, and [_read_line] raises [ValueError] on it. *)
Theorem read_line_empty_token (U : unicode) (expected_token : pystr)
    (data : pandas_converter.TsvFileData.t) :
  plain (tsv_parser.label_of [] (lower U expected_token)) = true ->
  pandas_converter._read_line data
    (tsv_parser.token_line U ([], expected_token))
  = Raise ValueError.
Proof.
  intros Hl; rewrite read_line_classify.
  unfold tsv_parser.token_line; cbn [app].
  set (label := tsv_parser.label_of [] (lower U expected_token)) in *.
  destruct (plain_cons _ Hl) as (c & rest & E & Hc & Hall).
  unfold pandas_converter.classify.
  change (startswith pandas_converter.DOCSTART (TAB :: label ++ [LF]))
    with false; cbv iota.
  assert (Hstrip : strip (TAB :: label ++ [LF]) = label).
  { unfold strip; cbn [lstrip]; change (isspace TAB) with true; cbv iota.
    rewrite lstrip_plain_app by exact Hl.
    rewrite rev_app_distr.
    change (rev [LF] ++ rev label) with (LF :: rev label).
    cbn [lstrip]; change (isspace LF) with true; cbv iota.
    rewrite <- (app_nil_r (rev label)).
    rewrite lstrip_plain_app by now apply plain_rev.
    now rewrite app_nil_r, rev_involutive. }
  rewrite Hstrip, E, <- E.
  now rewrite split_no_sep by now apply no_space_no_tab.
Qed.

Lemma read_line_empty_token_example :
  pandas_converter._read_line pandas_converter.TsvFileData.new
    ([TAB] ++ str "B" ++ [LF])
  = Raise ValueError.
Proof.
  exact (read_line_empty_token ascii_tables (str "dog")
           pandas_converter.TsvFileData.new eq_refl).
Defined.

(* ================================================================== *)
(** * The two texts of the corpus loader *)
(* ================================================================== *)

Lemma sub_spaces_In (u : pystr) (x : char) : In x (sub_spaces u) -> In x u.
Proof.
  induction u as [|c u IH]; [easy|].
  rewrite sub_spaces_cons; unfold collapse_cons.
  destruct (N.eqb_spec c SP) as [->|].
  - destruct (sub_spaces u) as [|d w] eqn:E.
    + intros [<-|[]]; now left.
    + destruct (N.eqb d SP); intros H; [right; now apply IH|].
      destruct H as [<-|H]; [now left|right; now apply IH].
  - intros [<-|H]; [now left|right; now apply IH].
Qed.

Lemma blanked_no_hellip (U : unicode) (text : pystr) :
  ~ In HELLIP (json_converter.blanked U text).
Proof.
  unfold json_converter.blanked; intros H; apply sub_spaces_In in H.
  unfold sub_set_by_space in H; apply in_map_iff in H.
  destruct H as (c & Hc & _).
  destruct (char_in normalized_away c) eqn:E; [discriminate Hc|].
  subst c; discriminate E.
Qed.

Lemma sub_hellip_id (text : pystr) : ~ In HELLIP text -> sub_hellip text = text.
Proof.
  induction text as [|c text IH]; [reflexivity|].
  intros H; unfold sub_hellip in *; cbn [flat_map].
  destruct (N.eqb_spec c HELLIP) as [->|]; [elim H; now left|].
  cbn [app]; rewrite IH; [reflexivity|].
  intros Hin; apply H; now right.
Qed.

Lemma sub_set_by_space_no_hellip (text : pystr) :
  ~ In HELLIP text ->
  sub_set_by_space normalized_away text
  = sub_set_by_space (str ",!?.:;-") text.
Proof.
  intros H; unfold sub_set_by_space; apply map_ext_in; intros c Hc.
  change (char_in normalized_away c)
    with (N.eqb c HELLIP || char_in (str ",!?.:;-") c).
  destruct (N.eqb_spec c HELLIP) as [->|]; [contradiction|reflexivity].
Qed.

Section LoadJson.

Import json_converter.

Variable U : unicode.

Hypothesis lower_app : forall a b, lower U (a ++ b) = lower U a ++ lower U b.
Hypothesis lower_fixes :
  forall p, forallb (char_in (SP :: normalized_away)) p = true ->
            lower U p = p.

(** One turn of [_build_texts] keeps the two texts equal up to the
    characters that the normaliser blanks. *)
Lemma build_texts_step_blanked (w : WordData)
    (text_in text_exp text_intact : pystr) :
  blanked U text_exp = blanked U text_in ->
  let '(a, b, _) := _build_texts_step U (text_in, text_exp, text_intact) w in
  blanked U b = blanked U a.
Proof.
  intros He; unfold _build_texts_step.
  destruct (match_non_alphanumeric U (word w)); cbn [negb].
  - destruct (space_after w || negb (str_eqb (punctuation w) []));
      [now apply (blanked_app_l U lower_app)|exact He].
  - destruct (str_eqb_spec (punctuation w) (str "-")) as [Hh|Hh].
    + rewrite Hh; cbn [str_eqb str map list_ascii_of_string].
      destruct (space_after w); cbn [andb negb orb].
      * now do 2 apply (blanked_app_l U lower_app).
      * rewrite <- !app_assoc.
        rewrite (blanked_app_l U lower_app _ _ _ He).
        do 2 apply (blanked_app_r U lower_app).
        now apply (blanked_punctuation_space U lower_fixes (str "-")).
    + cbn [andb].
      destruct (space_after w || negb (str_eqb (punctuation w) []));
        now repeat apply (blanked_app_l U lower_app).
Qed.

Lemma build_texts_blanked (ws : list WordData) :
  forall text_in text_exp text_intact,
    blanked U text_exp = blanked U text_in ->
    let '(a, b, _) :=
      fold_left (_build_texts_step U) ws (text_in, text_exp, text_intact) in
    blanked U b = blanked U a.
Proof.
  induction ws as [|w ws IH]; intros text_in text_exp text_intact He;
    cbn [fold_left]; [exact He|].
  pose proof (build_texts_step_blanked w text_in text_exp text_intact He)
    as Hstep.
  destruct (_build_texts_step U (text_in, text_exp, text_intact) w)
    as [[a b] c].
  now apply IH.
Qed.

(** The input text is made of the words and of spaces. *)
Lemma build_texts_step_no_hellip (w : WordData)
    (text_in text_exp text_intact : pystr) :
  ~ In HELLIP (lower U (word w)) ->
  ~ In HELLIP (lower U text_in) ->
  ~ In HELLIP
      (lower U (fst (fst (_build_texts_step U
                            (text_in, text_exp, text_intact) w)))).
Proof.
  intros Hw Hi; unfold _build_texts_step.
  assert (Hsp : lower U (str " ") = str " ") by now apply lower_fixes.
  destruct (match_non_alphanumeric U (word w)); cbn [negb];
    destruct (space_after w || negb (str_eqb (punctuation w) []));
    cbn [fst]; rewrite ?lower_app, ?Hsp, ?in_app_iff;
    try exact Hi; intros H; decompose [or] H; try contradiction;
    match goal with H' : In HELLIP (str " ") |- _ =>
      destruct H' as [H'|[]]; discriminate H' end.
Qed.

Lemma build_texts_no_hellip (ws : list WordData) :
  forall text_in text_exp text_intact,
    (forall w, In w ws -> ~ In HELLIP (lower U (word w))) ->
    ~ In HELLIP (lower U text_in) ->
    ~ In HELLIP
        (lower U (fst (fst (fold_left (_build_texts_step U) ws
                              (text_in, text_exp, text_intact))))).
Proof.
  induction ws as [|w ws IH]; intros text_in text_exp text_intact Hw Hi;
    cbn [fold_left]; [exact Hi|].
  pose proof (build_texts_step_no_hellip w text_in text_exp text_intact
                (Hw w (or_introl eq_refl)) Hi) as Hstep.
  destruct (_build_texts_step U (text_in, text_exp, text_intact) w)
    as [[a b] c].
  apply IH; [|exact Hstep].
  intros w' Hw'; apply Hw; now right.
Qed.

Lemma load_json_texts (path : json_file) :
  (forall w, In w (words (content path)) ->
     ~ In HELLIP (lower U (word w))) ->
  fst (_load_json U path) = snd (_load_json U path).
Proof.
  intros Hw; unfold _load_json, _build_texts.
  pose proof (build_texts_blanked (words (content path)) [] [] [] eq_refl)
    as Hb.
  assert (Hnil : ~ In HELLIP (lower U [])).
  { rewrite (lower_fixes []) by reflexivity; easy. }
  pose proof (build_texts_no_hellip (words (content path)) [] [] [] Hw Hnil)
    as Hh.
  destruct (fold_left (_build_texts_step U) _ _) as [[a b] c].
  cbn [fst snd] in *.
  rewrite normalize_text_exp_blanked, Hb.
  rewrite sub_hellip_id by apply blanked_no_hellip.
  unfold _normalize_text_in, blanked.
  now rewrite sub_set_by_space_no_hellip.
Qed.

End LoadJson.

(** X13. The corpus loader of [json_converter.py] returns the same text
    twice: the text it calls expected has lost every punctuation mark to
    the normaliser and equals the input text. This holds for every
    document none of whose words has U+2026 in its lower case, for a
    [str.lower] that works piece by piece and leaves the space and the
    characters [… , ! ? . : ; -] alone. *)
Theorem load_json_texts_equal (U : unicode)
    (path : json_converter.json_file) :
  (forall a b, lower U (a ++ b) = lower U a ++ lower U b) ->
  (forall p, forallb (char_in (SP :: normalized_away)) p = true ->
             lower U p = p) ->
  (forall w, In w (json_converter.words (json_converter.content path)) ->
     ~ In HELLIP (lower U (json_converter.word w))) ->
  fst (json_converter._load_json U path)
  = snd (json_converter._load_json U path).
Proof.
  intros Happ Hfix Hw; exact (load_json_texts U Happ Hfix path Hw).
Qed.

Lemma ascii_lower_app (a b : pystr) :
  lower ascii_tables (a ++ b) = lower ascii_tables a ++ lower ascii_tables b.
Proof. apply map_app. Qed.

Lemma ascii_lower_fixes (p : pystr) :
  forallb (char_in (SP :: normalized_away)) p = true ->
  lower ascii_tables p = p.
Proof.
  intros Hp; simpl; rewrite <- (map_id p) at 2.
  apply map_ext_in; intros c Hc.
  rewrite forallb_forall in Hp; specialize (Hp c Hc).
  unfold char_in in Hp; apply existsb_exists in Hp.
  destruct Hp as (x & Hx & Hcx); apply N.eqb_eq in Hcx; subst x.
  simpl in Hx; decompose [or] Hx; subst; try reflexivity; contradiction.
Qed.

Lemma load_json_texts_equal_example :
  fst (json_converter._load_json ascii_tables
         {| json_converter.stem := str "wikinews1";
            json_converter.content := dog_document |})
  = snd (json_converter._load_json ascii_tables
           {| json_converter.stem := str "wikinews1";
              json_converter.content := dog_document |}).
Proof.
  apply (load_json_texts_equal ascii_tables _ ascii_lower_app
           ascii_lower_fixes).
  intros w Hw H; cbn in Hw; decompose [or] Hw; subst; try contradiction;
    cbn in H; decompose [or] H; try contradiction; discriminate.
Defined.

(* ================================================================== *)
(** * What [strip] and the collapsing of spaces leave *)
(* ================================================================== *)

Lemma lstrip_suffix (s : pystr) :
  exists a, s = a ++ lstrip s /\ forallb isspace a = true.
Proof.
  induction s as [|c s (a & Ha & Hs)]; [now exists []|].
  cbn [lstrip]; destruct (isspace c) eqn:E; [|now exists []].
  exists (c :: a); cbn [app forallb]; rewrite E, Hs; split; [|reflexivity].
  now rewrite <- Ha.
Qed.

Lemma lstrip_hd (s : pystr) (c : char) (r : pystr) :
  lstrip s = c :: r -> isspace c = false.
Proof.
  induction s as [|d s IH]; [discriminate|].
  cbn [lstrip]; destruct (isspace d) eqn:E; [exact IH|].
  now intros [= <- _].
Qed.

Lemma lstrip_app_space (a s : pystr) :
  forallb isspace a = true -> lstrip (a ++ s) = lstrip s.
Proof.
  induction a as [|c a IH]; [reflexivity|].
  cbn [forallb app lstrip]; intros H; apply andb_true_iff in H.
  destruct H as [-> H]; now apply IH.
Qed.

Lemma trimmed_ends (t : pystr) :
  trimmed t = true ->
  (exists c r, t = c :: r /\ isspace c = false)
  /\ (exists c r, rev t = c :: r /\ isspace c = false).
Proof.
  destruct t as [|c r]; [discriminate|].
  unfold trimmed; intros H; apply andb_true_iff in H; destruct H as [H1 H2].
  apply negb_true_iff in H1, H2; split; [now exists c, r|].
  exists (last (c :: r) c), (rev (removelast (c :: r))); split; [|exact H2].
  replace (rev (c :: r))
    with (rev (removelast (c :: r) ++ [last (c :: r) c]))
    by (now rewrite <- app_removelast_last).
  now rewrite rev_app_distr.
Qed.

Lemma strip_between (a t b : pystr) :
  forallb isspace a = true -> forallb isspace b = true ->
  trimmed t = true ->
  strip (a ++ t ++ b) = t.
Proof.
  intros Ha Hb Ht.
  destruct (trimmed_ends t Ht) as [(c & r & E & Hc) (c' & r' & E' & Hc')].
  unfold strip; rewrite lstrip_app_space by exact Ha.
  assert (H1 : lstrip (t ++ b) = t ++ b).
  { rewrite E; cbn [app lstrip]; now rewrite Hc. }
  rewrite H1, rev_app_distr, lstrip_app_space.
  - assert (H2 : lstrip (rev t) = rev t).
    { rewrite E'; cbn [lstrip]; now rewrite Hc'. }
    now rewrite H2, rev_involutive.
  - rewrite forallb_forall in *; intros x Hx; apply Hb; now apply in_rev.
Qed.

Lemma strip_infix (s : pystr) : exists a b, s = a ++ strip s ++ b.
Proof.
  destruct (lstrip_suffix s) as (a & Ha & _).
  destruct (lstrip_suffix (rev (lstrip s))) as (b & Hb & _).
  exists a, (rev b); unfold strip.
  rewrite <- rev_app_distr, <- Hb, rev_involutive; exact Ha.
Qed.

Lemma strip_trimmed (s : pystr) : strip s <> [] -> trimmed (strip s) = true.
Proof.
  intros Hne.
  destruct (lstrip_suffix s) as (a & Ha & _).
  destruct (lstrip_suffix (rev (lstrip s))) as (b & Hb & _).
  assert (Hl : lstrip s = strip s ++ rev b).
  { unfold strip; rewrite <- rev_app_distr, <- Hb; now rewrite rev_involutive. }
  destruct (strip s) as [|c r] eqn:E; [contradiction|].
  unfold trimmed; apply andb_true_iff; split; apply negb_true_iff.
  - cbn [app] in Hl; exact (lstrip_hd _ _ _ Hl).
  - unfold strip in E.
    destruct (lstrip (rev (lstrip s))) as [|h tail] eqn:El;
      [discriminate E|].
    cbn [rev] in E; rewrite <- E, last_last.
    exact (lstrip_hd _ _ _ El).
Qed.

Lemma single_spaced_collapse_cons (c : char) (w : pystr) :
  single_spaced w = true -> single_spaced (collapse_cons c w) = true.
Proof.
  intros H; unfold collapse_cons.
  destruct (N.eqb_spec c SP) as [->|Hc].
  - destruct w as [|d w]; [reflexivity|].
    destruct (N.eqb d SP) eqn:E; [exact H|].
    change (single_spaced (SP :: d :: w))
      with (negb (N.eqb SP SP && N.eqb d SP) && single_spaced (d :: w)).
    now rewrite E, H.
  - cbn [single_spaced]; rewrite H, andb_true_r.
    destruct w; [reflexivity|].
    apply N.eqb_neq in Hc; now rewrite Hc.
Qed.

Lemma single_spaced_sub_spaces (u : pystr) :
  single_spaced (sub_spaces u) = true.
Proof.
  induction u as [|c u IH]; [reflexivity|].
  rewrite sub_spaces_cons; now apply single_spaced_collapse_cons.
Qed.

Lemma single_spaced_app (a b : pystr) :
  single_spaced (a ++ b) = true ->
  single_spaced a = true /\ single_spaced b = true.
Proof.
  induction a as [|c a IH]; [now split|].
  cbn [app single_spaced]; intros H; apply andb_true_iff in H.
  destruct H as [H1 H2]; destruct (IH H2) as [Ha Hb]; split; [|exact Hb].
  rewrite Ha, andb_true_r; destruct a as [|d a]; [reflexivity|exact H1].
Qed.

Lemma single_spaced_strip (s : pystr) :
  single_spaced s = true -> single_spaced (strip s) = true.
Proof.
  destruct (strip_infix s) as (a & b & E); rewrite E at 1; intros H.
  apply single_spaced_app in H; destruct H as [_ H].
  now apply single_spaced_app in H.
Qed.

(** The fields of a single-spaced text that does not end with a space:
    only the first can be empty, and only at a leading space. *)
Lemma split_fields (t : pystr) :
  single_spaced t = true ->
  last t 0%N <> SP ->
  Forall (fun field => field <> []) (tl (split SP t))
  /\ (hd [] (split SP t) = [] -> t = [] \/ hd_error t = Some SP).
Proof.
  induction t as [|c t IH]; [split; [constructor|now left]|].
  cbn [single_spaced]; intros H Hlast; apply andb_true_iff in H.
  destruct H as [Hcd Hs].
  assert (Hlast' : t <> [] -> last t 0%N <> SP) by now destruct t.
  cbn [split]; destruct (N.eqb_spec c SP) as [->|Hc].
  - split; [|now right]; cbn [tl].
    destruct t as [|d t]; [now elim Hlast|].
    destruct (IH Hs (Hlast' ltac:(discriminate))) as [IH1 IH2].
    destruct (split SP (d :: t)) as [|w ws] eqn:E.
    + constructor.
    + constructor; [|exact IH1].
      intros ->; destruct (IH2 eq_refl) as [|Hhd]; [discriminate|].
      injection Hhd as ->; discriminate Hcd.
  - destruct t as [|d t].
    + cbn [split tl hd]; split; [constructor|discriminate].
    + destruct (IH Hs (Hlast' ltac:(discriminate))) as [IH1 _].
      destruct (split SP (d :: t)) as [|w ws]; cbn [tl hd] in *;
        (split; [assumption || constructor|discriminate]).
Qed.

Lemma last_default {A} (l : list A) (d d' : A) :
  l <> [] -> last l d = last l d'.
Proof.
  induction l as [|x l IH]; [contradiction|]; intros _.
  destruct l as [|y l]; [reflexivity|].
  cbn [last] in *; apply IH; discriminate.
Qed.

Lemma split_trimmed (t : pystr) :
  single_spaced t = true -> trimmed t = true ->
  Forall (fun field => field <> []) (split SP t).
Proof.
  intros Hs Ht; destruct t as [|c t]; [discriminate|].
  unfold trimmed in Ht; apply andb_true_iff in Ht; destruct Ht as [H1 H2].
  apply negb_true_iff in H1, H2.
  assert (Hlast : last (c :: t) 0%N <> SP).
  { rewrite (last_default _ 0%N c) by discriminate.
    intros E; apply (f_equal isspace) in E.
    exact (diff_true_false (eq_trans (eq_sym E) H2)). }
  destruct (split_fields (c :: t) Hs Hlast) as [Htl Hhd].
  destruct (split SP (c :: t)) as [|w ws] eqn:E; [constructor|].
  constructor; [|exact Htl].
  intros ->; destruct (Hhd eq_refl) as [|Hc]; [discriminate|].
  injection Hc as ->; discriminate H1.
Qed.

Lemma plain_trimmed (field : pystr) : plain field = true -> trimmed field = true.
Proof.
  intros H; destruct (plain_cons field H) as (c & rest & -> & Hc & Hall).
  unfold trimmed; rewrite Hc; cbn [negb andb].
  rewrite forallb_forall in Hall; apply Hall.
  destruct (exists_last (l := c :: rest)) as (l' & x & E); [discriminate|].
  rewrite E, last_last; apply in_or_app; right; now left.
Qed.

Lemma last_app_nonempty {A} (u v : list A) (d d' : A) :
  v <> [] -> last (u ++ v) d = last v d'.
Proof.
  intros Hv; destruct (exists_last Hv) as (l' & x & ->).
  now rewrite app_assoc, !last_last.
Qed.

Lemma trimmed_app (field text : pystr) :
  plain field = true -> trimmed text = true ->
  trimmed (field ++ [TAB] ++ text) = true.
Proof.
  intros Hf Ht; destruct (plain_cons field Hf) as (c & rest & -> & Hc & _).
  destruct text as [|d text]; [discriminate|].
  unfold trimmed in Ht; apply andb_true_iff in Ht; destruct Ht as [_ Ht].
  change (trimmed ((c :: rest) ++ [TAB] ++ d :: text))
    with (negb (isspace c)
          && negb (isspace (last ((c :: rest) ++ [TAB] ++ d :: text) c))).
  rewrite Hc, (app_assoc (c :: rest)).
  rewrite (last_app_nonempty _ (d :: text) c d) by discriminate.
  exact Ht.
Qed.

(* ================================================================== *)
(** * The files of the corpus loader and their readers *)
(* ================================================================== *)

Section CorpusFiles.

Import json_converter.

Variable U : unicode.

Lemma normalized_clean (set : pystr) (text : pystr) :
  char_in set SP = false ->
  let t := strip (sub_spaces (sub_set_by_space set text)) in
  (t = [] \/ Forall (fun field => field <> []) (split SP t))
  /\ Forall (fun c => char_in set c = false) t
  /\ (t <> [] -> trimmed t = true).
Proof.
  intros Hsp t; split; [|split].
  - destruct t as [|c r] eqn:E; [now left|right; rewrite <- E].
    apply split_trimmed.
    + apply single_spaced_strip, single_spaced_sub_spaces.
    + apply strip_trimmed; unfold t in E; now rewrite E.
  - apply Forall_forall; intros c Hc.
    destruct (strip_infix (sub_spaces (sub_set_by_space set text)))
      as (a & b & E).
    assert (Hin : In c (sub_spaces (sub_set_by_space set text))).
    { rewrite E; apply in_or_app; right; apply in_or_app; now left. }
    apply sub_spaces_In in Hin; unfold sub_set_by_space in Hin.
    apply in_map_iff in Hin; destruct Hin as (x & <- & _).
    destruct (char_in set x) eqn:Ex; [exact Hsp|exact Ex].
  - apply strip_trimmed.
Qed.

Lemma load_json_fst (path : json_file) :
  fst (_load_json U path)
  = _normalize_text_in U (fst (fst (_build_texts U (content path)))).
Proof.
  unfold _load_json; now destruct (_build_texts U (content path)) as [[a b] c].
Qed.

Lemma load_json_snd (path : json_file) :
  snd (_load_json U path)
  = _normalize_text_exp U (snd (fst (_build_texts U (content path)))).
Proof.
  unfold _load_json; now destruct (_build_texts U (content path)) as [[a b] c].
Qed.

Lemma normalize_text_exp_strip (text : pystr) :
  _normalize_text_exp U text
  = strip (sub_spaces (sub_set_by_space normalized_away (lower U text))).
Proof.
  rewrite normalize_text_exp_blanked.
  now rewrite sub_hellip_id by apply blanked_no_hellip.
Qed.

Lemma in_line_fields (path : json_file) :
  writable U path = true ->
  split TAB (strip (stem path ++ [TAB] ++ fst (_load_json U path) ++ [LF]))
  = [stem path; fst (_load_json U path)].
Proof.
  unfold writable; intros H; apply andb_true_iff in H; destruct H as [Hs Ht].
  assert (Htrim : trimmed (fst (_load_json U path)) = true).
  { rewrite load_json_fst in *; unfold _normalize_text_in in *.
    apply (normalized_clean (str ",!?.:;-")); [reflexivity|].
    intros E; now rewrite E in Ht. }
  assert (Htab : forallb (fun c => negb (N.eqb c TAB))
                   (fst (_load_json U path)) = true).
  { assert (H : forallb (fun c => negb (char_in [TAB; LF; 13%N] c))
                  (fst (_load_json U path)) = true)
      by now destruct (fst (_load_json U path)).
    rewrite forallb_forall in *; intros c Hc; specialize (H c Hc).
    destruct (N.eqb_spec c TAB) as [->|]; [discriminate H|reflexivity]. }
  replace (stem path ++ [TAB] ++ fst (_load_json U path) ++ [LF])
    with ([] ++ (stem path ++ [TAB] ++ fst (_load_json U path)) ++ [LF])
    by (cbn [app]; now rewrite <- !app_assoc).
  rewrite strip_between; try reflexivity; [|now apply trimmed_app].
  destruct (plain_cons _ Hs) as (_ & _ & _ & _ & Hall).
  cbn [app]; rewrite split_app_sep by now apply no_space_no_tab.
  now rewrite split_no_sep.
Qed.

Lemma expected_line_strip (path : json_file) :
  fst (_load_json U path) <> [] ->
  snd (_load_json U path) = fst (_load_json U path) ->
  strip (snd (_load_json U path) ++ [LF]) = fst (_load_json U path).
Proof.
  intros Hne ->.
  rewrite <- (app_nil_l (fst (_load_json U path) ++ [LF])).
  apply strip_between; try reflexivity.
  rewrite load_json_fst in *; unfold _normalize_text_in in *.
  now apply (normalized_clean (str ",!?.:;-")).
Qed.

Lemma write_tokens_equal (tokens : list (pystr * pystr)) :
  forall i,
    (forall a b, In (a, b) tokens -> lower U b = a) ->
    tsv_parser.write_tokens U None i tokens
    = {| written := map (fun p => fst p ++ [TAB] ++ str "B" ++ [LF]) tokens;
         logged := []; raised := None |}.
Proof.
  induction tokens as [|[a b] tokens IH]; intros i H; [reflexivity|].
  cbn [tsv_parser.write_tokens map fst].
  rewrite (H a b (or_introl eq_refl)).
  rewrite (determine_label_equal a a eq_refl).
  rewrite IH by (intros a' b' Hin; apply H; now right).
  reflexivity.
Qed.

Lemma combine_same {A} (l : list A) :
  combine l l = map (fun x => (x, x)) l.
Proof. induction l as [|x l IH]; [reflexivity|]; cbn; now rewrite IH. Qed.

End CorpusFiles.

(** X14. Both texts that [json_converter._load_json] returns are clean:
    neither has one of the characters [, ! ? . : ; -] in it, the expected
    text no U+2026 either, and unless the text is empty none of its
    tokens is, so that no line of the aligner begins with a tab. *)
Theorem load_json_clean (U : unicode) (path : json_converter.json_file) :
  let text_in := fst (json_converter._load_json U path) in
  let text_exp := snd (json_converter._load_json U path) in
  (text_in = [] \/ Forall (fun token => token <> []) (split SP text_in))
  /\ (text_exp = [] \/ Forall (fun token => token <> []) (split SP text_exp))
  /\ Forall (fun c => char_in (str ",!?.:;-") c = false) text_in
  /\ Forall (fun c => char_in normalized_away c = false) text_exp.
Proof.
  cbv zeta; rewrite load_json_fst, load_json_snd, normalize_text_exp_strip.
  unfold json_converter._normalize_text_in.
  destruct (normalized_clean (str ",!?.:;-")
              (lower U (fst (fst (json_converter._build_texts U
                                    (json_converter.content path)))))
              eq_refl) as (H1 & H2 & _).
  destruct (normalized_clean normalized_away
              (lower U (snd (fst (json_converter._build_texts U
                                    (json_converter.content path)))))
              eq_refl) as (H3 & H4 & _).
  now repeat split.
Qed.

(** X15. The file [<name>_in.tsv] that [_write_output] writes is a
    manifest that [_parse_wikipunct_text_ids] reads back to the stems of
    the documents in their order, and each of its lines has the two
    fields that [TsvParser.convert] asks for; this for documents with a
    plain stem and an input text that is not empty and has no tab, line
    feed or carriage return. *)
Theorem write_output_manifest (U : unicode)
    (paths : list json_converter.json_file) :
  forallb (writable U) paths = true ->
  json_converter._parse_wikipunct_text_ids
    (fst (json_converter._write_output U paths))
  = Return (map json_converter.stem paths)
  /\ forallb tsv_parser.has_two_fields
       (fst (json_converter._write_output U paths)) = true.
Proof.
  rewrite write_output_all; cbn [fst].
  induction paths as [|p paths IH]; [now split|].
  cbn [forallb map json_converter._parse_wikipunct_text_ids].
  intros H; apply andb_true_iff in H; destruct H as [Hp H].
  destruct (IH H) as [IH1 IH2].
  unfold tsv_parser.has_two_fields at 1.
  now rewrite (in_line_fields U p Hp), IH1, IH2.
Qed.

Lemma write_output_manifest_example :
  json_converter._parse_wikipunct_text_ids
    (fst (json_converter._write_output ascii_tables
            [ {| json_converter.stem := str "wikinews1";
                 json_converter.content := dog_document |};
              {| json_converter.stem := str "wikitalks2";
                 json_converter.content := parenthesis_document |} ]))
  = Return [str "wikinews1"; str "wikitalks2"].
Proof.
  exact (proj1 (write_output_manifest ascii_tables
                  [ {| json_converter.stem := str "wikinews1";
                       json_converter.content := dog_document |};
                    {| json_converter.stem := str "wikitalks2";
                       json_converter.content := parenthesis_document |} ]
                  eq_refl)).
Defined.

(** X16. A document whose input text comes out empty, as one without
    words does, leaves a line that ends with the tab; stripped, it has
    one field, and both readers of the file raise [ValueError] on it:
    [_parse_wikipunct_text_ids] and [TsvParser.convert], with or without
    forced alignment. *)
Theorem empty_document_unreadable (U : unicode)
    (path : json_converter.json_file)
    (fa_transcriptions_directory : option tsv_parser.fa_directory) :
  plain (json_converter.stem path) = true ->
  fst (json_converter._load_json U path) = [] ->
  json_converter._parse_wikipunct_text_ids
    (fst (json_converter._write_output U [path]))
  = Raise ValueError
  /\ raised (tsv_parser.convert U fa_transcriptions_directory
               (fst (json_converter._write_output U [path]))
               (snd (json_converter._write_output U [path])))
     = Some ValueError.
Proof.
  intros Hs He; rewrite write_output_all; cbn [fst snd map].
  rewrite He.
  assert (Hstrip : strip (json_converter.stem path ++ [TAB] ++ [] ++ [LF])
                   = json_converter.stem path).
  { rewrite <- (app_nil_l (json_converter.stem path ++ _)).
    apply strip_between; try reflexivity; now apply plain_trimmed. }
  assert (Hsplit : split TAB (json_converter.stem path)
                   = [json_converter.stem path]).
  { destruct (plain_cons _ Hs) as (_ & _ & _ & _ & Hall).
    now apply split_no_sep, no_space_no_tab. }
  unfold tsv_parser.convert;
    cbn [json_converter._parse_wikipunct_text_ids combine
         tsv_parser.convert_lines].
  unfold tsv_parser.convert_line.
  now rewrite Hstrip, Hsplit.
Qed.

Lemma empty_document_unreadable_example :
  json_converter._parse_wikipunct_text_ids
    (fst (json_converter._write_output ascii_tables [json_named "wikinews3"]))
  = Raise ValueError
  /\ raised (tsv_parser.convert ascii_tables None
               (fst (json_converter._write_output ascii_tables
                       [json_named "wikinews3"]))
               (snd (json_converter._write_output ascii_tables
                       [json_named "wikinews3"])))
     = Some ValueError.
Proof.
  exact (empty_document_unreadable ascii_tables (json_named "wikinews3") None
           eq_refl eq_refl).
Defined.

(* ================================================================== *)
(** * The aligner on the files of the corpus loader *)
(* ================================================================== *)

Section CorpusLabels.

Import json_converter.

Variable U : unicode.

Hypothesis lower_app : forall a b, lower U (a ++ b) = lower U a ++ lower U b.
Hypothesis lower_fixes :
  forall p, forallb (char_in (SP :: normalized_away)) p = true ->
            lower U p = p.

Lemma convert_line_corpus (path : json_file) :
  writable U path = true ->
  (forall w, In w (words (content path)) -> ~ In HELLIP (lower U (word w))) ->
  (forall token, In token (split SP (fst (_load_json U path))) ->
     lower U token = token) ->
  tsv_parser.convert_line U None
    (stem path ++ [TAB] ++ fst (_load_json U path) ++ [LF])
    (snd (_load_json U path) ++ [LF])
  = {| written :=
         map (fun token => token ++ [TAB] ++ str "B" ++ [LF])
             (split SP (fst (_load_json U path))) ++ [[LF]];
       logged := []; raised := None |}.
Proof.
  intros Hw Hh Hl.
  pose proof (load_json_texts U lower_app lower_fixes path Hh) as Heq.
  assert (Hne : fst (_load_json U path) <> []).
  { unfold writable in Hw; apply andb_true_iff in Hw; destruct Hw as [_ Hw].
    intros E; now rewrite E in Hw. }
  unfold tsv_parser.convert_line.
  rewrite (in_line_fields U path Hw).
  rewrite (expected_line_strip U path Hne (eq_sym Heq)).
  rewrite Z.eqb_refl; cbn [negb].
  rewrite combine_same, write_tokens_equal.
  - unfold run_then; cbn [raised written logged]; now rewrite map_map.
  - intros a b Hin; apply in_map_iff in Hin.
    destruct Hin as (token & [= <- <-] & Hin); now apply Hl.
Qed.

Lemma convert_lines_corpus (paths : list json_file) :
  (forall path, In path paths ->
     writable U path = true
     /\ (forall w, In w (words (content path)) ->
           ~ In HELLIP (lower U (word w)))
     /\ (forall token, In token (split SP (fst (_load_json U path))) ->
           lower U token = token)) ->
  tsv_parser.convert_lines U None
    (combine
       (map (fun path => stem path ++ [TAB] ++ fst (_load_json U path) ++ [LF])
            paths)
       (map (fun path => snd (_load_json U path) ++ [LF]) paths))
  = {| written :=
         flat_map
           (fun path =>
              map (fun token => token ++ [TAB] ++ str "B" ++ [LF])
                  (split SP (fst (_load_json U path))) ++ [[LF]]) paths;
       logged := []; raised := None |}.
Proof.
  induction paths as [|p paths IH]; intros H; [reflexivity|].
  cbn [map combine tsv_parser.convert_lines flat_map].
  destruct (H p (or_introl eq_refl)) as (Hw & Hh & Hl).
  rewrite (convert_line_corpus p Hw Hh Hl).
  rewrite IH by (intros p' Hp'; apply H; now right).
  reflexivity.
Qed.

End CorpusLabels.

(** X17. On the two files that [json_converter._write_output] writes,
    [TsvParser.convert] gives every token the label [B], logs nothing and
    skips no document: the expected text has no punctuation left for the
    aligner to find. This for documents that are writable, have no
    U+2026 in the lower case of a word and whose tokens [str.lower] leaves
    as they are, and for a [str.lower] that works piece by piece and
    leaves the space and the characters [… , ! ? . : ; -] alone. *)
Theorem corpus_labels_all_B (U : unicode)
    (paths : list json_converter.json_file) :
  (forall a b, lower U (a ++ b) = lower U a ++ lower U b) ->
  (forall p, forallb (char_in (SP :: normalized_away)) p = true ->
             lower U p = p) ->
  (forall path, In path paths ->
     writable U path = true
     /\ (forall w, In w (json_converter.words (json_converter.content path)) ->
           ~ In HELLIP (lower U (json_converter.word w)))
     /\ (forall token,
           In token (split SP (fst (json_converter._load_json U path))) ->
           lower U token = token)) ->
  tsv_parser.convert U None
    (fst (json_converter._write_output U paths))
    (snd (json_converter._write_output U paths))
  = {| written :=
         flat_map
           (fun path =>
              map (fun token => token ++ [TAB] ++ str "B" ++ [LF])
                  (split SP (fst (json_converter._load_json U path)))
              ++ [[LF]]) paths;
       logged := []; raised := None |}.
Proof.
  intros Happ Hfix H; rewrite write_output_all; cbn [fst snd].
  now apply convert_lines_corpus.
Qed.

Lemma corpus_labels_all_B_example :
  tsv_parser.convert ascii_tables None
    (fst (json_converter._write_output ascii_tables
            [ {| json_converter.stem := str "wikinews1";
                 json_converter.content := dog_document |} ]))
    (snd (json_converter._write_output ascii_tables
            [ {| json_converter.stem := str "wikinews1";
                 json_converter.content := dog_document |} ]))
  = {| written := [str "dog" ++ [TAB] ++ str "B" ++ [LF];
                   str "runs" ++ [TAB] ++ str "B" ++ [LF];
                   str "home" ++ [TAB] ++ str "B" ++ [LF];
                   [LF]];
       logged := []; raised := None |}.
Proof.
  apply (corpus_labels_all_B ascii_tables
           [ {| json_converter.stem := str "wikinews1";
                json_converter.content := dog_document |} ]
           ascii_lower_app ascii_lower_fixes).
  intros path [<-|[]]; split; [reflexivity|split].
  - intros w Hw H; cbn in Hw; decompose [or] Hw; subst; try contradiction;
      cbn in H; decompose [or] H; try contradiction; discriminate.
  - intros token Hin; cbn in Hin; decompose [or] Hin; subst;
      try contradiction; reflexivity.
Defined.

(* ================================================================== *)
(** * The chunks of a sentence *)
(* ================================================================== *)

Section Windows.

Import DataFrame split_long_examples.

Variable tokenize : pystr -> list pystr.
Variable max_seq_len : Z.

Lemma slice_from_In {A} (k : Z) (l : list A) (x : A) :
  In x (slice_from k l) -> In x l.
Proof.
  unfold slice_from; intros H.
  rewrite <- (firstn_skipn (slice_bound l k) l); apply in_or_app; now right.
Qed.

(** The windows hold the rows they were cut from and no others. *)
Lemma windows_from_In (offset : Z -> Z)
    (rest current : list (pystr * pystr * pystr))
    (x : pystr * pystr * pystr) :
  In x (concat (windows_from tokenize max_seq_len offset current rest))
  <-> In x (current ++ rest).
Proof.
  revert current; induction rest as [|y rest IH]; intros current;
    cbn [windows_from].
  - cbn [concat]; now rewrite !app_nil_r.
  - destruct (_ >=? _); cbn [concat].
    + rewrite in_app_iff, IH, !in_app_iff; cbn [In].
      split; [|tauto].
      intros [H|[[H|[H|[]]]|H]]; try tauto.
      left; exact (slice_from_In _ _ _ H).
    + rewrite IH, <- app_assoc; reflexivity.
Qed.

(** With stride 1.0 a window is within the budget or has one row. *)
Lemma windows_from_budget (rest current : list (pystr * pystr * pystr)) :
  sum (map (subwords tokenize) current) < max_seq_len - 1
  \/ (length current <= 1)%nat ->
  Forall (fun W => sum (map (subwords tokenize) W) < max_seq_len - 1
                   \/ (length W <= 1)%nat)
         (windows_from tokenize max_seq_len (fun n => n) current rest).
Proof.
  revert current; induction rest as [|x rest IH]; intros current H;
    cbn [windows_from]; [now constructor|].
  destruct (Z.geb_spec (sum (map (subwords tokenize) current)
                        + subwords tokenize x) (max_seq_len - 1)) as [_|Hlt].
  - constructor; [exact H|]; apply IH; right.
    rewrite slice_from_all; cbn [app length]; lia.
  - apply IH; left.
    rewrite map_app, sum_app; cbn [map]; now rewrite sum_singleton.
Qed.

(** With stride 0.0 a window is never cut: it is the rows so far. *)
Lemma windows_from_stride_zero (rest current : list (pystr * pystr * pystr)) :
  Forall (fun W => exists after, current ++ rest = W ++ after)
         (windows_from tokenize max_seq_len (fun _ => 0) current rest)
  /\ last (windows_from tokenize max_seq_len (fun _ => 0) current rest) []
     = current ++ rest.
Proof.
  revert current; induction rest as [|x rest IH]; intros current;
    cbn [windows_from].
  - split; [constructor; [now exists []|constructor]|].
    cbn [last]; now rewrite app_nil_r.
  - assert (Hoff : slice_from 0 current = current).
    { unfold slice_from, slice_bound; cbn [Z.ltb Z.compare].
      pose proof (len_nonneg current).
      now replace (Z.to_nat (Z.min 0 (len current))) with 0%nat by lia. }
    destruct (IH (current ++ [x])) as [IH1 IH2].
    rewrite <- app_assoc in IH1, IH2; cbn [app] in IH1, IH2.
    destruct (_ >=? _).
    + rewrite Hoff; split.
      * constructor; [now exists (x :: rest)|exact IH1].
      * rewrite <- IH2.
        destruct (windows_from tokenize max_seq_len (fun _ => 0)
                    (current ++ [x]) rest)
          eqn:E; [|reflexivity].
        destruct (windows_from_head tokenize max_seq_len (fun _ => 0) rest
                    (current ++ [x])) as (p & q & ws & _ & E').
        rewrite E' in E; discriminate E.
    + now split.
Qed.

End Windows.

Lemma concat_In_nth {A} (ws : list (list A)) (x : A) :
  In x (concat ws) <-> exists i, In x (nth i ws []).
Proof.
  induction ws as [|w ws IH]; cbn [concat].
  - split; [contradiction|]; intros [[|i] H]; exact H.
  - rewrite in_app_iff, IH; split.
    + intros [H|[i H]]; [now exists 0%nat|now exists (S i)].
    + intros [[|i] H]; [now left|right; now exists i].
Qed.

(** X18. For a float stride between 0.0 and 1.0 and a table of fewer
    than [2 ^ 53] rows the chunker returns, and it neither loses nor
    invents a row: the rows of a sentence are those found in its chunks,
    whatever the budget and the tokenizer. *)
Theorem chunks_cover_sentence (tokenize : pystr -> list pystr)
    (max_seq_len : Z) (stride : float) (data : list (DataFrame.row Z))
    (sentence_id : Z) :
  in_unit_interval stride = true -> len data < 2 ^ 53 ->
  exists splitted_data,
    split_long_examples._split_long_examples
      tokenize max_seq_len stride data = Return splitted_data
    /\ forall x : pystr * pystr * pystr,
         In x (split_long_examples.sentence data sentence_id)
         <-> exists c,
               0 <= c
               /\ In x (split_long_examples.chunk
                          splitted_data sentence_id c).
Proof.
  intros Hs Hlen.
  destruct (offsets_unit stride Hs) as [offset Hoff].
  exists (split_long_examples.chunked tokenize max_seq_len offset data).
  split.
  { apply (split_long_examples_chunked tokenize max_seq_len stride offset
             (2 ^ 53 - 1) Hoff); lia. }
  intros x.
  rewrite <- (app_nil_l (split_long_examples.sentence data sentence_id)).
  rewrite <- (windows_from_In tokenize max_seq_len offset), concat_In_nth.
  split.
  - intros [i Hi]; exists (Z.of_nat i); split; [lia|].
    rewrite chunk_window by lia; now rewrite Nat2Z.id.
  - intros (c & Hc & Hin); exists (Z.to_nat c).
    now rewrite chunk_window in Hin by assumption.
Qed.

Lemma chunks_cover_sentence_ten_words :
  exists splitted_data,
    split_long_examples._split_long_examples
      one_subword 5 float_0_5 ten_words = Return splitted_data
    /\ forall x : pystr * pystr * pystr,
         In x (split_long_examples.sentence ten_words 7)
         <-> exists c,
               0 <= c
               /\ In x (split_long_examples.chunk splitted_data 7 c).
Proof.
  apply chunks_cover_sentence; vm_compute; reflexivity.
Defined.

(** X19. With the default stride 1.0, on a table of fewer than [2 ^ 53]
    rows, the chunker returns and every chunk is within the budget, its
    subword lengths adding up to less than [max_seq_len - 1], unless it
    has one word only, which alone may be longer. *)
Theorem chunks_within_budget (tokenize : pystr -> list pystr)
    (max_seq_len : Z) (data : list (DataFrame.row Z)) (sentence_id c : Z) :
  len data < 2 ^ 53 -> 0 <= c ->
  exists splitted_data,
    split_long_examples._split_long_examples
      tokenize max_seq_len float_1_0 data = Return splitted_data
    /\ let W := split_long_examples.chunk splitted_data sentence_id c in
       sum (map (split_long_examples.subwords tokenize) W) < max_seq_len - 1
       \/ (length W <= 1)%nat.
Proof.
  intros Hlen Hc.
  exists (split_long_examples.chunked tokenize max_seq_len (fun n => n) data).
  split.
  { apply (split_long_examples_chunked tokenize max_seq_len float_1_0
             (fun n => n) (2 ^ 53 - 1) offsets_one); lia. }
  intros W; subst W.
  rewrite chunk_window by assumption.
  pose proof (windows_from_budget tokenize max_seq_len
                (split_long_examples.sentence data sentence_id) []
                (or_intror (Nat.le_0_l 1))) as Hall.
  destruct (nth_in_or_default (Z.to_nat c)
              (split_long_examples.windows_from tokenize max_seq_len
                 (fun n => n) []
                 (split_long_examples.sentence data sentence_id)) [])
    as [Hin | ->]; [|right; cbn; lia].
  rewrite Forall_forall in Hall; exact (Hall _ Hin).
Qed.

Lemma chunks_within_budget_ten_words :
  exists splitted_data,
    split_long_examples._split_long_examples
      one_subword 5 float_1_0 ten_words = Return splitted_data
    /\ let W := split_long_examples.chunk splitted_data 7 2 in
       sum (map (split_long_examples.subwords one_subword) W) < 5 - 1
       \/ (length W <= 1)%nat.
Proof.
  apply (chunks_within_budget one_subword 5 ten_words 7 2);
    [vm_compute; reflexivity|lia].
Defined.

(** X20. With stride 0.0, on a table of fewer than [2 ^ 53] rows, the
    chunker returns and nothing is ever dropped from the window: every
    chunk of a sentence is the sentence up to some row, and the last
    chunk is the whole sentence, whatever the budget. *)
Theorem chunks_stride_zero (tokenize : pystr -> list pystr)
    (max_seq_len : Z) (data : list (DataFrame.row Z)) (sentence_id : Z) :
  len data < 2 ^ 53 ->
  exists splitted_data,
    split_long_examples._split_long_examples
      tokenize max_seq_len float_0_0 data = Return splitted_data
    /\ let chunk := split_long_examples.chunk splitted_data sentence_id in
       (forall c, 0 <= c ->
          exists after,
            split_long_examples.sentence data sentence_id = chunk c ++ after)
       /\ exists c, 0 <= c
                    /\ chunk c = split_long_examples.sentence data sentence_id.
Proof.
  intros Hlen.
  exists (split_long_examples.chunked tokenize max_seq_len (fun _ => 0) data).
  split.
  { apply (split_long_examples_chunked tokenize max_seq_len float_0_0
             (fun _ => 0) (2 ^ 53 - 1) offsets_zero); lia. }
  intros chunk; subst chunk.
  destruct (windows_from_stride_zero tokenize max_seq_len
              (split_long_examples.sentence data sentence_id) [])
    as [Hall Hlast].
  cbn [app] in Hall, Hlast.
  set (ws := split_long_examples.windows_from tokenize max_seq_len
               (fun _ => 0) []
               (split_long_examples.sentence data sentence_id)) in *.
  split.
  - intros c Hc; rewrite chunk_window by assumption; fold ws.
    destruct (nth_in_or_default (Z.to_nat c) ws []) as [Hin | ->];
      [|now eexists].
    rewrite Forall_forall in Hall; exact (Hall _ Hin).
  - exists (Z.of_nat (length ws - 1)); split; [lia|].
    rewrite chunk_window by lia; fold ws.
    rewrite Nat2Z.id, <- Hlast.
    clear; induction ws as [|w [|w' ws] IH]; try reflexivity.
    cbn [length last] in *; rewrite <- IH.
    replace (S (S (length ws)) - 1)%nat with (S (S (length ws) - 1)) by lia.
    reflexivity.
Qed.

(** The ten words under budget 5 and stride 0.0: the chunks are the words
    up to the third, the fourth, and so on to the tenth. *)
Lemma chunks_stride_zero_ten_words :
  (exists splitted_data,
     split_long_examples._split_long_examples
       one_subword 5 float_0_0 ten_words = Return splitted_data
     /\ let chunk := split_long_examples.chunk splitted_data 7 in
        (forall c, 0 <= c ->
           exists after,
             split_long_examples.sentence ten_words 7 = chunk c ++ after)
        /\ exists c, 0 <= c
                     /\ chunk c = split_long_examples.sentence ten_words 7)
  /\ exists splitted_data,
       split_long_examples._split_long_examples
         one_subword 5 float_0_0 ten_words = Return splitted_data
       /\ map (fun c => concat (map fst (map fst
                          (split_long_examples.chunk splitted_data 7 c))))
              [0; 1; 2; 3; 4; 5; 6; 7; 8]
          = [str "abc"; str "abcd"; str "abcde"; str "abcdef";
             str "abcdefg"; str "abcdefgh"; str "abcdefghi";
             str "abcdefghij"; []].
Proof.
  split.
  - apply (chunks_stride_zero one_subword 5 ten_words 7).
    vm_compute; reflexivity.
  - eexists; split; vm_compute; reflexivity.
Defined.

(* ================================================================== *)
(** * The manifests and the files of [convert] *)
(* ================================================================== *)


(** X22. [JsonToConllConverter.convert] writes three pairs of files in
    which line [i] of the input file and line [i] of the expected file
    come from the same document, and, when the manifests list each id
    once and the candidates have distinct stems, every candidate has its
    pair of lines in exactly one of the three pairs of files. *)
Theorem convert_writes_every_candidate (U : unicode) (R : random_module)
    (g : rng_state R)
    (train_file test_file train_names test_names : list pystr)
    (data_paths : list (list json_converter.json_file)) :
  random_sound R ->
  json_converter._parse_wikipunct_text_ids train_file = Return train_names ->
  json_converter._parse_wikipunct_text_ids test_file = Return test_names ->
  NoDup train_names -> NoDup test_names ->
  NoDup (map json_converter.stem (concat data_paths)) ->
  exists train_paths test_paths rest_paths g',
    json_converter.convert U R g train_file test_file data_paths
    = Return
        ({| json_converter.train_in :=
              map (json_converter.in_line U) train_paths;
            json_converter.train_expected :=
              map (json_converter.expected_line U) train_paths;
            json_converter.test_in :=
              map (json_converter.in_line U) test_paths;
            json_converter.test_expected :=
              map (json_converter.expected_line U) test_paths;
            json_converter.rest_in :=
              map (json_converter.in_line U) rest_paths;
            json_converter.rest_expected :=
              map (json_converter.expected_line U) rest_paths |}, g')
    /\ Permutation (train_paths ++ test_paths ++ rest_paths)
                   (concat data_paths).
Proof.
  intros HR Htrain Htest Hnd1 Hnd2 Hnd.
  unfold json_converter.convert.
  rewrite (get_json_paths_buckets R g _ _ _ _ _ Htrain Htest).
  rewrite !write_output_all.
  do 4 eexists; split; [reflexivity|].
  assert (Ptrain : Permutation
            (json_converter._sort_paths
               (filter (json_converter.in_train train_names)
                       (concat data_paths)) train_names)
            (filter (json_converter.in_train train_names)
                    (concat data_paths))).
  { apply sort_paths_Permutation; [exact Hnd1|now apply NoDup_map_filter|].
    intros p Hp; apply filter_In in Hp; now apply contains_spec. }
  assert (Ptest : Permutation
            (json_converter._sort_paths
               (filter (json_converter.in_test train_names test_names)
                       (concat data_paths)) test_names)
            (filter (json_converter.in_test train_names test_names)
                    (concat data_paths))).
  { apply sort_paths_Permutation; [exact Hnd2|now apply NoDup_map_filter|].
    intros p Hp; apply filter_In in Hp; destruct Hp as [_ Hp].
    unfold json_converter.in_test in Hp; apply andb_true_iff in Hp.
    now apply contains_spec. }
  rewrite Ptrain, Ptest, (shuffle_permutes R HR).
  apply route_Permutation.
Qed.

Lemma convert_writes_every_candidate_example :
  let train_file := [str "b" ++ [TAB] ++ str "x" ++ [LF];
                     str "a" ++ [TAB] ++ str "y" ++ [LF]] in
  let test_file := [str "c" ++ [TAB] ++ str "z" ++ [LF]] in
  let data_paths := [[json_named "a"; json_named "c"];
                     [json_named "d"; json_named "b"; json_named "e"]] in
  exists files g',
    json_converter.convert ascii_tables reversing_random 5
      train_file test_file data_paths
    = Return (files, g')
    /\ json_converter.train_in files
       = [str "b" ++ [TAB; LF]; str "a" ++ [TAB; LF]]
    /\ json_converter.test_in files = [str "c" ++ [TAB; LF]]
    /\ json_converter.rest_in files
       = [str "e" ++ [TAB; LF]; str "d" ++ [TAB; LF]].
Proof.
  intros train_file test_file data_paths.
  destruct (convert_writes_every_candidate ascii_tables reversing_random 5
              train_file test_file [str "b"; str "a"] [str "c"] data_paths)
    as (train_paths & test_paths & rest_paths & g' & Hrun & _).
  - exact reversing_random_sound.
  - reflexivity.
  - reflexivity.
  - repeat constructor; simpl; intuition discriminate.
  - repeat constructor; simpl; intuition discriminate.
  - repeat constructor; simpl; intuition discriminate.
  - assert (E : json_converter.convert ascii_tables reversing_random 5
                  train_file test_file data_paths
                = Return
                    ({| json_converter.train_in :=
                          [str "b" ++ [TAB; LF]; str "a" ++ [TAB; LF]];
                        json_converter.train_expected := [[LF]; [LF]];
                        json_converter.test_in := [str "c" ++ [TAB; LF]];
                        json_converter.test_expected := [[LF]];
                        json_converter.rest_in :=
                          [str "e" ++ [TAB; LF]; str "d" ++ [TAB; LF]];
                        json_converter.rest_expected := [[LF]; [LF]] |}, 1))
      by (vm_compute; reflexivity).
    do 2 eexists; split; [exact Hrun|].
    rewrite E in Hrun; injection Hrun as H1 _ H2 _ H3 _ _.
    cbn [json_converter.train_in json_converter.test_in
         json_converter.rest_in].
    now rewrite <- H1, <- H2, <- H3.
Defined.

(* ================================================================== *)
(** * The labels of the enumeration and the older loader *)
(* ================================================================== *)

(** X23. Every punctuation label of [Label] is recovered by the aligner:
    for a member of [Label.only_punctuations()] and any token, the label
    of the token against the token followed by the value of the member
    is that value, in both copies of the aligner, with nothing logged. *)
Theorem determine_label_recovers_labels (l : Label) (in_token : pystr) :
  In l Label_only_punctuations ->
  tsv_parser._determine_label in_token (in_token ++ Label_value l)
  = Return (Label_value l, [])
  /\ parse_tsv._determine_label in_token (in_token ++ Label_value l)
     = Return (Label_value l, []).
Proof.
  intros Hl.
  assert (H : tsv_parser._determine_label in_token (in_token ++ Label_value l)
              = Return (Label_value l, [])).
  { destruct l; cbn in Hl; try (now intuition discriminate);
      try (now apply determine_label_trailing).
    now apply determine_label_ellipsis. }
  split; [exact H|now rewrite determine_label_duplicates_agree].
Qed.

Lemma determine_label_recovers_labels_example :
  tsv_parser._determine_label (str "dog") (str "dog?") = Return (str "?", [])
  /\ parse_tsv._determine_label (str "dog") (str "dog?")
     = Return (str "?", []).
Proof.
  apply (determine_label_recovers_labels QUESTION (str "dog")).
  cbn; tauto.
Defined.

Lemma find_from_found (sub pre post : pystr) :
  forall at_, at_ <= find_from sub (pre ++ sub ++ post) at_.
Proof.
  assert (Hstart : forall t, startswith sub (sub ++ t) = true).
  { intros t; induction sub as [|c sub IH]; [reflexivity|].
    cbn [app startswith]; now rewrite N.eqb_refl, IH. }
  induction pre as [|c pre IH]; intros at_.
  - cbn [app]; destruct (sub ++ post) eqn:E; cbn [find_from];
      rewrite <- E, Hstart; lia.
  - cbn [app find_from]; destruct (startswith sub _); [lia|].
    specialize (IH (at_ + 1)); lia.
Qed.

Lemma str_contains_app (sub pre post : pystr) :
  str_contains (pre ++ sub ++ post) sub = true.
Proof.
  unfold str_contains; rewrite str_find_from by lia.
  pose proof (len_nonneg (pre ++ sub ++ post)).
  destruct (Z.ltb_spec (len (pre ++ sub ++ post)) 0); [lia|].
  apply Z.leb_le, find_from_found.
Qed.

(** X24. [_sort_paths] of [parse_json2.py] tests [name in path] where
    [json_converter.py] compares the name with the stem. When a name is
    the beginning of another and the path of the longer comes first,
    the older loader takes that path for both names and leaves out the
    document of the shorter, which the newer loader puts first. *)
Theorem sort_paths_substring (directory extension name more : pystr)
    (c : char) (text : json_converter.TextData) :
  let longer := name ++ c :: more in
  let path (name : pystr) := directory ++ name ++ extension in
  let file (name : pystr) :=
    {| json_converter.stem := name; json_converter.content := text |} in
  parse_json2._sort_paths [path longer; path name] [name; longer]
  = [path longer; path longer]
  /\ json_converter._sort_paths [file longer; file name] [name; longer]
     = [file name; file longer].
Proof.
  intros longer path file; split.
  - unfold parse_json2._sort_paths; cbn [fold_left find app].
    assert (H1 : str_contains (path longer) name = true).
    { unfold path, longer; rewrite <- app_assoc.
      apply str_contains_app. }
    assert (H2 : str_contains (path longer) longer = true)
      by apply str_contains_app.
    now rewrite H1, H2.
  - unfold json_converter._sort_paths;
      cbn [fold_left find app json_converter.stem file].
    assert (H1 : str_eqb name longer = false)
      by (apply str_eqb_app_false; discriminate).
    assert (H2 : str_eqb longer name = false).
    { destruct (str_eqb_spec longer name) as [E|]; [|reflexivity].
      rewrite <- E, str_eqb_refl in H1; discriminate H1. }
    now rewrite H1, !str_eqb_refl.
Qed.

(* ================================================================== *)
(** * What a pause found for an expected word means *)
(* ================================================================== *)

Section MatchSound.

Variable U : unicode.

(** The dictionary maps the start of a word in the text to its pause. *)
Lemma index_transcript_keys (words_and_breaks : list (pystr * Z)) :
  forall times_text times_indexes,
    let result :=
      fold_left
        (fun '(times_text, times_indexes) '(word, break_) =>
           let times_indexes :=
             dict_set times_indexes (len times_text) break_ in
           (times_text ++ lower U word, times_indexes))
        words_and_breaks (times_text, times_indexes) in
    fst result
    = times_text ++ tsv_parser.transcript_text U words_and_breaks 0
    /\ forall f b,
         dict_get (snd result) f = Some b ->
         (exists k word,
            nth_error words_and_breaks k = Some (word, b)
            /\ skipn (Z.to_nat f) (fst result)
               = tsv_parser.transcript_text U words_and_breaks k
            /\ 0 <= f)
         \/ dict_get times_indexes f = Some b.
Proof.
  unfold tsv_parser.transcript_text.
  induction words_and_breaks as [|[word break_] rest IH];
    intros times_text times_indexes; cbn [fold_left].
  - cbn [skipn map concat]; rewrite app_nil_r; split; [reflexivity|].
    intros f b H; now right.
  - destruct (IH (times_text ++ lower U word)
                (dict_set times_indexes (len times_text) break_))
      as [IH1 IH2].
    cbv zeta in *; split.
    + rewrite IH1, <- app_assoc; reflexivity.
    + intros f b H; destruct (IH2 f b H) as [(k & w & Hk & Hskip & Hf)|Hget].
      * left; exists (S k), w; now repeat split.
      * unfold dict_set in Hget; cbn [dict_get] in Hget.
        destruct (Z.eqb_spec f (len times_text)) as [->|]; [|now right].
        injection Hget as ->; left; exists 0%nat, word.
        split; [reflexivity|split; [|apply len_nonneg]].
        rewrite IH1, <- app_assoc; unfold len; rewrite Nat2Z.id.
        rewrite skipn_app, skipn_all, Nat.sub_diag; reflexivity.
Qed.

Lemma str_find_startswith (text sub : pystr) (start : Z) :
  0 <= start -> 0 <= str_find text sub start ->
  startswith sub (skipn (Z.to_nat (str_find text sub start)) text) = true.
Proof.
  intros Hs Hr; rewrite str_find_from in * by exact Hs.
  destruct (Z.ltb_spec (len text) start) as [|Hlen]; [lia|].
  destruct (find_from_spec sub (skipn (Z.to_nat start) text) start)
    as [H|[[H1 H2] H3]]; [lia|].
  rewrite skipn_skipn in H3.
  now replace (Z.to_nat (find_from sub (skipn (Z.to_nat start) text) start
                         - start) + Z.to_nat start)%nat
    with (Z.to_nat (find_from sub (skipn (Z.to_nat start) text) start))
    in H3 by lia.
Qed.

Lemma provide_break_hit (times_text : pystr) (times_indexes : list (Z * Z))
    (matched : list Z) (index : Z) (word : pystr) :
  0 <= index ->
  exists b index',
    tsv_parser.provide_break U times_text times_indexes (matched, index) word
    = (matched ++ [b], index')
    /\ 0 <= index'
    /\ (b = -1
        \/ exists f, dict_get times_indexes f = Some b
                     /\ startswith (lower U word)
                          (skipn (Z.to_nat f) times_text) = true).
Proof.
  intros Hi; unfold tsv_parser.provide_break.
  destruct (Z.ltb_spec (str_find times_text (lower U word) index) 0)
    as [Hneg|Hpos].
  - exists (-1), index; repeat split; [exact Hi|now left].
  - pose proof (str_find_startswith times_text (lower U word) index Hi Hpos)
      as Hstart.
    destruct (dict_get times_indexes _) as [b|] eqn:E.
    + exists b, (str_find times_text (lower U word) index).
      repeat split; [exact Hpos|right; eexists; split; eassumption].
    + exists (-1), index; repeat split; [exact Hi|now left].
Qed.

Lemma provide_breaks_sound (times_text : pystr) (times_indexes : list (Z * Z))
    (expected_text : list pystr) :
  forall matched index,
    0 <= index ->
    exists entries,
      fst (fold_left (tsv_parser.provide_break U times_text times_indexes)
             expected_text (matched, index))
      = matched ++ entries
      /\ Forall2
           (fun word b =>
              b = -1
              \/ exists f, dict_get times_indexes f = Some b
                           /\ startswith (lower U word)
                                (skipn (Z.to_nat f) times_text) = true)
           expected_text entries.
Proof.
  induction expected_text as [|word rest IH]; intros matched index Hi.
  - exists []; cbn [fold_left fst]; rewrite app_nil_r; split;
      [reflexivity|constructor].
  - cbn [fold_left].
    destruct (provide_break_hit times_text times_indexes matched index word
                Hi) as (b & index' & -> & Hi' & Hb).
    destruct (IH (matched ++ [b]) index' Hi') as (entries & -> & Hall).
    exists (b :: entries); rewrite <- app_assoc; split; [reflexivity|].
    now constructor.
Qed.

End MatchSound.

(** X25. A pause that [_provide_breaks_for_expected] gives an expected
    word is the pause of a word of the transcript at which the expected
    word starts: the lower-case expected word is a prefix of the
    lower-case transcript read from that word on. The match is by
    prefix, so it may end inside the transcript word or run over the
    next ones. *)
Theorem provide_breaks_sound_entries (U : unicode)
    (words_and_breaks : list (pystr * Z)) (expected_text : list pystr) :
  Forall2
    (fun word b =>
       b = -1
       \/ exists k transcript_word,
            nth_error words_and_breaks k = Some (transcript_word, b)
            /\ startswith (lower U word)
                 (tsv_parser.transcript_text U words_and_breaks k) = true)
    expected_text
    (tsv_parser._provide_breaks_for_expected U words_and_breaks expected_text).
Proof.
  unfold tsv_parser._provide_breaks_for_expected, tsv_parser.index_transcript.
  destruct (index_transcript_keys U words_and_breaks [] []) as [_ Hkeys].
  cbv zeta in Hkeys.
  destruct (fold_left _ words_and_breaks ([], []))
    as [times_text times_indexes].
  cbn [fst snd] in Hkeys.
  destruct (provide_breaks_sound U times_text times_indexes expected_text
              [] 0 (Z.le_refl 0)) as (entries & -> & Hall).
  cbn [app]; apply Forall2_impl with (2 := Hall).
  intros word b [->|(f & Hget & Hstart)]; [now left|right].
  destruct (Hkeys f b Hget) as [(k & w & Hk & Hskip & _)|H]; [|discriminate].
  exists k, w; split; [exact Hk|now rewrite <- Hskip].
Qed.

(* ================================================================== *)
(** * The sentence filter applied twice *)
(* ================================================================== *)

(** X26. What [load_data] keeps of a frame is clean and stable: every
    row kept has a label of the alphabet, and filtering the result again
    changes nothing. *)
Theorem load_data_idempotent
    (K : Type) (K_eq_dec : forall x y : K, {x = y} + {x <> y})
    (data : list (DataFrame.row K)) :
  let kept := train_ner_punctuation.drop_invalid_sentences K K_eq_dec data in
  Forall (fun r => In (DataFrame.labels r) Label_list) kept
  /\ train_ner_punctuation.drop_invalid_sentences K K_eq_dec kept = kept.
Proof.
  intros kept; subst kept.
  rewrite !drop_invalid_sentences_filter.
  set (kept := filter (train_ner_punctuation.sentence_valid K K_eq_dec data)
                 data).
  assert (Hkept : forall r, In r kept -> In (DataFrame.labels r) Label_list).
  { intros r Hr; apply filter_In in Hr; destruct Hr as [Hin Hv].
    rewrite sentence_valid_spec in Hv; now apply Hv. }
  split; [now apply Forall_forall|].
  rewrite <- (filter_ext_in (fun _ => true)).
  - clear; induction kept as [|r l IH]; [reflexivity|].
    cbn [filter]; now rewrite IH.
  - intros r Hr; symmetry; apply sentence_valid_spec.
    intros r' Hr' _; now apply Hkept.
Qed.

(* ================================================================== *)
(** * The two normalisers *)
(* ================================================================== *)

(** X27. The five substitutions of [_normalize_text_exp] do what the two
    of [_normalize_text_in] do: on a text without U+2026 in its lower
    case the two normalisers return the same string. Turning [...] into
    U+2026 and back and putting a space before glued punctuation have no
    effect on the result, since every character involved is blanked
    before the spaces are collapsed. With U+2026 in the text, the
    expected text only differs by having it blanked as well. *)
Theorem normalizers_agree (U : unicode) (text : pystr) :
  json_converter._normalize_text_exp U text
  = strip (sub_spaces (sub_set_by_space normalized_away (lower U text)))
  /\ (~ In HELLIP (lower U text) ->
      json_converter._normalize_text_exp U text
      = json_converter._normalize_text_in U text).
Proof.
  assert (H : json_converter._normalize_text_exp U text
              = strip (sub_spaces
                         (sub_set_by_space normalized_away (lower U text)))).
  { rewrite normalize_text_exp_blanked.
    now rewrite sub_hellip_id by apply blanked_no_hellip. }
  split; [exact H|].
  intros Hh; rewrite H; unfold json_converter._normalize_text_in.
  now rewrite sub_set_by_space_no_hellip.
Qed.

Lemma normalizers_agree_example :
  json_converter._normalize_text_exp ascii_tables
    (str "Well... dog runs.Home - now!")
  = json_converter._normalize_text_in ascii_tables
      (str "Well... dog runs.Home - now!").
Proof.
  apply (proj2 (normalizers_agree ascii_tables
                  (str "Well... dog runs.Home - now!"))).
  intros H; cbn in H; decompose [or] H; try contradiction; discriminate.
Defined.
